(** * Presence alarm: the page script and its two revisions

    A shallow embedding of the browser script of the face-presence alarm.
    The repository holds two revisions of one script:

    - [src/Auto_alert/device_input/1/script.js]  (module [Script])
    - [src/unnamed/part_000]                     (module [Revised])

    Everything up to the input handler is identical in both files and is
    modelled once; the input handler and the start button differ and are
    modelled per revision.

    What is tracked: the script's global variables, the content of the
    status element, the inline display of the alert overlay, the volume of
    the alert audio, the listener list of [document], [localStorage], and a
    log of the calls made to the host ([alert], audio, timers, the
    detector).  Console output and canvas painting neither read nor write
    any of this and are left out. *)

From Stdlib Require Import ZArith NArith Lia String Ascii Bool Decimal DecimalN.
From stdpp Require Import base option list gmap.

Set Warnings "-register-all".

Local Open Scope string_scope.
Local Open Scope list_scope.
Local Open Scope N_scope.

(** ** JavaScript numbers

    A Number is NaN, an infinity, a signed zero, or a finite non-zero
    value.  A finite value is kept in the decimal form that
    [Number::toString] assigns to it (ECMA-262, 6.1.6.1.20): its
    significant digits [d1 .. dk], most significant first, and the position
    [n] of the decimal point, so that the value is
    [0.d1..dk * 10^n = d1..dk * 10^(n-k)].  Those digits are the shortest
    ones that read back as the same Number, so two Numbers are ordered the
    way their decimal forms are. *)

Inductive number : Type :=
| NaN
| Infinity (negative : bool)
| Zero (negative : bool)
| Finite (negative : bool) (digits : list N) (n : Z).

Definition digits_value (ds : list N) : N :=
  fold_left (fun acc d => 10 * acc + d) ds 0.

(** The digits of a canonical finite number: decimal digits, neither a
    leading nor a trailing zero. *)
Definition canonical_digits (ds : list N) : bool :=
  forallb (fun d => d <? 10) ds
  && match ds with [] => false | d :: _ => negb (d =? 0) end
  && match rev ds with [] => false | d :: _ => negb (d =? 0) end.

(** A finite number as [m * 10^e] with [m] a signed integer. *)
Definition scaled (negative : bool) (ds : list N) (n : Z) : Z * Z :=
  let m := Z.of_N (digits_value ds) in
  ((if negative then - m else m)%Z, (n - Z.of_nat (length ds))%Z).

Definition scaled_ltb (a b : Z * Z) : bool :=
  let e := Z.min (snd a) (snd b) in
  (fst a * 10 ^ (snd a - e) <? fst b * 10 ^ (snd b - e))%Z.

(** [x < y] of JavaScript. *)
Definition num_ltb (x y : number) : bool :=
  match x, y with
  | NaN, _ | _, NaN => false
  | Infinity true, Infinity true => false
  | Infinity true, _ => true
  | _, Infinity true => false
  | Infinity false, _ => false
  | _, Infinity false => true
  | Zero _, Zero _ => false
  | Zero _, Finite neg _ _ => negb neg
  | Finite neg _ _, Zero _ => neg
  | Finite nx dx ex, Finite ny dy ey => scaled_ltb (scaled nx dx ex) (scaled ny dy ey)
  end.

(** The literal [0.58]. *)
Definition num_0_58 : number := Finite false [5; 8] 0.

(** ** The face-recognition engine

    [faceapi] is an external library.  The script builds a matcher from the
    labelled descriptors and a threshold and later asks it for the best
    match of a descriptor; what the library answers is not the script's
    business, so it is an interface here. *)

Definition Float32Array := list number.

Record LabeledFaceDescriptors := {
  lfd_label : string;
  lfd_descriptors : list Float32Array
}.

Record FaceMatcher := {
  labeledDescriptors : list LabeledFaceDescriptors;
  distanceThreshold : number
}.

Record FaceMatch := { label : string; distance : number }.

(** A detection as [detectFaces] returns it; the bounding box only goes to
    the canvas. *)
Record Detection := { descriptor : Float32Array }.

Class FaceApi := {
  findBestMatch : FaceMatcher -> Float32Array -> FaceMatch
}.

(** The outcome of an awaited promise. *)
Inductive awaited (A : Type) : Type :=
| Resolved (a : A)
| Rejected (reason : string).
Arguments Resolved {A} a.
Arguments Rejected {A} reason.

(** ** The status element

    The children of [#status].  Assigning [textContent] leaves one text
    node; assigning a markup literal to [innerHTML] leaves the nodes that
    literal parses to; [innerHTML += h] re-parses the serialised children
    followed by [h], which for the literals of this script (all starting
    with a tag) is the old children followed by the nodes of [h]. *)

Inductive node : Type :=
| Text (data : string)
| Element (tag : string) (style : string) (children : list node).

Fixpoint node_text (x : node) : string :=
  match x with
  | Text data => data
  | Element _ _ children =>
      (fix go (l : list node) : string :=
         match l with
         | [] => EmptyString
         | y :: l' => String.append (node_text y) (go l')
         end) children
  end.

Definition textContent (children : list node) : string :=
  String.concat EmptyString (map node_text children).

(** ** Listeners, timers and host calls *)

Inductive callback : Type :=
| handleInput_fn        (* the function [handleInput] *)
| visibility_fn.        (* the arrow function given for 'visibilitychange' *)

Inductive timer : Type :=
| timer_monitorLoop     (* setTimeout(monitorLoop, 50) *)
| timer_hideOverlay.    (* setTimeout(() => overlay display none, 5000) *)

Inductive effect : Type :=
| Alert (message : string)          (* window.alert *)
| AudioRewind                       (* alertAudio.currentTime = 0 *)
| AudioPlay                         (* alertAudio.play() *)
| AudioPause                        (* alertAudio.pause() *)
| DetectFaces                       (* detectFaces() *)
| SetTimeout (f : timer) (ms : N).

Global Instance callback_eq_dec : EqDecision callback.
Proof. solve_decision. Defined.

Global Instance timer_eq_dec : EqDecision timer.
Proof. solve_decision. Defined.

Global Instance effect_eq_dec : EqDecision effect.
Proof. solve_decision. Defined.

Definition listener : Type := string * callback.

Definition same_listener (type : string) (f : callback) (l : listener) : bool :=
  String.eqb type (fst l) && bool_decide (f = snd l).

(** [EventTarget.addEventListener] (DOM Standard, "add an event
    listener"): the listener is appended only if the list holds none with
    the same type, callback and capture flag.  The script never passes
    options, so the flag is the same everywhere and is left out. *)
Definition addEventListener (type : string) (f : callback) (ls : list listener)
  : list listener :=
  if existsb (same_listener type f) ls then ls else ls ++ [(type, f)].

(** [EventTarget.removeEventListener]: the listener with that type and
    callback, if there is one, is removed. *)
Fixpoint removeEventListener (type : string) (f : callback) (ls : list listener)
  : list listener :=
  match ls with
  | [] => []
  | l :: ls' =>
      if same_listener type f l then ls'
      else l :: removeEventListener type f ls'
  end.

(** The callbacks a dispatch of [type] invokes, in order. *)
Definition callbacks_for (type : string) (ls : list listener) : list callback :=
  map snd (List.filter (fun l => String.eqb type (fst l)) ls).

(** ** Strings and JSON values

    The text kept in [localStorage] and the strings inside JSON values are
    JavaScript strings: sequences of UTF-16 code units.  (The fixed
    messages, labels and event names of the script are kept as the
    literals of the source.) *)

Definition js (s : string) : list N :=
  map N_of_ascii (list_ascii_of_string s).

(** The same with every apostrophe standing for a double quote, to write
    JSON texts down. *)
Definition json_text (s : string) : list N :=
  map (fun c => if c =? 39 then 34 else c) (js s).

(** The values [JSON.parse] can return.  An object lists its own
    properties in the order [JSON.stringify] enumerates them. *)
Inductive value : Type :=
| VNull
| VBool (b : bool)
| VNum (x : number)
| VStr (s : list N)
| VArr (items : list value)
| VObj (props : list (list N * value)).

(** [HostError] is the rejection of a promise of the host (detector,
    camera, model download). *)
Inductive error : Type := SyntaxError | TypeError | HostError.

(** How a call ends.  [Unmodelled] marks the few paths on which the script
    hands a stored value of unexpected shape to a conversion of the host
    that is not defined here (ToNumber of a string or object, a typed
    array built from something other than an array of numbers).  It also
    stands for a parser out of budget, which is shown below never to
    happen. *)
Inductive result (A : Type) : Type :=
| Ok (a : A)
| Throw (e : error)
| Unmodelled.
Arguments Ok {A} a.
Arguments Throw {A} e.
Arguments Unmodelled {A}.

(** *** [Number::toString] and [JSON.stringify] *)

Definition digit_char (d : N) : N := 48 + d.

Fixpoint uint_digits (u : Decimal.uint) : list N :=
  match u with
  | Decimal.Nil => []
  | Decimal.D0 u => 0 :: uint_digits u
  | Decimal.D1 u => 1 :: uint_digits u
  | Decimal.D2 u => 2 :: uint_digits u
  | Decimal.D3 u => 3 :: uint_digits u
  | Decimal.D4 u => 4 :: uint_digits u
  | Decimal.D5 u => 5 :: uint_digits u
  | Decimal.D6 u => 6 :: uint_digits u
  | Decimal.D7 u => 7 :: uint_digits u
  | Decimal.D8 u => 8 :: uint_digits u
  | Decimal.D9 u => 9 :: uint_digits u
  end.

(** The decimal digits of a natural number, ["0"] for zero. *)
Definition decimal_digits (n : N) : list N := uint_digits (N.to_uint n).

(** The text of a positive finite number with digits [ds] and decimal
    point position [n] (steps 6 to 10 of [Number::toString]). *)
Definition positive_toString (ds : list N) (n : Z) : list N :=
  let k := Z.of_nat (length ds) in
  if ((k <=? n) && (n <=? 21))%Z then
    map digit_char ds ++ repeat 48 (Z.to_nat (n - k))
  else if ((0 <? n) && (n <=? 21))%Z then
    map digit_char (take (Z.to_nat n) ds) ++ [46]
      ++ map digit_char (drop (Z.to_nat n) ds)
  else if ((-6 <? n) && (n <=? 0))%Z then
    [48; 46] ++ repeat 48 (Z.to_nat (- n)) ++ map digit_char ds
  else
    let e := (n - 1)%Z in
    let exponent :=
      [101] ++ (if (e <? 0)%Z then [45] else [43])
        ++ map digit_char (decimal_digits (Z.abs_N e)) in
    match ds with
    | [] => exponent
    | [d] => digit_char d :: exponent
    | d :: rest => digit_char d :: 46 :: map digit_char rest ++ exponent
    end.

Definition number_toString (x : number) : list N :=
  match x with
  | NaN => js "NaN"
  | Infinity negative => if negative then js "-Infinity" else js "Infinity"
  | Zero _ => js "0"
  | Finite negative ds n =>
      (if negative then [45] else []) ++ positive_toString ds n
  end.

Definition hex_char (d : N) : N := if d <? 10 then 48 + d else 87 + d.

(** [UnicodeEscape]: backslash, [u], four lower-case hexadecimal digits. *)
Definition unicode_escape (c : N) : list N :=
  [92; 117; hex_char (c / 4096 mod 16); hex_char (c / 256 mod 16);
   hex_char (c / 16 mod 16); hex_char (c mod 16)].

Definition is_high_surrogate (c : N) : bool := (55296 <=? c) && (c <=? 56319).
Definition is_low_surrogate (c : N) : bool := (56320 <=? c) && (c <=? 57343).

(** The characters between the quotes written by [QuoteJSONString]. *)
Fixpoint quote_chars (s : list N) : list N :=
  match s with
  | [] => []
  | c :: s' =>
      if c =? 8 then 92 :: 98 :: quote_chars s'
      else if c =? 9 then 92 :: 116 :: quote_chars s'
      else if c =? 10 then 92 :: 110 :: quote_chars s'
      else if c =? 12 then 92 :: 102 :: quote_chars s'
      else if c =? 13 then 92 :: 114 :: quote_chars s'
      else if c =? 34 then 92 :: 34 :: quote_chars s'
      else if c =? 92 then 92 :: 92 :: quote_chars s'
      else if c <? 32 then unicode_escape c ++ quote_chars s'
      else if is_high_surrogate c then
        match s' with
        | c' :: s'' =>
            if is_low_surrogate c' then c :: c' :: quote_chars s''
            else unicode_escape c ++ quote_chars s'
        | [] => unicode_escape c
        end
      else if is_low_surrogate c then unicode_escape c ++ quote_chars s'
      else c :: quote_chars s'
  end.

Definition QuoteJSONString (s : list N) : list N :=
  [34] ++ quote_chars s ++ [34].

Fixpoint join_comma (parts : list (list N)) : list N :=
  match parts with
  | [] => []
  | [p] => p
  | p :: parts' => p ++ [44] ++ join_comma parts'
  end.

(** [JSON.stringify(v)] without indentation. *)
Fixpoint JSON_stringify (v : value) : list N :=
  match v with
  | VNull => js "null"
  | VBool b => if b then js "true" else js "false"
  | VNum x =>
      match x with
      | NaN | Infinity _ => js "null"
      | _ => number_toString x
      end
  | VStr s => QuoteJSONString s
  | VArr items => [91] ++ join_comma (map JSON_stringify items) ++ [93]
  | VObj props =>
      [123]
        ++ join_comma
             (map (fun p => QuoteJSONString (fst p) ++ [58] ++ JSON_stringify (snd p))
                props)
        ++ [125]
  end.

(** *** [JSON.parse] *)

Definition is_ws (c : N) : bool :=
  (c =? 9) || (c =? 10) || (c =? 13) || (c =? 32).

Definition is_digit (c : N) : bool := (48 <=? c) && (c <=? 57).

Fixpoint skip_ws (t : list N) : list N :=
  match t with
  | c :: t' => if is_ws c then skip_ws t' else t
  | [] => []
  end.

(** The longest run of decimal digits at the head of [t], as digit values,
    and what follows it. *)
Fixpoint take_digits (t : list N) : list N * list N :=
  match t with
  | c :: t' =>
      if is_digit c
      then let '(ds, rest) := take_digits t' in ((c - 48) :: ds, rest)
      else ([], t)
  | [] => ([], [])
  end.

Fixpoint drop_zeros (ds : list N) : list N :=
  match ds with
  | d :: ds' => if d =? 0 then drop_zeros ds' else ds
  | [] => []
  end.

Definition drop_trailing_zeros (ds : list N) : list N :=
  rev (drop_zeros (rev ds)).

(** Is [0.d1..dk * 10^n] at most [2^-1075] (it rounds to zero), or at
    least [2^1024 - 2^970] (it rounds to an infinity)? *)
Definition underflows (ds : list N) (n : Z) : bool :=
  let m := Z.of_N (digits_value ds) in
  let e := (n - Z.of_nat (length ds))%Z in
  if (0 <=? e)%Z then false else (m * 2 ^ 1075 <=? 10 ^ (- e))%Z.

Definition overflows (ds : list N) (n : Z) : bool :=
  let m := Z.of_N (digits_value ds) in
  let e := (n - Z.of_nat (length ds))%Z in
  let top := (2 ^ 1024 - 2 ^ 970)%Z in
  if (0 <=? e)%Z then (top <=? m * 10 ^ e)%Z else (top * 10 ^ (- e) <=? m)%Z.

(** The Number a literal denotes: sign, digits before and after the point,
    exponent.  Values outside the range of a Number become a zero or an
    infinity; inside the range the literal's own digits are kept (the
    rounding to 53 bits is not modelled: a literal written by
    [Number::toString] needs none). *)
Definition literal_value (negative : bool) (int frac : list N) (exponent : Z)
  : number :=
  let all := int ++ frac in
  let significant := drop_zeros all in
  let ds := drop_trailing_zeros significant in
  let n := (Z.of_nat (length int) + exponent
            - Z.of_nat (length all - length significant))%Z in
  match ds with
  | [] => Zero negative
  | _ =>
      if underflows ds n then Zero negative
      else if overflows ds n then Infinity negative
      else Finite negative ds n
  end.

(** The parts of a JSON number at the head of [t]: an optional minus
    sign, the integer digits (a single 0, or a run not starting with 0),
    an optional fraction, an optional exponent. *)
Definition number_sign (t : list N) : bool * list N :=
  match t with
  | c :: t' => if c =? 45 then (true, t') else (false, t)
  | [] => (false, t)
  end.

Definition number_int (t : list N) : option (list N * list N) :=
  match t with
  | c :: t' =>
      if c =? 48 then Some ([0], t')
      else match take_digits t with
           | ([], _) => None
           | r => Some r
           end
  | [] => None
  end.

Definition number_frac (t : list N) : option (list N * list N) :=
  match t with
  | c :: t' =>
      if c =? 46 then
        match take_digits t' with
        | ([], _) => None
        | r => Some r
        end
      else Some ([], t)
  | [] => Some ([], t)
  end.

Definition number_exp (t : list N) : option (Z * list N) :=
  match t with
  | c :: t' =>
      if (c =? 101) || (c =? 69) then
        let '(minus, t'') :=
          match t' with
          | s :: t'' =>
              if s =? 45 then (true, t'')
              else if s =? 43 then (false, t'')
              else (false, t')
          | [] => (false, t')
          end in
        match take_digits t'' with
        | ([], _) => None
        | (ds, rest) =>
            let e := Z.of_N (digits_value ds) in
            Some ((if minus then - e else e)%Z, rest)
        end
      else Some (0%Z, t)
  | [] => Some (0%Z, t)
  end.

Definition number_body (negative : bool) (t : list N) : option (number * list N) :=
  '(int, t) ← number_int t;
  '(frac, t) ← number_frac t;
  '(e, t) ← number_exp t;
  Some (literal_value negative int frac e, t).

(** A JSON number at the head of [t]. *)
Definition parse_number (t : list N) : option (number * list N) :=
  let '(negative, t) := number_sign t in number_body negative t.

Definition hex_value (c : N) : option N :=
  if (48 <=? c) && (c <=? 57) then Some (c - 48)
  else if (97 <=? c) && (c <=? 102) then Some (c - 87)
  else if (65 <=? c) && (c <=? 70) then Some (c - 55)
  else None.

Definition hex4 (a b c d : N) : option N :=
  match hex_value a, hex_value b, hex_value c, hex_value d with
  | Some a, Some b, Some c, Some d => Some (((a * 16 + b) * 16 + c) * 16 + d)
  | _, _, _, _ => None
  end.

(** The character after a backslash, other than [u]. *)
Definition simple_escape (c : N) : option N :=
  if c =? 34 then Some 34
  else if c =? 92 then Some 92
  else if c =? 47 then Some 47
  else if c =? 98 then Some 8
  else if c =? 102 then Some 12
  else if c =? 110 then Some 10
  else if c =? 114 then Some 13
  else if c =? 116 then Some 9
  else None.

(** A JSON string from just after its opening quote. *)
Fixpoint parse_string (t : list N) : option (list N * list N) :=
  match t with
  | [] => None
  | c :: t' =>
      if c =? 34 then Some ([], t')
      else if c =? 92 then
        match t' with
        | [] => None
        | e :: t'' =>
            if e =? 117 then
              match t'' with
              | h1 :: h2 :: h3 :: h4 :: t5 =>
                  match hex4 h1 h2 h3 h4, parse_string t5 with
                  | Some u, Some (s, rest) => Some (u :: s, rest)
                  | _, _ => None
                  end
              | _ => None
              end
            else
              match simple_escape e, parse_string t'' with
              | Some u, Some (s, rest) => Some (u :: s, rest)
              | _, _ => None
              end
        end
      else if c <? 32 then None
      else
        match parse_string t' with
        | Some (s, rest) => Some (c :: s, rest)
        | None => None
        end
  end.

(** An array index: the decimal form, without a leading zero, of an
    integer below [2^32 - 1]. *)
Definition array_index (k : list N) : option N :=
  match k with
  | [] => None
  | c :: k' =>
      if forallb is_digit k && negb ((c =? 48) && negb (length k' =? 0)%nat) then
        let i := digits_value (map (fun c => c - 48) k) in
        if i <? 2 ^ 32 - 1 then Some i else None
      else None
  end.

Definition key_eqb (a b : list N) : bool := bool_decide (a = b).

Fixpoint has_key (k : list N) (props : list (list N * value)) : bool :=
  match props with
  | [] => false
  | p :: props' => key_eqb k (fst p) || has_key k props'
  end.

Fixpoint replace_value (k : list N) (v : value) (props : list (list N * value))
  : list (list N * value) :=
  match props with
  | [] => []
  | p :: props' =>
      if key_eqb k (fst p) then (k, v) :: props'
      else p :: replace_value k v props'
  end.

(** A new array-index key goes after the smaller indices and before
    everything else. *)
Fixpoint insert_index (i : N) (k : list N) (v : value)
    (props : list (list N * value)) : list (list N * value) :=
  match props with
  | [] => [(k, v)]
  | p :: props' =>
      match array_index (fst p) with
      | Some j => if j <? i then p :: insert_index i k v props'
                  else (k, v) :: props
      | None => (k, v) :: props
      end
  end.

(** [CreateDataProperty] on an ordinary object: an existing key keeps its
    place and takes the new value; a new key is enumerated after the keys
    already there, array indices first in ascending order. *)
Definition define_property (k : list N) (v : value)
    (props : list (list N * value)) : list (list N * value) :=
  if has_key k props then replace_value k v props
  else match array_index k with
       | Some i => insert_index i k v props
       | None => props ++ [(k, v)]
       end.

(** The outcome of a parser: a result and the rest of the text, a syntax
    error, or recursion budget used up. *)
Inductive parsed (A : Type) : Type :=
| Parsed (a : A) (rest : list N)
| Bad
| Exhausted.
Arguments Parsed {A} a rest.
Arguments Bad {A}.
Arguments Exhausted {A}.

Definition literal (word : list N) (v : value) (t : list N) : parsed value :=
  if bool_decide (take (length word) t = word)
  then Parsed v (drop (length word) t)
  else Bad.

(** The elements of an array, from just after ["["] or [","]. *)
Fixpoint parse_elements (parse_value : list N -> parsed value) (budget : nat)
    (acc : list value) (t : list N) : parsed (list value) :=
  match budget with
  | O => Exhausted
  | S budget =>
      match parse_value t with
      | Parsed v rest =>
          match skip_ws rest with
          | c :: rest' =>
              if c =? 44 then parse_elements parse_value budget (acc ++ [v]) rest'
              else if c =? 93 then Parsed (acc ++ [v]) rest'
              else Bad
          | [] => Bad
          end
      | Bad => Bad
      | Exhausted => Exhausted
      end
  end.

(** The members of an object, from just after ["{"] or [","]. *)
Fixpoint parse_members (parse_value : list N -> parsed value) (budget : nat)
    (acc : list (list N * value)) (t : list N) : parsed (list (list N * value)) :=
  match budget with
  | O => Exhausted
  | S budget =>
      match skip_ws t with
      | c :: t1 =>
          if c =? 34 then
            match parse_string t1 with
            | Some (k, t2) =>
                match skip_ws t2 with
                | c2 :: t3 =>
                    if c2 =? 58 then
                      match parse_value t3 with
                      | Parsed v rest =>
                          match skip_ws rest with
                          | c3 :: rest' =>
                              if c3 =? 44 then
                                parse_members parse_value budget
                                  (define_property k v acc) rest'
                              else if c3 =? 125 then
                                Parsed (define_property k v acc) rest'
                              else Bad
                          | [] => Bad
                          end
                      | Bad => Bad
                      | Exhausted => Exhausted
                      end
                    else Bad
                | [] => Bad
                end
            | None => Bad
            end
          else Bad
      | [] => Bad
      end
  end.

(** One JSON value, leading white space skipped. *)
Fixpoint parse_value (budget : nat) (t : list N) : parsed value :=
  match budget with
  | O => Exhausted
  | S budget =>
      match skip_ws t with
      | [] => Bad
      | c :: t' =>
          if c =? 123 then
            match skip_ws t' with
            | c' :: t'' =>
                if c' =? 125 then Parsed (VObj []) t''
                else match parse_members (parse_value budget) budget [] t' with
                     | Parsed props rest => Parsed (VObj props) rest
                     | Bad => Bad
                     | Exhausted => Exhausted
                     end
            | [] => Bad
            end
          else if c =? 91 then
            match skip_ws t' with
            | c' :: t'' =>
                if c' =? 93 then Parsed (VArr []) t''
                else match parse_elements (parse_value budget) budget [] t' with
                     | Parsed items rest => Parsed (VArr items) rest
                     | Bad => Bad
                     | Exhausted => Exhausted
                     end
            | [] => Bad
            end
          else if c =? 34 then
            match parse_string t' with
            | Some (s, rest) => Parsed (VStr s) rest
            | None => Bad
            end
          else if c =? 116 then literal (js "true") (VBool true) (c :: t')
          else if c =? 102 then literal (js "false") (VBool false) (c :: t')
          else if c =? 110 then literal (js "null") VNull (c :: t')
          else
            match parse_number (c :: t') with
            | Some (x, rest) => Parsed (VNum x) rest
            | None => Bad
            end
      end
  end.

(** [JSON.parse(text)]: one value with nothing but white space after
    it.  The budget is more than the text can use up. *)
Definition JSON_parse (text : list N) : result value :=
  match parse_value (S (length text)) text with
  | Parsed v rest =>
      match skip_ws rest with
      | [] => Ok v
      | _ :: _ => Throw SyntaxError
      end
  | Bad => Throw SyntaxError
  | Exhausted => Unmodelled
  end.

(** ** The page state *)

Record State := mkState {
  faceMatcher : option FaceMatcher;       (* null is [None] *)
  monitoring : bool;
  consecutiveNoFace : N;
  ownerAbsent : option bool;              (* window.ownerAbsent; undefined is [None] *)
  isTabVisible : bool;
  document_hidden : bool;                 (* document.hidden *)
  status : list node;                     (* children of #status *)
  alertOverlay_display : string;          (* alertOverlay.style.display *)
  alertAudio_volume : N;                  (* alertAudio.volume *)
  listeners : list listener;              (* listeners of [document] *)
  localStorage : gmap (list N) (list N);
  effects : list effect                   (* host calls, oldest first *)
}.

Definition set_faceMatcher (v : option FaceMatcher) (s : State) : State :=
  mkState v (monitoring s) (consecutiveNoFace s) (ownerAbsent s) (isTabVisible s)
    (document_hidden s) (status s) (alertOverlay_display s) (alertAudio_volume s)
    (listeners s) (localStorage s) (effects s).
Definition set_monitoring (v : bool) (s : State) : State :=
  mkState (faceMatcher s) v (consecutiveNoFace s) (ownerAbsent s) (isTabVisible s)
    (document_hidden s) (status s) (alertOverlay_display s) (alertAudio_volume s)
    (listeners s) (localStorage s) (effects s).
Definition set_consecutiveNoFace (v : N) (s : State) : State :=
  mkState (faceMatcher s) (monitoring s) v (ownerAbsent s) (isTabVisible s)
    (document_hidden s) (status s) (alertOverlay_display s) (alertAudio_volume s)
    (listeners s) (localStorage s) (effects s).
Definition set_ownerAbsent (v : option bool) (s : State) : State :=
  mkState (faceMatcher s) (monitoring s) (consecutiveNoFace s) v (isTabVisible s)
    (document_hidden s) (status s) (alertOverlay_display s) (alertAudio_volume s)
    (listeners s) (localStorage s) (effects s).
Definition set_isTabVisible (v : bool) (s : State) : State :=
  mkState (faceMatcher s) (monitoring s) (consecutiveNoFace s) (ownerAbsent s) v
    (document_hidden s) (status s) (alertOverlay_display s) (alertAudio_volume s)
    (listeners s) (localStorage s) (effects s).
Definition set_document_hidden (v : bool) (s : State) : State :=
  mkState (faceMatcher s) (monitoring s) (consecutiveNoFace s) (ownerAbsent s)
    (isTabVisible s) v (status s) (alertOverlay_display s) (alertAudio_volume s)
    (listeners s) (localStorage s) (effects s).
Definition set_status (v : list node) (s : State) : State :=
  mkState (faceMatcher s) (monitoring s) (consecutiveNoFace s) (ownerAbsent s)
    (isTabVisible s) (document_hidden s) v (alertOverlay_display s)
    (alertAudio_volume s) (listeners s) (localStorage s) (effects s).
Definition set_alertOverlay_display (v : string) (s : State) : State :=
  mkState (faceMatcher s) (monitoring s) (consecutiveNoFace s) (ownerAbsent s)
    (isTabVisible s) (document_hidden s) (status s) v (alertAudio_volume s)
    (listeners s) (localStorage s) (effects s).
Definition set_alertAudio_volume (v : N) (s : State) : State :=
  mkState (faceMatcher s) (monitoring s) (consecutiveNoFace s) (ownerAbsent s)
    (isTabVisible s) (document_hidden s) (status s) (alertOverlay_display s) v
    (listeners s) (localStorage s) (effects s).
Definition set_listeners (v : list listener) (s : State) : State :=
  mkState (faceMatcher s) (monitoring s) (consecutiveNoFace s) (ownerAbsent s)
    (isTabVisible s) (document_hidden s) (status s) (alertOverlay_display s)
    (alertAudio_volume s) v (localStorage s) (effects s).
Definition set_localStorage (v : gmap (list N) (list N)) (s : State) : State :=
  mkState (faceMatcher s) (monitoring s) (consecutiveNoFace s) (ownerAbsent s)
    (isTabVisible s) (document_hidden s) (status s) (alertOverlay_display s)
    (alertAudio_volume s) (listeners s) v (effects s).
Definition set_effects (v : list effect) (s : State) : State :=
  mkState (faceMatcher s) (monitoring s) (consecutiveNoFace s) (ownerAbsent s)
    (isTabVisible s) (document_hidden s) (status s) (alertOverlay_display s)
    (alertAudio_volume s) (listeners s) (localStorage s) v.

(** A call to the host, appended to the log. *)
Definition emit (e : effect) (s : State) : State :=
  set_effects (effects s ++ [e]) s.

(** [status.textContent = t], [status.textContent += t],
    [status.innerHTML = h] and [status.innerHTML += h], the last two with
    the nodes [h] parses to. *)
Definition status_textContent (t : string) : State -> State :=
  set_status [Text t].
Definition status_textContent_append (t : string) (s : State) : State :=
  set_status [Text (String.append (textContent (status s)) t)] s.
Definition status_innerHTML (h : list node) : State -> State :=
  set_status h.
Definition status_innerHTML_append (h : list node) (s : State) : State :=
  set_status (status s ++ h) s.

(** ** The monitoring loop (both files) *)

Definition NO_FACE_THRESHOLD : N := 10.

(** [consecutiveNoFace++]: the counter is a Number, adding one is exact
    below 2^53 and leaves 2^53 where it is. *)
Definition increment (n : N) : N :=
  if n <? 2 ^ 53 then n + 1 else n.

Definition is_owner_label (l : string) : bool :=
  String.eqb l "owner_no_mask" || String.eqb l "owner_mask".

(** The flags [ownerPresent] and [intruderDetected] of one cycle. *)
Record Flags := { ownerPresent : bool; intruderDetected : bool }.

(** The two branches on a best match, in the callback of [forEach]. *)
Definition judge (bestMatch : FaceMatch) (f : Flags) : Flags :=
  if num_ltb (distance bestMatch) num_0_58 && is_owner_label (label bestMatch)
  then {| ownerPresent := true; intruderDetected := intruderDetected f |}
  else if negb (String.eqb (label bestMatch) "unknown")
  then {| ownerPresent := ownerPresent f; intruderDetected := true |}
  else f.

(** The callback of [resizedDetections.forEach]. *)
Definition visit `{FaceApi} (m : option FaceMatcher) (f : Flags) (det : Detection)
  : Flags :=
  match m with
  | Some matcher => judge (findBestMatch matcher (descriptor det)) f
  | None => f
  end.

(** [faceapi.resizeResults] rescales the boxes and keeps the descriptors. *)
Definition resizeResults (detections : list Detection) : list Detection :=
  detections.

Definition no_flags : Flags := {| ownerPresent := false; intruderDetected := false |}.

(** The flags after [resizedDetections.forEach(...)]. *)
Definition frame_flags `{FaceApi} (m : option FaceMatcher)
    (resizedDetections : list Detection) : Flags :=
  fold_left (visit m) resizedDetections no_flags.

(** [monitorLoop] from the point where [await detectFaces()] has delivered
    [detections]. *)
Definition monitorLoop_resume `{FaceApi} (detections : list Detection) (s : State)
  : State :=
  let resizedDetections := resizeResults detections in
  let '(s, f) :=
    if (length detections =? 0)%nat
    then (set_consecutiveNoFace (increment (consecutiveNoFace s)) s, no_flags)
    else (set_consecutiveNoFace 0 s,
          frame_flags (faceMatcher s) resizedDetections) in
  let s := set_ownerAbsent (Some (negb (ownerPresent f))) s in
  let s :=
    if NO_FACE_THRESHOLD <=? consecutiveNoFace s
    then set_ownerAbsent (Some true)
           (status_textContent "顔が長時間検出されません（カメラ確認）" s)
    else if intruderDetected f
    then status_textContent "不審者（登録外の顔）検出！" s
    else if ownerPresent f
    then status_textContent "オーナー確認中..." s
    else status_textContent "オーナー不在" s in
  emit (SetTimeout timer_monitorLoop 50) s.

(** [monitorLoop()] with the outcome of its one [await]: nothing happens
    unless [monitoring] is set; a rejected detection ends the call before
    anything is written. *)
Definition monitorLoop `{FaceApi} (r : awaited (list Detection)) (s : State) : State :=
  if negb (monitoring s) then s
  else match r with
       | Resolved detections => monitorLoop_resume detections (emit DetectFaces s)
       | Rejected _ => emit DetectFaces s
       end.

(** The call [monitorLoop()] up to its [await]. *)
Definition monitorLoop_call (s : State) : State :=
  if negb (monitoring s) then s else emit DetectFaces s.

(** The arrow function registered for 'visibilitychange'. *)
Definition visibility_listener (s : State) : State :=
  set_isTabVisible (negb (document_hidden s)) s.

(** Truthiness of [window.ownerAbsent]. *)
Definition truthy (v : option bool) : bool :=
  match v with Some b => b | None => false end.

(** ** The stored object as a record

    The object the script keeps under 'registeredFaces' when nothing else
    has written to that key: two arrays of descriptors, each descriptor
    the array of numbers [Array.from] made of a [Float32Array]. *)
Record EnrollmentStore := {
  no_mask : list (list number);
  with_mask : list (list number)
}.

(** [Array.from(descriptor)]. *)
Definition descriptor_value (d : list number) : value := VArr (map VNum d).

Definition samples_value (ds : list (list number)) : value :=
  VArr (map descriptor_value ds).

Definition store_value (store : EnrollmentStore) : value :=
  VObj [(js "no_mask", samples_value (no_mask store));
        (js "with_mask", samples_value (with_mask store))].

(** The decimal form of a Number: canonical digits, within the range of a
    Number. *)
Definition is_Number (x : number) : bool :=
  match x with
  | Finite _ ds n => canonical_digits ds && negb (underflows ds n) && negb (overflows ds n)
  | _ => true
  end.

Definition store_numbers (store : EnrollmentStore) : bool :=
  forallb (forallb is_Number) (no_mask store)
  && forallb (forallb is_Number) (with_mask store).

(** What a number comes back as: JSON has no NaN and no infinities and
    writes both zeros as [0]. *)
Definition json_image (x : number) : value :=
  match x with
  | NaN | Infinity _ => VNull
  | Zero _ => VNum (Zero false)
  | Finite _ _ _ => VNum x
  end.

Definition samples_image (ds : list (list number)) : value :=
  VArr (map (fun d => VArr (map json_image d)) ds).

Definition store_image (store : EnrollmentStore) : value :=
  VObj [(js "no_mask", samples_image (no_mask store));
        (js "with_mask", samples_image (with_mask store))].

(** Finite and not the negative zero. *)
Definition plain_number (x : number) : bool :=
  match x with
  | Finite _ _ _ | Zero false => true
  | _ => false
  end.

Definition store_plain (store : EnrollmentStore) : bool :=
  forallb (forallb plain_number) (no_mask store)
  && forallb (forallb plain_number) (with_mask store).

(** ** The enrollment store (both files) *)

Global Instance result_ret : MRet result := fun A a => Ok a.
Global Instance result_bind : MBind result := fun A B f m =>
  match m with
  | Ok a => f a
  | Throw e => Throw e
  | Unmodelled => Unmodelled
  end.

Definition registeredFaces : list N := js "registeredFaces".

(** The literal [{ no_mask: [], with_mask: [] }]. *)
Definition empty_store : value :=
  VObj [(js "no_mask", VArr []); (js "with_mask", VArr [])].

(** ToBoolean on a JSON value. *)
Definition truthy_value (v : value) : bool :=
  match v with
  | VNull => false
  | VBool b => b
  | VNum (Zero _) | VNum NaN => false
  | VNum _ => true
  | VStr [] => false
  | VStr _ => true
  | VArr _ | VObj _ => true
  end.

(** [localStorage.getItem(key)], null being [None]. *)
Definition getItem (key : list N) (ls : gmap (list N) (list N)) : option (list N) :=
  ls !! key.

Definition setItem (key text : list N) (ls : gmap (list N) (list N))
  : gmap (list N) (list N) :=
  <[key := text]> ls.

(** [JSON.parse(localStorage.getItem('registeredFaces'))
     || { no_mask: [], with_mask: [] }]; [JSON.parse] turns its argument
    into a string first, null into ["null"]. *)
Definition read_stored (ls : gmap (list N) (list N)) : result value :=
  let text :=
    match getItem registeredFaces ls with
    | Some text => text
    | None => js "null"
    end in
  parsed ← JSON_parse text;
  mret (if truthy_value parsed then parsed else empty_store).

(** [localStorage.setItem('registeredFaces', JSON.stringify(stored))]. *)
Definition write_stored (stored : value) (ls : gmap (list N) (list N))
  : gmap (list N) (list N) :=
  setItem registeredFaces (JSON_stringify stored) ls.

Fixpoint lookup_prop (k : list N) (props : list (list N * value)) : option value :=
  match props with
  | [] => None
  | p :: props' => if key_eqb k (fst p) then Some (snd p) else lookup_prop k props'
  end.

(** [stored.k] for a truthy [stored] and a key that no prototype has:
    the own property of an object, undefined ([None]) for anything else. *)
Definition member (k : list N) (stored : value) : option value :=
  match stored with
  | VObj props => lookup_prop k props
  | _ => None
  end.

(** [new Float32Array(d)] for an array [d] of numbers; ToNumber takes null
    to 0 and a boolean to 0 or 1.  (The rounding to single precision is the
    identity on what was read out of a [Float32Array] and is not
    modelled.) *)
Definition element_number (v : value) : option number :=
  match v with
  | VNum x => Some x
  | VNull => Some (Zero false)
  | VBool b => Some (if b then Finite false [1] 1 else Zero false)
  | _ => None
  end.

Definition Float32Array_from (d : value) : option Float32Array :=
  match d with
  | VArr items => mapM element_number items
  | _ => None
  end.

(** [x.length > 0] and, when it holds, [x.map(d => new Float32Array(d))];
    no descriptors when it does not hold.  Reading [length] off undefined
    or null throws; a non-empty string has a length but no [map], and so
    has an object whose own [length] is positive. *)
Definition descriptors_of (x : option value) : result (list Float32Array) :=
  match x with
  | None | Some VNull => Throw TypeError
  | Some (VArr items) =>
      match mapM Float32Array_from items with
      | Some ds => Ok ds
      | None => Unmodelled
      end
  | Some (VStr s) => match s with [] => Ok [] | _ :: _ => Throw TypeError end
  | Some (VBool _) | Some (VNum _) => Ok []
  | Some (VObj props) =>
      match lookup_prop (js "length") props with
      | None | Some VNull => Ok []
      | Some (VBool b) => if b then Throw TypeError else Ok []
      | Some (VNum x) => if num_ltb (Zero false) x then Throw TypeError else Ok []
      | Some _ => Unmodelled
      end
  end.

Definition nonempty {A : Type} (l : list A) : bool :=
  match l with [] => false | _ :: _ => true end.

(** The body of [loadFaceMatcher] after [stored] has been read: the value
    assigned to [faceMatcher]. *)
Definition build_matcher (stored : value) : result (option FaceMatcher) :=
  no_mask ← descriptors_of (member (js "no_mask") stored);
  with_mask ← descriptors_of (member (js "with_mask") stored);
  let descriptors :=
    (if nonempty no_mask
     then [{| lfd_label := "owner_no_mask"; lfd_descriptors := no_mask |}]
     else [])
    ++ (if nonempty with_mask
        then [{| lfd_label := "owner_mask"; lfd_descriptors := with_mask |}]
        else []) in
  mret (if nonempty descriptors
        then Some {| labeledDescriptors := descriptors;
                     distanceThreshold := num_0_58 |}
        else None).

(** [loadFaceMatcher()]: how it ends and the state it leaves. *)
Definition loadFaceMatcher (s : State) : result unit * State :=
  match read_stored (localStorage s) ≫= build_matcher with
  | Ok m => (Ok tt, set_faceMatcher m s)
  | Throw e => (Throw e, s)
  | Unmodelled => (Unmodelled, s)
  end.

(** [stored.k.push(descArray)]: only an array has [push]. *)
Definition push_descriptor (k : list N) (descArray : value) (stored : value)
  : result value :=
  match stored with
  | VObj props =>
      match lookup_prop k props with
      | Some (VArr items) =>
          Ok (VObj (replace_value k (VArr (items ++ [descArray])) props))
      | _ => Throw TypeError
      end
  | _ => Throw TypeError
  end.

(** [x.length] as used for the total in the status line. *)
Definition length_of (x : option value) : result N :=
  match x with
  | None | Some VNull => Throw TypeError
  | Some (VArr items) => Ok (N.of_nat (length items))
  | Some _ => Unmodelled
  end.

Definition decimal_string (n : N) : string :=
  string_of_list_ascii (map (fun d => ascii_of_N (digit_char d)) (decimal_digits n)).

Definition enrollment_notice : string := "ちょうど1つの顔を検出してください。".

(** [registerFace(isMasked)] from the point where [await detectFaces()]
    has delivered [detections]. *)
Definition registerFace_resume (isMasked : bool) (detections : list Detection)
    (s : State) : result unit * State :=
  match detections with
  | [d] =>
      let label := if isMasked then js "with_mask" else js "no_mask" in
      let descArray := VArr (map VNum (descriptor d)) in
      match read_stored (localStorage s) ≫= push_descriptor label descArray with
      | Ok stored =>
          let s := set_localStorage (write_stored stored (localStorage s)) s in
          match
            a ← length_of (member (js "no_mask") stored);
            b ← length_of (member (js "with_mask") stored);
            mret (a + b)
          with
          | Ok total =>
              let s :=
                status_textContent
                  (String.append "登録完了！ ("
                     (String.append (if isMasked then "マスクあり" else "マスクなし")
                        (String.append ") 合計: "
                           (String.append (decimal_string total) "枚")))) s in
              loadFaceMatcher s
          | Throw e => (Throw e, s)
          | Unmodelled => (Unmodelled, s)
          end
      | Throw e => (Throw e, s)
      | Unmodelled => (Unmodelled, s)
      end
  | _ => (Ok tt, emit (Alert enrollment_notice) s)
  end.

(** [registerFace(isMasked)] with the outcome of its [await]. *)
Definition registerFace (isMasked : bool) (r : awaited (list Detection)) (s : State)
  : result unit * State :=
  let s := emit DetectFaces s in
  match r with
  | Resolved detections => registerFace_resume isMasked detections s
  | Rejected _ => (Throw HostError, s)
  end.

(** [init()] with the outcomes of loading the models and of starting the
    camera. *)
Definition init (models camera : awaited unit) (s : State) : result unit * State :=
  match models with
  | Rejected _ => (Throw HostError, s)
  | Resolved _ =>
      let s := status_textContent "モデルロード完了！登録してください。" s in
      let s :=
        match camera with
        | Resolved _ => s
        | Rejected message =>
            status_textContent (String.append "カメラエラー: " message) s
        end in
      match loadFaceMatcher s with
      | (Ok _, s) =>
          (Ok tt,
           match faceMatcher s with
           | Some _ => status_textContent "過去登録あり。監視可能（または再登録）。" s
           | None => s
           end)
      | failed => failed
      end
  end.

(** The page once the script has run to its end, before [init] has got
    past its first [await]: the globals at their initial values and the
    one listener the script registers on [document] itself. *)
Definition page_loaded (status0 : list node) (hidden : bool)
    (ls : gmap (list N) (list N)) : State :=
  {| faceMatcher := None; monitoring := false; consecutiveNoFace := 0;
     ownerAbsent := None; isTabVisible := true; document_hidden := hidden;
     status := status0; alertOverlay_display := ""; alertAudio_volume := 1;
     listeners := [("visibilitychange", visibility_fn)];
     localStorage := ls; effects := [] |}.

(** ** What can happen to the page

    The script runs in pieces: a listener runs to its end or to its first
    [await], and what follows an [await] runs when the promise has settled.
    Each constructor is one such piece.  Every interleaving the browser can
    produce is a list of these events (the converse is not claimed: a
    continuation is not tied to the call it continues).  A click on a
    button first runs the button's listener and then reaches [document]. *)
Inductive event : Type :=
| StartClick
| StartResumed (play : awaited unit)
| RegisterClick
| RegisterResumed (isMasked : bool) (r : awaited (list Detection))
| LoopTimer
| LoopResumed (r : awaited (list Detection))
| InputEvent (type : string)
| PlaySettled (r : awaited unit)
| OverlayTimer
| VisibilityChange (hidden : bool)
| InitResumed (models camera : awaited unit).

(** An engine for the examples: it gives every descriptor the same
    answer. *)
Definition constant_engine (answer : FaceMatch) : FaceApi :=
  {| findBestMatch := fun _ _ => answer |}.

(** The condition under which the input handler raises the alarm. *)
Definition alarm_due (s : State) : Prop :=
  ownerAbsent s = Some true /\ isTabVisible s = true.

(** How often [handleInput] is registered on [document] for [type], and
    how often the alert audio has been started. *)
Definition registrations (type : string) (ls : list listener) : nat :=
  length (List.filter (same_listener type handleInput_fn) ls).

Definition plays (es : list effect) : nat :=
  length (List.filter (fun e => bool_decide (e = AudioPlay)) es).

Definition refusal_notice : string := "少なくとも1つ顔を登録してください。".

(** The three registrations at the end of the start handler. *)
Definition add_input_listeners (ls : list listener) : list listener :=
  addEventListener "click" handleInput_fn
    (addEventListener "mousemove" handleInput_fn
       (addEventListener "keydown" handleInput_fn ls)).

Definition remove_input_listeners (ls : list listener) : list listener :=
  removeEventListener "click" handleInput_fn
    (removeEventListener "mousemove" handleInput_fn
       (removeEventListener "keydown" handleInput_fn ls)).

(** ** [script.js]: input handler and start button *)

Module Script.

Definition handleInput (s : State) : State :=
  if truthy (ownerAbsent s) && isTabVisible s then
    let s := status_textContent "警報！ 不正操作検出" s in
    let s := emit AudioRewind s in
    emit AudioPlay s
  else s.

Definition invoke (f : callback) (s : State) : State :=
  match f with
  | handleInput_fn => handleInput s
  | visibility_fn => visibility_listener s
  end.

(** An event of [type] reaching [document]: the listeners registered for
    it at that moment run in order. *)
Definition dispatch (type : string) (s : State) : State :=
  fold_left (fun s f => invoke f s) (callbacks_for type (listeners s)) s.

(** The click listener of the start button. *)
Definition startMonitor_click (s : State) : State :=
  match faceMatcher s with
  | None => emit (Alert refusal_notice) s
  | Some _ =>
      let s := set_monitoring true s in
      let s := status_textContent "監視開始！" s in
      let s := monitorLoop_call s in
      set_listeners (add_input_listeners (listeners s)) s
  end.

Definition step `{FaceApi} (e : event) (s : State) : State :=
  match e with
  | StartClick => dispatch "click" (startMonitor_click s)
  | RegisterClick => dispatch "click" (emit DetectFaces s)
  | RegisterResumed isMasked (Resolved detections) =>
      snd (registerFace_resume isMasked detections s)
  | LoopTimer => monitorLoop_call s
  | LoopResumed (Resolved detections) => monitorLoop_resume detections s
  | InputEvent type => dispatch type s
  | VisibilityChange hidden =>
      dispatch "visibilitychange" (set_document_hidden hidden s)
  | InitResumed models camera => snd (init models camera s)
  | _ => s
  end.

Definition run `{FaceApi} (es : list event) (s : State) : State :=
  fold_left (fun s e => step e s) es s.

End Script.

(** ** [part_000]: input handler and start button *)

Module Revised.

(** '<span style="color:red; ...">警報！ 不正操作検出</span>' *)
Definition alarm_markup : list node :=
  [Element "span"
     "color:red; font-size:32px; font-weight:bold; animation: blink 1s infinite;"
     [Text "警報！ 不正操作検出"]].

(** '<br><small>(音が出ない場合: ...)</small>' *)
Definition no_sound_markup : list node :=
  [Element "br" "" [];
   Element "small" ""
     [Text "(音が出ない場合: ページをクリック → もう一度操作してみて)"]].

(** '<br><span style="color:orange;">音声がブロックされています。...</span>' *)
Definition blocked_markup : list node :=
  [Element "br" "" [];
   Element "span" "color:orange;"
     [Text "音声がブロックされています。もう一度「監視開始」を押すか、ページをクリックしてください。"]].

Definition handleInput (s : State) : State :=
  if truthy (ownerAbsent s) && isTabVisible s then
    let s := status_innerHTML alarm_markup s in
    let s := set_alertOverlay_display "flex" s in
    let s := emit (SetTimeout timer_hideOverlay 5000) s in
    let s := emit AudioRewind s in
    emit AudioPlay s
  else s.

(** The [then] and [catch] callbacks on the promise of [alertAudio.play()]
    in [handleInput]. *)
Definition alertPlay_settled (r : awaited unit) (s : State) : State :=
  match r with
  | Resolved _ => s
  | Rejected _ => status_innerHTML_append no_sound_markup s
  end.

(** The timer set by [handleInput]. *)
Definition hideOverlay (s : State) : State :=
  set_alertOverlay_display "none" s.

Definition invoke (f : callback) (s : State) : State :=
  match f with
  | handleInput_fn => handleInput s
  | visibility_fn => visibility_listener s
  end.

Definition dispatch (type : string) (s : State) : State :=
  fold_left (fun s f => invoke f s) (callbacks_for type (listeners s)) s.

(** The start handler, once the guard has passed, up to
    [await alertAudio.play()]. *)
Definition unlock_call (s : State) : State :=
  let s := emit AudioRewind s in
  let s := set_alertAudio_volume 0 s in
  emit AudioPlay s.

(** The start handler from the point where that promise has settled:
    the rest of the [try] block or the [catch] block, then the start
    itself. *)
Definition unlock_settled (play : awaited unit) (s : State) : State :=
  let s :=
    match play with
    | Resolved _ =>
        let s := emit AudioPause s in
        let s := set_alertAudio_volume 1 s in
        status_textContent_append " (音声OK)" s
    | Rejected _ => status_innerHTML_append blocked_markup s
    end in
  let s := set_monitoring true s in
  let s := status_textContent "監視開始！" s in
  let s := monitorLoop_call s in
  let s := set_listeners (remove_input_listeners (listeners s)) s in
  set_listeners (add_input_listeners (listeners s)) s.

(** The click listener of the start button, with the outcome of its
    [await]. *)
Definition startMonitor_click (play : awaited unit) (s : State) : State :=
  match faceMatcher s with
  | None => emit (Alert refusal_notice) s
  | Some _ => unlock_settled play (unlock_call s)
  end.

(** The start handler up to its [await]. *)
Definition startMonitor_begin (s : State) : State :=
  match faceMatcher s with
  | None => emit (Alert refusal_notice) s
  | Some _ => unlock_call s
  end.

Definition step `{FaceApi} (e : event) (s : State) : State :=
  match e with
  | StartClick => dispatch "click" (startMonitor_begin s)
  | StartResumed play => unlock_settled play s
  | RegisterClick => dispatch "click" (emit DetectFaces s)
  | RegisterResumed isMasked (Resolved detections) =>
      snd (registerFace_resume isMasked detections s)
  | LoopTimer => monitorLoop_call s
  | LoopResumed (Resolved detections) => monitorLoop_resume detections s
  | InputEvent type => dispatch type s
  | PlaySettled r => alertPlay_settled r s
  | OverlayTimer => hideOverlay s
  | VisibilityChange hidden =>
      dispatch "visibilitychange" (set_document_hidden hidden s)
  | InitResumed models camera => snd (init models camera s)
  | _ => s
  end.

Definition run `{FaceApi} (es : list event) (s : State) : State :=
  fold_left (fun s e => step e s) es s.

End Revised.

(** ** Definitions used in the statements and proofs below *)

(** What [loadFaceMatcher] makes of a stored number: [new Float32Array]
    turns the null that a NaN or an infinity came back as into 0. *)
Definition loaded_number (x : number) : number :=
  match x with
  | NaN | Infinity _ | Zero _ => Zero false
  | Finite _ _ _ => x
  end.

(** The matcher built from a stored object of the script's shape. *)
Definition matcher_of (store : EnrollmentStore) : option FaceMatcher :=
  let descriptors :=
    (if nonempty (no_mask store)
     then [{| lfd_label := "owner_no_mask";
              lfd_descriptors := map (map loaded_number) (no_mask store) |}]
     else [])
    ++ (if nonempty (with_mask store)
        then [{| lfd_label := "owner_mask";
                 lfd_descriptors := map (map loaded_number) (with_mask store) |}]
        else []) in
  if nonempty descriptors
  then Some {| labeledDescriptors := descriptors; distanceThreshold := num_0_58 |}
  else None.

(** Modelled from the spec: the answer of the external engine's
    [findBestMatch], the engine (face-api.js) not being part of the
    repository.  The spec has "If the minimum distance exceeds the
    threshold, the external engine reports label unknown"; the engine's
    [FaceMatcher] keeps the best class only at a distance strictly below
    the threshold it was built with, which is what is written here: a
    label other than 'unknown' comes with a distance below the
    threshold. *)
Definition engine_rule (threshold : number) (bm : FaceMatch) : Prop :=
  label bm <> "unknown" -> num_ltb (distance bm) threshold = true.



(** The matcher built from the descriptors of the two lists. *)
Definition matcher_from (unmasked masked : list Float32Array) : option FaceMatcher :=
  let descriptors :=
    (if nonempty unmasked
     then [{| lfd_label := "owner_no_mask"; lfd_descriptors := unmasked |}]
     else [])
    ++ (if nonempty masked
        then [{| lfd_label := "owner_mask"; lfd_descriptors := masked |}]
        else []) in
  if nonempty descriptors
  then Some {| labeledDescriptors := descriptors; distanceThreshold := num_0_58 |}
  else None.

(** The stored object after one more descriptor has been pushed. *)
Definition enroll (isMasked : bool) (d : list number) (store : EnrollmentStore)
  : EnrollmentStore :=
  if isMasked
  then {| no_mask := no_mask store; with_mask := with_mask store ++ [d] |}
  else {| no_mask := no_mask store ++ [d]; with_mask := with_mask store |}.

(** The status line after a registration. *)
Definition enrolled_notice (isMasked : bool) (total : N) : string :=
  String.append "登録完了！ ("
    (String.append (if isMasked then "マスクあり" else "マスクなし")
       (String.append ") 合計: " (String.append (decimal_string total) "枚"))).

(** The text after a run of digits does not go on with a digit. *)
Definition no_digit_ahead (t : list N) : Prop :=
  match t with
  | [] => True
  | c :: _ => is_digit c = false
  end.

(** Where a number may end: not before a digit, a point or an exponent
    mark. *)
Definition number_end (t : list N) : Prop :=
  match t with
  | [] => True
  | c :: _ =>
      is_digit c = false /\ (c =? 46) = false /\ (c =? 101) = false
      /\ (c =? 69) = false
  end.

(** What a literal denotes once its significant digits and the position of
    its point are known. *)
Definition clamp (negative : bool) (ds : list N) (n : Z) : number :=
  if underflows ds n then Zero negative
  else if overflows ds n then Infinity negative
  else Finite negative ds n.

(** A value in an array is followed by a comma or the closing bracket. *)
Definition separator (t : list N) : Prop :=
  exists c t', t = c :: t' /\ (c = 44 \/ c = 93).

(** A text a value can start with: not white space, not a closing
    bracket. *)
Definition value_start (t : list N) : Prop :=
  exists c t', t = c :: t' /\ is_ws c = false /\ c <> 93.

(** A parser that consumes text, and one that does not run out of budget
    on texts of at most a given length. *)
Definition consumes (pv : list N -> parsed value) : Prop :=
  forall t v rest, pv t = Parsed v rest -> (length rest < length t)%nat.

Definition within_budget (pv : list N -> parsed value) (n : nat) : Prop :=
  forall t, (length t <= n)%nat -> pv t <> Exhausted.

(** Examples: a state in which monitoring is on and the matcher holds one
    unmasked sample; an engine answer at distance 0.3; a detection. *)
Definition sample_matcher : FaceMatcher :=
  {| labeledDescriptors :=
       [{| lfd_label := "owner_no_mask"; lfd_descriptors := [[Finite false [5] 0]] |}];
     distanceThreshold := num_0_58 |}.

Definition sample_state : State :=
  set_monitoring true
    (set_faceMatcher (Some sample_matcher) (page_loaded [] false ∅)).

Definition owner_at_0_3 : FaceMatch :=
  {| label := "owner_no_mask"; distance := Finite false [3] 0 |}.

Definition sample_detection : Detection := {| descriptor := [Finite false [5] 0] |}.

(** Examples: a stored object with one unmasked descriptor of 128 finite
    numbers (0.0625, -0.125, 2^-30 = 9.313225746154785e-10, 0, ...), and
    the same with a NaN, a negative infinity and a negative zero in
    front. *)
Definition sample_descriptor : list number :=
  concat (repeat [Finite false [6; 2; 5] (-1); Finite true [1; 2; 5] 0;
                  Finite false [9; 3; 1; 3; 2; 2; 5; 7; 4; 6; 1; 5; 4; 7; 8; 5] (-9);
                  Zero false] 32).

Definition sample_store : EnrollmentStore :=
  {| no_mask := [sample_descriptor]; with_mask := [] |}.

Definition lossy_store : EnrollmentStore :=
  {| no_mask := [NaN :: Infinity true :: Zero true :: skipn 3 sample_descriptor];
     with_mask := [] |}.

(** A page whose storage holds text that is not JSON under the key. *)
Definition broken_page : State :=
  page_loaded [] false {[ registeredFaces := js "{no_mask" ]}.

(** ** Loading the models and starting the camera (both files)

    [loadModels] has one [await], on the three model files together;
    [startCamera] has two inside its [try] block, and its [catch] block
    reports the failure of either in the status line.  (The calls to the
    host made on the way and the size given to the canvas are not part of
    the state.) *)
Definition loadModels (models : awaited unit) (s : State) : result unit * State :=
  match models with
  | Resolved _ => (Ok tt, status_textContent "モデルロード完了！登録してください。" s)
  | Rejected _ => (Throw HostError, s)
  end.

Definition startCamera (media play : awaited unit) (s : State) : State :=
  match media with
  | Rejected message => status_textContent (String.append "カメラエラー: " message) s
  | Resolved _ =>
      match play with
      | Rejected message =>
          status_textContent (String.append "カメラエラー: " message) s
      | Resolved _ => s
      end
  end.

(** How the [try] block of [startCamera] ends. *)
Definition camera_outcome (media play : awaited unit) : awaited unit :=
  match media with
  | Rejected message => Rejected message
  | Resolved _ => play
  end.

(** ** Definitions used in the further statements *)

(** The labels of the classes of a matcher, none for null. *)
Definition class_labels (m : option FaceMatcher) : list string :=
  match m with
  | Some matcher => map lfd_label (labeledDescriptors matcher)
  | None => []
  end.

(** How often [detectFaces] has been called. *)
Definition detections_started (es : list effect) : nat :=
  length (List.filter (fun e => bool_decide (e = DetectFaces)) es).

(** The three event types the start handler registers [handleInput] for. *)
Definition input_types : list string := ["keydown"; "mousemove"; "click"].

(** Kinds of events: a registration that got exactly one face; a piece that
    calls [loadFaceMatcher]; the end of a monitoring cycle; a start whose
    audio was allowed. *)
Definition one_face_registration (e : event) : bool :=
  match e with
  | RegisterResumed _ (Resolved [_]) => true
  | _ => false
  end.

Definition reloads_matcher (e : event) : bool :=
  match e with
  | InitResumed _ _ => true
  | _ => one_face_registration e
  end.

Definition cycle_end (e : event) : bool :=
  match e with
  | LoopResumed (Resolved _) => true
  | _ => false
  end.

Definition audio_unlocked (e : event) : bool :=
  match e with
  | StartResumed (Resolved _) => true
  | _ => false
  end.

(** In the second file the start handler goes on after its [await] only if
    a click got past the guard before: [pending] counts the clicks that
    did and have not gone on yet. *)
Fixpoint starts_answered `{FaceApi} (pending : nat) (es : list event) (s : State)
  : bool :=
  match es with
  | [] => true
  | e :: es' =>
      let s' := Revised.step e s in
      match e with
      | StartClick =>
          starts_answered
            (match faceMatcher s with Some _ => S pending | None => pending end)
            es' s'
      | StartResumed _ =>
          match pending with
          | O => false
          | S pending' => starts_answered pending' es' s'
          end
      | _ => starts_answered pending es' s'
      end
  end.

(** A series of registrations, each with one face in the frame: the
    states it leads through and the stored object it builds. *)
Definition register_all (faces : list (bool * Detection)) (s : State) : State :=
  fold_left (fun s r => snd (registerFace (fst r) (Resolved [snd r]) s)) faces s.

Definition enroll_all (faces : list (bool * Detection)) (store : EnrollmentStore)
  : EnrollmentStore :=
  fold_left (fun store r => enroll (fst r) (descriptor (snd r)) store) faces store.

(** [k] cycles in a row in which no face is detected. *)
Definition empty_frames `{FaceApi} (k : nat) (s : State) : State :=
  Nat.iter k (monitorLoop (Resolved [])) s.

(** The status line at the end of a monitoring cycle. *)
Definition cycle_status (counter : N) (f : Flags) : list node :=
  [Text (if NO_FACE_THRESHOLD <=? counter then "顔が長時間検出されません（カメラ確認）"
         else if intruderDetected f then "不審者（登録外の顔）検出！"
         else if ownerPresent f then "オーナー確認中..."
         else "オーナー不在")].

(** The store as it was, no matcher, monitoring off. *)
Definition locked_out (ls : gmap (list N) (list N)) (s : State) : Prop :=
  localStorage s = ls /\ faceMatcher s = None /\ monitoring s = false.

(** * Properties *)

(** ** The monitoring loop *)

Section Cycle.
Context `{FaceApi}.

Lemma judge_keeps_owner (bm : FaceMatch) (f : Flags) :
  ownerPresent f = true -> ownerPresent (judge bm f) = true.
Proof.
  intros Hf. unfold judge.
  destruct (num_ltb _ _ && is_owner_label _); [reflexivity|].
  destruct (negb _); simpl; assumption.
Qed.

Lemma visit_keeps_owner (m : option FaceMatcher) (f : Flags) (det : Detection) :
  ownerPresent f = true -> ownerPresent (visit m f det) = true.
Proof.
  destruct m as [matcher|]; simpl; [apply judge_keeps_owner | trivial].
Qed.

Lemma fold_keeps_owner (m : option FaceMatcher) (dets : list Detection) :
  forall f, ownerPresent f = true ->
            ownerPresent (fold_left (visit m) dets f) = true.
Proof.
  induction dets as [|det dets IH]; intros f Hf; simpl; [assumption|].
  apply IH, visit_keeps_owner, Hf.
Qed.

(** One owner match anywhere in the frame is enough. *)
Lemma frame_flags_owner (m : FaceMatcher) (dets : list Detection) (det : Detection) :
  In det dets ->
  is_owner_label (label (findBestMatch m (descriptor det))) = true ->
  num_ltb (distance (findBestMatch m (descriptor det))) num_0_58 = true ->
  ownerPresent (frame_flags (Some m) dets) = true.
Proof.
  unfold frame_flags. generalize no_flags.
  induction dets as [|d dets IH]; intros f Hin Hl Hd; [destruct Hin|].
  destruct Hin as [->|Hin]; simpl.
  - apply fold_keeps_owner. unfold judge. rewrite Hd, Hl. reflexivity.
  - apply IH; assumption.
Qed.

(** And nothing else sets the flag. *)
Lemma fold_owner_inv (m : option FaceMatcher) (dets : list Detection) :
  forall f,
    ownerPresent (fold_left (visit m) dets f) = true ->
    ownerPresent f = true
    \/ exists matcher det,
         m = Some matcher /\ In det dets
         /\ is_owner_label (label (findBestMatch matcher (descriptor det))) = true
         /\ num_ltb (distance (findBestMatch matcher (descriptor det))) num_0_58 = true.
Proof.
  induction dets as [|d dets IH]; intros f Hf; [left; exact Hf|].
  simpl in Hf. apply IH in Hf as [Hf | (matcher & det & Hm & Hin & Hl & Hd)].
  - destruct m as [matcher|]; [|left; exact Hf]. simpl in Hf. unfold judge in Hf.
    destruct (num_ltb _ _ && is_owner_label _) eqn:Hc.
    + apply andb_true_iff in Hc as [Hd Hl]. right. exists matcher, d.
      repeat split; auto. left. reflexivity.
    + left. destruct (negb _); exact Hf.
  - right. exists matcher, det. repeat split; auto. right. exact Hin.
Qed.

Lemma frame_flags_owner_inv (m : option FaceMatcher) (dets : list Detection) :
  ownerPresent (frame_flags m dets) = true ->
  exists matcher det,
    m = Some matcher /\ In det dets
    /\ is_owner_label (label (findBestMatch matcher (descriptor det))) = true
    /\ num_ltb (distance (findBestMatch matcher (descriptor det))) num_0_58 = true.
Proof.
  intros Hf. apply fold_owner_inv in Hf as [Hf | Hf]; [discriminate | exact Hf].
Qed.

(** What a cycle that got its detections leaves in the counter and in
    [window.ownerAbsent]. *)
Lemma monitorLoop_resume_counter (detections : list Detection) (s : State) :
  consecutiveNoFace (monitorLoop_resume detections s)
  = match detections with
    | [] => increment (consecutiveNoFace s)
    | _ :: _ => 0
    end.
Proof.
  unfold monitorLoop_resume.
  destruct detections as [|d l]; simpl;
    repeat match goal with |- context [if ?b then _ else _] => destruct b end;
    reflexivity.
Qed.

Lemma monitorLoop_resume_ownerAbsent (detections : list Detection) (s : State) :
  ownerAbsent (monitorLoop_resume detections s)
  = Some (if NO_FACE_THRESHOLD <=? consecutiveNoFace (monitorLoop_resume detections s)
          then true
          else negb (ownerPresent (frame_flags (faceMatcher s) detections))).
Proof.
  rewrite monitorLoop_resume_counter. unfold monitorLoop_resume, resizeResults.
  destruct detections as [|d l].
  - simpl. destruct (NO_FACE_THRESHOLD <=? increment (consecutiveNoFace s));
      reflexivity.
  - generalize (frame_flags (faceMatcher s) (d :: l)). intros [present intruder].
    destruct present, intruder; reflexivity.
Qed.

Lemma monitorLoop_running (detections : list Detection) (s : State) :
  monitoring s = true ->
  monitorLoop (Resolved detections) s
  = monitorLoop_resume detections (emit DetectFaces s).
Proof. intros Hm. unfold monitorLoop. rewrite Hm. reflexivity. Qed.

End Cycle.

(** The verdict is recomputed from scratch: two states with the same
    matcher and the same counter end a cycle on the same frame with the
    same [window.ownerAbsent], whatever it was before. *)
Lemma verdict_recomputed `{FaceApi} (detections : list Detection) (s1 s2 : State) :
  faceMatcher s1 = faceMatcher s2 ->
  consecutiveNoFace s1 = consecutiveNoFace s2 ->
  ownerAbsent (monitorLoop_resume detections s1)
  = ownerAbsent (monitorLoop_resume detections s2).
Proof.
  intros Hm Hc.
  rewrite !monitorLoop_resume_ownerAbsent, !monitorLoop_resume_counter, Hm, Hc.
  reflexivity.
Qed.

(** C2.  In a monitoring cycle that ends with the no-face counter at 10 or
    more, [window.ownerAbsent] ends as true, whatever earlier frames
    matched; in any other cycle it ends as the negation of the
    [ownerPresent] flag of the current frame. *)
Theorem ownerAbsent_verdict `{FaceApi} (detections : list Detection) (s : State) :
  monitoring s = true ->
  let s' := monitorLoop (Resolved detections) s in
  (10 <= consecutiveNoFace s' -> ownerAbsent s' = Some true)
  /\ (consecutiveNoFace s' < 10 ->
      ownerAbsent s'
      = Some (negb (ownerPresent (frame_flags (faceMatcher s) detections)))).
Proof.
  intros Hm s'. subst s'. rewrite monitorLoop_running by assumption.
  rewrite monitorLoop_resume_ownerAbsent. unfold NO_FACE_THRESHOLD. simpl faceMatcher.
  split; intros Hc.
  - apply N.leb_le in Hc. rewrite Hc. reflexivity.
  - apply N.leb_gt in Hc. rewrite Hc. reflexivity.
Qed.

(** C4.  A frame with at least one detection whose best match carries an
    owner label at a distance below 0.58 ends the cycle with
    [window.ownerAbsent] false, whatever the state before the cycle. *)
Theorem owner_match_clears_absence `{FaceApi} (detections : list Detection)
    (s : State) (m : FaceMatcher) (det : Detection) :
  monitoring s = true ->
  faceMatcher s = Some m ->
  In det detections ->
  is_owner_label (label (findBestMatch m (descriptor det))) = true ->
  num_ltb (distance (findBestMatch m (descriptor det))) num_0_58 = true ->
  ownerAbsent (monitorLoop (Resolved detections) s) = Some false.
Proof.
  intros Hm Hf Hin Hl Hd. rewrite monitorLoop_running by assumption.
  rewrite monitorLoop_resume_ownerAbsent, monitorLoop_resume_counter.
  simpl faceMatcher. rewrite Hf.
  rewrite (frame_flags_owner m detections det Hin Hl Hd).
  destruct detections as [|d l]; [destruct Hin|]. reflexivity.
Qed.

(** C5.  A frame with at least one detection resets the no-face counter to
    0, matched or not; the counter goes up only on a frame without
    detections, and then by one. *)
Theorem no_face_counter `{FaceApi} (detections : list Detection) (s : State) :
  monitoring s = true ->
  let s' := monitorLoop (Resolved detections) s in
  (detections <> [] -> consecutiveNoFace s' = 0)
  /\ (consecutiveNoFace s < consecutiveNoFace s' -> detections = [])
  /\ (detections = [] -> consecutiveNoFace s' = increment (consecutiveNoFace s))
  /\ (detections = [] -> consecutiveNoFace s < 2 ^ 53 ->
      consecutiveNoFace s' = consecutiveNoFace s + 1).
Proof.
  intros Hm s'. subst s'. rewrite monitorLoop_running by assumption.
  rewrite monitorLoop_resume_counter. simpl consecutiveNoFace.
  destruct detections as [|d l].
  - repeat split; try congruence.
    intros _ Hlt. unfold increment. apply N.ltb_lt in Hlt. rewrite Hlt. reflexivity.
  - repeat split; try congruence. intros Hlt. lia.
Qed.

Lemma ownerAbsent_verdict_witness :
  let engine := constant_engine owner_at_0_3 in
  let seen := @monitorLoop engine (Resolved [sample_detection]) sample_state in
  let s9 := Nat.iter 9 (@monitorLoop engine (Resolved [])) seen in
  ownerAbsent seen = Some false
  /\ consecutiveNoFace s9 = 9
  /\ consecutiveNoFace (@monitorLoop engine (Resolved []) s9) = 10
  /\ ownerAbsent (@monitorLoop engine (Resolved []) s9) = Some true
  /\ consecutiveNoFace (@monitorLoop engine (Resolved [sample_detection]) s9) = 0
  /\ ownerAbsent (@monitorLoop engine (Resolved [sample_detection]) s9) = Some false.
Proof.
  intros engine seen s9.
  assert (Hm : monitoring s9 = true) by reflexivity.
  destruct (@ownerAbsent_verdict engine [] s9 Hm) as [Hsafe _].
  destruct (@ownerAbsent_verdict engine [sample_detection] s9 Hm) as [_ Hframe].
  split; [reflexivity|]. split; [reflexivity|]. split; [reflexivity|].
  split; [apply Hsafe; vm_compute; discriminate|].
  split; [reflexivity|].
  apply Hframe. reflexivity.
Defined.

Lemma owner_match_clears_absence_witness :
  ownerAbsent
    (@monitorLoop (constant_engine owner_at_0_3) (Resolved [sample_detection])
       sample_state)
  = Some false.
Proof.
  apply (@owner_match_clears_absence (constant_engine owner_at_0_3)
           [sample_detection] sample_state sample_matcher sample_detection);
    [reflexivity | reflexivity | left; reflexivity | reflexivity | reflexivity].
Defined.

Lemma no_face_counter_witness :
  let stranger := {| label := "unknown"; distance := Finite false [9] 0 |} in
  let engine := constant_engine stranger in
  let s3 := Nat.iter 3 (@monitorLoop engine (Resolved [])) sample_state in
  consecutiveNoFace s3 = 3
  /\ ownerPresent (@frame_flags engine (faceMatcher s3) [sample_detection]) = false
  /\ consecutiveNoFace (@monitorLoop engine (Resolved [sample_detection]) s3) = 0
  /\ consecutiveNoFace (@monitorLoop engine (Resolved []) s3) = 4.
Proof.
  intros stranger engine s3.
  assert (Hm : monitoring s3 = true) by reflexivity.
  destruct (@no_face_counter engine [sample_detection] s3 Hm) as (Hreset & _).
  destruct (@no_face_counter engine [] s3 Hm) as (_ & _ & _ & Hup).
  split; [reflexivity|]. split; [reflexivity|].
  split; [apply Hreset; discriminate|].
  apply (Hup eq_refl). reflexivity.
Defined.

(** ** The two branches on a best match *)

Lemma judge_intruder (bm : FaceMatch) (f : Flags) :
  intruderDetected (judge bm f)
  = intruderDetected f
    || (negb (String.eqb (label bm) "unknown")
        && negb (num_ltb (distance bm) num_0_58 && is_owner_label (label bm))).
Proof.
  unfold judge.
  destruct (num_ltb (distance bm) num_0_58 && is_owner_label (label bm)); simpl.
  - rewrite andb_false_r, orb_false_r. reflexivity.
  - rewrite andb_true_r.
    destruct (String.eqb (label bm) "unknown"); simpl.
    + rewrite orb_false_r. reflexivity.
    + rewrite orb_true_r. reflexivity.
Qed.

Lemma owner_label_known (l : string) :
  is_owner_label l = true -> String.eqb l "unknown" = false.
Proof.
  unfold is_owner_label. intros Ho. apply orb_true_iff in Ho.
  destruct Ho as [Ho|Ho]; apply String.eqb_eq in Ho; rewrite Ho; reflexivity.
Qed.

Lemma judge_intruder_engine (bm : FaceMatch) (f : Flags) :
  engine_rule num_0_58 bm ->
  intruderDetected (judge bm f)
  = intruderDetected f
    || (negb (String.eqb (label bm) "unknown") && negb (is_owner_label (label bm))).
Proof.
  intros Hrule. rewrite judge_intruder. f_equal.
  destruct (String.eqb (label bm) "unknown") eqn:Hu; [reflexivity|].
  apply String.eqb_neq in Hu. rewrite (Hrule Hu). reflexivity.
Qed.



(** Over a frame: with every answer as the engine gives it, the flag of
    the cycle is set exactly when some face of the frame has a best match
    that is neither 'unknown' nor an owner. *)
Lemma fold_intruder_engine `{FaceApi} (m : FaceMatcher) (dets : list Detection) :
  forall f,
    (forall det, In det dets ->
       engine_rule num_0_58 (findBestMatch m (descriptor det))) ->
    intruderDetected (fold_left (visit (Some m)) dets f)
    = intruderDetected f
      || existsb (fun det =>
                    negb (String.eqb (label (findBestMatch m (descriptor det)))
                            "unknown")
                    && negb (is_owner_label
                               (label (findBestMatch m (descriptor det)))))
           dets.
Proof.
  induction dets as [|d l IH]; intros f Hall; simpl.
  - rewrite orb_false_r. reflexivity.
  - rewrite IH by (intros det Hin; apply Hall; right; exact Hin).
    rewrite judge_intruder_engine by (apply Hall; left; reflexivity).
    rewrite orb_assoc. reflexivity.
Qed.

Lemma frame_intruder_engine `{FaceApi} (m : FaceMatcher) (dets : list Detection) :
  (forall det, In det dets ->
     engine_rule num_0_58 (findBestMatch m (descriptor det))) ->
  intruderDetected (frame_flags (Some m) dets)
  = existsb (fun det =>
               negb (String.eqb (label (findBestMatch m (descriptor det))) "unknown")
               && negb (is_owner_label (label (findBestMatch m (descriptor det)))))
      dets.
Proof.
  intros Hall. unfold frame_flags. rewrite fold_intruder_engine by exact Hall.
  reflexivity.
Qed.

(** Outside that rule the callback does set the flag on an owner label:
    the second branch tests the label alone.  The engine gives no such
    answer. *)
Example judge_outside_engine_rule :
  let bm := {| label := "owner_no_mask"; distance := Finite false [9] 0 |} in
  ~ engine_rule num_0_58 bm
  /\ intruderDetected (judge bm no_flags) = true.
Proof.
  intros bm. split; [|reflexivity].
  intros Hrule. assert (Hbelow := Hrule ltac:(discriminate)). discriminate Hbelow.
Qed.

(** ** The input handler *)

Lemma app_neq_self {A : Type} (l : list A) (x : A) (l' : list A) : l <> l ++ x :: l'.
Proof.
  intros Heq. apply (f_equal (@length A)) in Heq.
  rewrite length_app in Heq. simpl in Heq. lia.
Qed.

Lemma not_alarm_due (s : State) :
  ~ alarm_due s <-> truthy (ownerAbsent s) && isTabVisible s = false.
Proof.
  unfold alarm_due.
  destruct (ownerAbsent s) as [[|]|], (isTabVisible s); simpl; split;
    try reflexivity; try discriminate; try (intros Hn; exfalso; apply Hn; split; reflexivity);
    intros _ [Ha Hb]; discriminate.
Qed.

Lemma alarm_due_true (s : State) :
  alarm_due s <-> truthy (ownerAbsent s) && isTabVisible s = true.
Proof.
  unfold alarm_due.
  destruct (ownerAbsent s) as [[|]|], (isTabVisible s); simpl; split;
    try reflexivity; try discriminate; try (intros [Ha Hb]; discriminate);
    intros _; split; reflexivity.
Qed.

(** C1.  In both files the input handler raises the alarm (alarm message
    in the status element, the audio rewound and started, and in the
    second file the overlay shown with its timer) if and only if
    [window.ownerAbsent] is true and [isTabVisible] is true; in every other
    state it changes nothing and calls nothing. *)
Theorem handleInput_alarm (s : State) :
  (alarm_due s
   <-> effects (Script.handleInput s) = effects s ++ [AudioRewind; AudioPlay])
  /\ (alarm_due s -> status (Script.handleInput s) = [Text "警報！ 不正操作検出"])
  /\ (~ alarm_due s -> Script.handleInput s = s)
  /\ (alarm_due s
      <-> effects (Revised.handleInput s)
          = effects s ++ [SetTimeout timer_hideOverlay 5000; AudioRewind; AudioPlay])
  /\ (alarm_due s ->
      status (Revised.handleInput s) = Revised.alarm_markup
      /\ alertOverlay_display (Revised.handleInput s) = "flex")
  /\ (~ alarm_due s -> Revised.handleInput s = s).
Proof.
  unfold Script.handleInput, Revised.handleInput.
  destruct (truthy (ownerAbsent s) && isTabVisible s) eqn:Hc.
  - apply alarm_due_true in Hc. simpl. rewrite <- !app_assoc. simpl.
    pose proof Hc as [Ha Hv].
    repeat split; intros; try reflexivity; try assumption; contradiction.
  - apply not_alarm_due in Hc.
    repeat split; intros; try reflexivity; try contradiction;
      exfalso; eapply app_neq_self; eassumption.
Qed.

(** ** The start button *)

(** C8.  A click on the start button while [faceMatcher] is null is
    answered with the refusal notice and nothing else: [monitoring] stays
    false and [monitorLoop] is not called, in both files. *)
Theorem start_refused (s : State) (play : awaited unit) :
  faceMatcher s = None ->
  monitoring s = false ->
  Script.startMonitor_click s = emit (Alert refusal_notice) s
  /\ Revised.startMonitor_click play s = emit (Alert refusal_notice) s
  /\ monitoring (emit (Alert refusal_notice) s) = false
  /\ effects (emit (Alert refusal_notice) s) = effects s ++ [Alert refusal_notice]
  /\ listeners (emit (Alert refusal_notice) s) = listeners s.
Proof.
  intros Hf Hm. unfold Script.startMonitor_click, Revised.startMonitor_click.
  rewrite Hf. simpl. auto.
Qed.

Lemma start_refused_witness :
  Script.startMonitor_click (page_loaded [] false ∅)
  = emit (Alert refusal_notice) (page_loaded [] false ∅)
  /\ Revised.startMonitor_click (Resolved tt) (page_loaded [] false ∅)
     = emit (Alert refusal_notice) (page_loaded [] false ∅)
  /\ monitoring (emit (Alert refusal_notice) (page_loaded [] false ∅)) = false
  /\ effects (emit (Alert refusal_notice) (page_loaded [] false ∅))
     = effects (page_loaded [] false ∅) ++ [Alert refusal_notice]
  /\ listeners (emit (Alert refusal_notice) (page_loaded [] false ∅))
     = listeners (page_loaded [] false ∅).
Proof.
  apply (start_refused (page_loaded [] false ∅) (Resolved tt)); reflexivity.
Defined.

(** C7, where the script departs from it.  With the audio blocked the
    second file does catch the rejection and does go on to start
    monitoring, but the report it appends to the status element is
    replaced by the very next assignment to [status.textContent]: the
    handler ends with the status showing the start message alone (and with
    the audio still muted).  The first file makes no unlock attempt at
    all. *)
Theorem blocked_unlock_report_lost (s : State) (m : FaceMatcher) (reason : string) :
  faceMatcher s = Some m ->
  status (Revised.startMonitor_click (Rejected reason) s) = [Text "監視開始！"]
  /\ monitoring (Revised.startMonitor_click (Rejected reason) s) = true
  /\ alertAudio_volume (Revised.startMonitor_click (Rejected reason) s) = 0
  /\ effects (Revised.startMonitor_click (Rejected reason) s)
     = effects s ++ [AudioRewind; AudioPlay; DetectFaces]
  /\ effects (Script.startMonitor_click s) = effects s ++ [DetectFaces].
Proof.
  intros Hf. unfold Revised.startMonitor_click, Script.startMonitor_click.
  rewrite Hf. simpl. rewrite <- !app_assoc. simpl. auto.
Qed.

Lemma blocked_unlock_report_lost_witness :
  status (Revised.startMonitor_click (Rejected "NotAllowedError") sample_state)
  = [Text "監視開始！"]
  /\ monitoring (Revised.startMonitor_click (Rejected "NotAllowedError") sample_state)
     = true
  /\ alertAudio_volume
       (Revised.startMonitor_click (Rejected "NotAllowedError") sample_state) = 0
  /\ effects (Revised.startMonitor_click (Rejected "NotAllowedError") sample_state)
     = effects sample_state ++ [AudioRewind; AudioPlay; DetectFaces]
  /\ effects (Script.startMonitor_click sample_state)
     = effects sample_state ++ [DetectFaces].
Proof.
  apply (blocked_unlock_report_lost sample_state sample_matcher "NotAllowedError").
  reflexivity.
Defined.

(** The report is there when the [catch] block ends, and gone one
    assignment later. *)
Lemma blocked_report_written_then_replaced (s : State) (reason : string) :
  status (status_innerHTML_append Revised.blocked_markup s)
  = status s ++ Revised.blocked_markup
  /\ status (status_textContent "監視開始！"
               (set_monitoring true
                  (status_innerHTML_append Revised.blocked_markup s)))
     = [Text "監視開始！"].
Proof. split; reflexivity. Qed.

(** With the audio allowed, the second file plays and pauses it once,
    muted, and restores the volume. *)
Lemma unlock_succeeds (s : State) (m : FaceMatcher) :
  faceMatcher s = Some m ->
  effects (Revised.startMonitor_click (Resolved tt) s)
  = effects s ++ [AudioRewind; AudioPlay; AudioPause; DetectFaces]
  /\ alertAudio_volume (Revised.startMonitor_click (Resolved tt) s) = 1
  /\ monitoring (Revised.startMonitor_click (Resolved tt) s) = true.
Proof.
  intros Hf. unfold Revised.startMonitor_click. rewrite Hf. simpl.
  rewrite <- !app_assoc. simpl. auto.
Qed.

(** ** Registrations of the input handler *)

Lemma same_listener_spec (type : string) (f : callback) (l : listener) :
  same_listener type f l = true <-> l = (type, f).
Proof.
  unfold same_listener. destruct l as [t g]. simpl.
  rewrite andb_true_iff, String.eqb_eq, bool_decide_eq_true.
  split; [intros [-> ->]; reflexivity | intros [= -> ->]; auto].
Qed.

Lemma existsb_same_listener (type : string) (f : callback) (ls : list listener) :
  existsb (same_listener type f) ls = true <-> (type, f) ∈ ls.
Proof.
  rewrite existsb_exists, list_elem_of_In. split.
  - intros [l [Hin Hl]]. apply same_listener_spec in Hl. subst l. assumption.
  - intros Hin. exists (type, f). split; [assumption|].
    apply same_listener_spec. reflexivity.
Qed.

Lemma addEventListener_NoDup (type : string) (f : callback) (ls : list listener) :
  NoDup ls -> NoDup (addEventListener type f ls).
Proof.
  intros Hnd. unfold addEventListener.
  destruct (existsb (same_listener type f) ls) eqn:He; [assumption|].
  apply NoDup_app. split; [assumption|]. split.
  - intros l Hin Hl. apply list_elem_of_singleton in Hl. subst l.
    apply existsb_same_listener in Hin. congruence.
  - apply NoDup_singleton.
Qed.

Lemma removeEventListener_subset (type : string) (f : callback) (ls : list listener) :
  forall l, l ∈ removeEventListener type f ls -> l ∈ ls.
Proof.
  induction ls as [|l0 ls IH]; intros l Hin; simpl in *; [assumption|].
  destruct (same_listener type f l0).
  - apply elem_of_cons. right. assumption.
  - apply elem_of_cons in Hin. destruct Hin as [->|Hin].
    + apply elem_of_cons. left. reflexivity.
    + apply elem_of_cons. right. apply IH, Hin.
Qed.

Lemma removeEventListener_NoDup (type : string) (f : callback) (ls : list listener) :
  NoDup ls -> NoDup (removeEventListener type f ls).
Proof.
  induction 1 as [|l0 ls Hnotin Hnd IH]; simpl; [constructor|].
  destruct (same_listener type f l0); [assumption|].
  constructor; [|assumption].
  intros Hin. apply Hnotin. eapply removeEventListener_subset, Hin.
Qed.

Lemma add_input_listeners_NoDup (ls : list listener) :
  NoDup ls -> NoDup (add_input_listeners ls).
Proof. intros Hnd. unfold add_input_listeners. auto using addEventListener_NoDup. Qed.

Lemma remove_input_listeners_NoDup (ls : list listener) :
  NoDup ls -> NoDup (remove_input_listeners ls).
Proof.
  intros Hnd. unfold remove_input_listeners. auto using removeEventListener_NoDup.
Qed.

(** A list without repetition holds a given listener at most once. *)
Lemma registrations_NoDup (type : string) (ls : list listener) :
  NoDup ls -> (registrations type ls <= 1)%nat.
Proof.
  unfold registrations. induction 1 as [|l ls Hnotin Hnd IH]; simpl; [lia|].
  destruct (same_listener type handleInput_fn l) eqn:Hl; [|assumption].
  apply same_listener_spec in Hl. subst l.
  destruct (List.filter (same_listener type handleInput_fn) ls) as [|l rest] eqn:Hfilter;
    [simpl; lia|].
  exfalso. apply Hnotin.
  assert (Hin : In l (List.filter (same_listener type handleInput_fn) ls))
    by (rewrite Hfilter; left; reflexivity).
  apply List.filter_In in Hin as [Hin Hl].
  apply same_listener_spec in Hl. subst l. apply list_elem_of_In. assumption.
Qed.

(** The handlers other than the start button leave the listener list as
    it is. *)
Lemma loadFaceMatcher_listeners (s : State) :
  listeners (snd (loadFaceMatcher s)) = listeners s.
Proof. unfold loadFaceMatcher. repeat case_match; reflexivity. Qed.

Lemma registerFace_resume_listeners (isMasked : bool) (detections : list Detection)
    (s : State) :
  listeners (snd (registerFace_resume isMasked detections s)) = listeners s.
Proof.
  unfold registerFace_resume.
  repeat case_match; try reflexivity; rewrite loadFaceMatcher_listeners; reflexivity.
Qed.

Lemma init_listeners (models camera : awaited unit) (s : State) :
  listeners (snd (init models camera s)) = listeners s.
Proof.
  unfold init. destruct models; [|reflexivity].
  match goal with |- context [loadFaceMatcher ?x] =>
    pose proof (loadFaceMatcher_listeners x) as Hl;
    destruct (loadFaceMatcher x) as [r x'] end.
  simpl in Hl.
  destruct r; simpl; rewrite ?Hl; destruct camera; try reflexivity;
    destruct (faceMatcher x'); simpl; rewrite ?Hl; reflexivity.
Qed.

Lemma monitorLoop_resume_listeners `{FaceApi} (detections : list Detection) (s : State) :
  listeners (monitorLoop_resume detections s) = listeners s.
Proof.
  unfold monitorLoop_resume.
  destruct (length detections =? 0)%nat; simpl;
    repeat match goal with |- context [if ?b then _ else _] => destruct b end;
    reflexivity.
Qed.

Lemma monitorLoop_call_listeners (s : State) :
  listeners (monitorLoop_call s) = listeners s.
Proof. unfold monitorLoop_call. destruct (negb (monitoring s)); reflexivity. Qed.

Lemma count_handleInput_registrations (type : string) (ls : list listener) :
  length (List.filter (fun f => bool_decide (f = handleInput_fn)) (callbacks_for type ls))
  = registrations type ls.
Proof.
  unfold callbacks_for, registrations.
  induction ls as [|[t f] ls IH]; [reflexivity|].
  simpl. unfold same_listener at 1. simpl.
  destruct (String.eqb type t); simpl; [|exact IH].
  destruct f; simpl; [f_equal|]; exact IH.
Qed.

Lemma plays_emit (e : effect) (s : State) :
  plays (effects (emit e s))
  = (plays (effects s) + if bool_decide (e = AudioPlay) then 1 else 0)%nat.
Proof.
  unfold plays, emit. simpl. rewrite List.filter_app, length_app. f_equal.
  simpl. destruct (bool_decide (e = AudioPlay)); reflexivity.
Qed.

Section Dispatch.
Variable invoke : callback -> State -> State.
Hypothesis invoke_listeners : forall f s, listeners (invoke f s) = listeners s.
Hypothesis invoke_plays : forall f s,
  (plays (effects (invoke f s))
   <= plays (effects s) + if bool_decide (f = handleInput_fn) then 1 else 0)%nat.

Lemma fold_invoke_listeners (cbs : list callback) :
  forall s, listeners (fold_left (fun s f => invoke f s) cbs s) = listeners s.
Proof.
  induction cbs as [|f cbs IH]; intros s; simpl; [reflexivity|].
  rewrite IH. apply invoke_listeners.
Qed.

Lemma fold_invoke_plays (cbs : list callback) :
  forall s,
    (plays (effects (fold_left (fun s f => invoke f s) cbs s))
     <= plays (effects s)
        + length (List.filter (fun f => bool_decide (f = handleInput_fn)) cbs))%nat.
Proof.
  induction cbs as [|f cbs IH]; intros s; simpl; [lia|].
  specialize (IH (invoke f s)). pose proof (invoke_plays f s) as Hf.
  destruct (bool_decide (f = handleInput_fn)); simpl; lia.
Qed.
End Dispatch.

Lemma Script_invoke_listeners (f : callback) (s : State) :
  listeners (Script.invoke f s) = listeners s.
Proof.
  destruct f; simpl; [|reflexivity].
  unfold Script.handleInput. destruct (truthy _ && _); reflexivity.
Qed.

Lemma Revised_invoke_listeners (f : callback) (s : State) :
  listeners (Revised.invoke f s) = listeners s.
Proof.
  destruct f; simpl; [|reflexivity].
  unfold Revised.handleInput. destruct (truthy _ && _); reflexivity.
Qed.

Lemma Script_invoke_plays (f : callback) (s : State) :
  (plays (effects (Script.invoke f s))
   <= plays (effects s) + if bool_decide (f = handleInput_fn) then 1 else 0)%nat.
Proof.
  destruct f; simpl; [|lia].
  unfold Script.handleInput. destruct (truthy _ && _); [|lia].
  rewrite !plays_emit. simpl. lia.
Qed.

Lemma Revised_invoke_plays (f : callback) (s : State) :
  (plays (effects (Revised.invoke f s))
   <= plays (effects s) + if bool_decide (f = handleInput_fn) then 1 else 0)%nat.
Proof.
  destruct f; simpl; [|lia].
  unfold Revised.handleInput. destruct (truthy _ && _); [|lia].
  rewrite !plays_emit. simpl. lia.
Qed.

Lemma Script_dispatch_listeners (type : string) (s : State) :
  listeners (Script.dispatch type s) = listeners s.
Proof. apply fold_invoke_listeners, Script_invoke_listeners. Qed.

Lemma Revised_dispatch_listeners (type : string) (s : State) :
  listeners (Revised.dispatch type s) = listeners s.
Proof. apply fold_invoke_listeners, Revised_invoke_listeners. Qed.

(** One event reaching [document] starts the alert audio at most as often
    as [handleInput] is registered for its type. *)
Lemma Script_dispatch_plays (type : string) (s : State) :
  (plays (effects (Script.dispatch type s))
   <= plays (effects s) + registrations type (listeners s))%nat.
Proof.
  rewrite <- count_handleInput_registrations.
  apply fold_invoke_plays, Script_invoke_plays.
Qed.

Lemma Revised_dispatch_plays (type : string) (s : State) :
  (plays (effects (Revised.dispatch type s))
   <= plays (effects s) + registrations type (listeners s))%nat.
Proof.
  rewrite <- count_handleInput_registrations.
  apply fold_invoke_plays, Revised_invoke_plays.
Qed.

(** No piece of either file ever leaves a listener twice in the list. *)
Lemma Script_step_NoDup `{FaceApi} (e : event) (s : State) :
  NoDup (listeners s) -> NoDup (listeners (Script.step e s)).
Proof.
  intros Hnd. destruct e as [| | |? [?|?]| |[?|?]| | | | |]; unfold Script.step;
    rewrite ?Script_dispatch_listeners, ?registerFace_resume_listeners,
      ?monitorLoop_call_listeners, ?monitorLoop_resume_listeners, ?init_listeners;
    try assumption.
  unfold Script.startMonitor_click. destruct (faceMatcher s); [|assumption].
  change (NoDup (add_input_listeners
                   (listeners (monitorLoop_call
                                 (status_textContent "監視開始！" (set_monitoring true s)))))).
  apply add_input_listeners_NoDup.
  rewrite monitorLoop_call_listeners. assumption.
Qed.

Lemma Revised_step_NoDup `{FaceApi} (e : event) (s : State) :
  NoDup (listeners s) -> NoDup (listeners (Revised.step e s)).
Proof.
  intros Hnd. destruct e as [|play| |? [?|?]| |[?|?]| |r| | |]; unfold Revised.step;
    rewrite ?Revised_dispatch_listeners, ?registerFace_resume_listeners,
      ?monitorLoop_call_listeners, ?monitorLoop_resume_listeners, ?init_listeners;
    try assumption.
  - unfold Revised.startMonitor_begin. destruct (faceMatcher s); assumption.
  - unfold Revised.unlock_settled.
    match goal with
    | |- NoDup (listeners (set_listeners (add_input_listeners ?l) _)) =>
        change (NoDup (add_input_listeners l))
    end.
    apply add_input_listeners_NoDup.
    match goal with
    | |- NoDup (listeners (set_listeners (remove_input_listeners ?l) _)) =>
        change (NoDup (remove_input_listeners l))
    end.
    apply remove_input_listeners_NoDup.
    rewrite monitorLoop_call_listeners. destruct play; assumption.
  - destruct r; assumption.
Qed.

Lemma Script_run_NoDup `{FaceApi} (es : list event) :
  forall s, NoDup (listeners s) -> NoDup (listeners (Script.run es s)).
Proof.
  unfold Script.run. induction es as [|e es IH]; intros s Hnd; simpl; [assumption|].
  apply IH, Script_step_NoDup, Hnd.
Qed.

Lemma Revised_run_NoDup `{FaceApi} (es : list event) :
  forall s, NoDup (listeners s) -> NoDup (listeners (Revised.run es s)).
Proof.
  unfold Revised.run. induction es as [|e es IH]; intros s Hnd; simpl; [assumption|].
  apply IH, Revised_step_NoDup, Hnd.
Qed.

(** C10.  Whatever has happened to the page since it was loaded, clicks on
    the start button included and repeated, [handleInput] is registered on
    [document] at most once for any event type, and one event reaching
    [document] starts the alert audio at most once; in both files. *)
Theorem input_handler_registered_once `{FaceApi} (es : list event)
    (status0 : list node) (hidden : bool) (ls : gmap (list N) (list N))
    (type : string) :
  (registrations type (listeners (Script.run es (page_loaded status0 hidden ls))) <= 1
   /\ plays (effects (Script.dispatch type (Script.run es (page_loaded status0 hidden ls))))
      <= plays (effects (Script.run es (page_loaded status0 hidden ls))) + 1
   /\ registrations type (listeners (Revised.run es (page_loaded status0 hidden ls))) <= 1
   /\ plays (effects (Revised.dispatch type (Revised.run es (page_loaded status0 hidden ls))))
      <= plays (effects (Revised.run es (page_loaded status0 hidden ls))) + 1)%nat.
Proof.
  assert (Hnd : NoDup (listeners (page_loaded status0 hidden ls)))
    by (simpl; apply NoDup_singleton).
  pose proof (registrations_NoDup type _ (Script_run_NoDup es _ Hnd)) as H1.
  pose proof (registrations_NoDup type _ (Revised_run_NoDup es _ Hnd)) as H2.
  pose proof (Script_dispatch_plays type (Script.run es (page_loaded status0 hidden ls))).
  pose proof (Revised_dispatch_plays type (Revised.run es (page_loaded status0 hidden ls))).
  repeat split; lia.
Qed.

(** Three clicks on the start button of the first file, which does not
    remove before it adds, still leave one registration per type. *)
Example Script_three_starts :
  listeners
    (@Script.run (constant_engine owner_at_0_3) [StartClick; StartClick; StartClick]
       sample_state)
  = [("visibilitychange", visibility_fn); ("keydown", handleInput_fn);
     ("mousemove", handleInput_fn); ("click", handleInput_fn)].
Proof. reflexivity. Qed.

(** ** Reading back what [JSON.stringify] wrote *)

#[local] Arguments is_digit : simpl never.
#[local] Arguments is_ws : simpl never.
#[local] Arguments digit_char : simpl never.

Lemma is_digit_digit_char (d : N) : d < 10 -> is_digit (digit_char d) = true.
Proof.
  unfold is_digit, digit_char. intros Hd.
  apply andb_true_iff. split; apply N.leb_le; lia.
Qed.

Lemma digit_char_value (d : N) : digit_char d - 48 = d.
Proof. unfold digit_char. lia. Qed.

Lemma take_digits_app (ds rest : list N) :
  Forall (fun d => d < 10) ds ->
  no_digit_ahead rest ->
  take_digits (map digit_char ds ++ rest) = (ds, rest).
Proof.
  intros Hds Hrest. induction Hds as [|d ds Hd _ IH]; cbn [map app take_digits].
  - destruct rest as [|c rest]; [reflexivity|]. cbn [no_digit_ahead] in Hrest.
    cbn [take_digits]. rewrite Hrest. reflexivity.
  - rewrite is_digit_digit_char by assumption. rewrite IH, digit_char_value.
    reflexivity.
Qed.

Lemma digits_value_acc (u : Decimal.uint) (acc : positive) :
  fold_left (fun a d => 10 * a + d) (uint_digits u) (Npos acc)
  = Npos (Pos.of_uint_acc u acc).
Proof.
  revert acc. induction u; intros acc; simpl; try reflexivity;
    rewrite <- IHu; f_equal; lia.
Qed.

Lemma digits_value_uint (u : Decimal.uint) :
  digits_value (uint_digits u) = N.of_uint u.
Proof.
  unfold digits_value, N.of_uint.
  induction u; simpl; try reflexivity; try assumption;
    exact (digits_value_acc u _).
Qed.

Lemma decimal_digits_value (n : N) : digits_value (decimal_digits n) = n.
Proof.
  unfold decimal_digits. rewrite digits_value_uint. apply DecimalN.Unsigned.of_to.
Qed.

Lemma uint_digits_bound (u : Decimal.uint) : Forall (fun d => d < 10) (uint_digits u).
Proof. induction u; simpl; constructor; try assumption; lia. Qed.

Lemma decimal_digits_nonempty (n : N) : decimal_digits n <> [].
Proof.
  unfold decimal_digits. destruct n as [|p]; simpl; [discriminate|].
  pose proof (DecimalPos.Unsigned.to_uint_nonnil p) as Hp.
  destruct (Pos.to_uint p); simpl; congruence.
Qed.

Lemma number_end_no_digit (t : list N) : number_end t -> no_digit_ahead t.
Proof. destruct t as [|c t]; simpl; [trivial | intros [Hd _]; exact Hd]. Qed.

Lemma digit_char_neq (d c : N) : d < 10 -> c < 48 \/ 57 < c -> (digit_char d =? c) = false.
Proof. unfold digit_char. intros Hd Hc. apply N.eqb_neq. lia. Qed.

Lemma number_sign_minus (t : list N) : number_sign (45 :: t) = (true, t).
Proof. reflexivity. Qed.

Lemma number_sign_digit (d : N) (t : list N) :
  d < 10 -> number_sign (digit_char d :: t) = (false, digit_char d :: t).
Proof.
  intros Hd. unfold number_sign. rewrite digit_char_neq by (auto; lia). reflexivity.
Qed.

Lemma number_int_zero (t : list N) : number_int (digit_char 0 :: t) = Some ([0], t).
Proof. reflexivity. Qed.

Lemma number_int_run (d : N) (ds rest : list N) :
  d <> 0 -> Forall (fun d => d < 10) (d :: ds) -> no_digit_ahead rest ->
  number_int (map digit_char (d :: ds) ++ rest) = Some (d :: ds, rest).
Proof.
  intros Hd Hds Hrest. unfold number_int. cbn [map app].
  assert (Hz : (digit_char d =? 48) = false)
    by (unfold digit_char; apply N.eqb_neq; lia).
  rewrite Hz.
  change (digit_char d :: map digit_char ds ++ rest)
    with (map digit_char (d :: ds) ++ rest).
  rewrite take_digits_app by assumption. reflexivity.
Qed.

Lemma number_frac_absent (rest : list N) :
  number_end rest -> number_frac rest = Some ([], rest).
Proof.
  destruct rest as [|c rest]; [reflexivity|]. intros (_ & Hp & _).
  unfold number_frac. rewrite Hp. reflexivity.
Qed.

Lemma number_frac_mark (rest : list N) :
  number_frac (101 :: rest) = Some ([], 101 :: rest).
Proof. reflexivity. Qed.

Lemma number_frac_present (ds rest : list N) :
  ds <> [] -> Forall (fun d => d < 10) ds -> no_digit_ahead rest ->
  number_frac (46 :: map digit_char ds ++ rest) = Some (ds, rest).
Proof.
  intros Hne Hds Hrest. unfold number_frac. change (46 =? 46) with true. cbv iota.
  rewrite take_digits_app by assumption. destruct ds; congruence.
Qed.

Lemma number_exp_absent (rest : list N) :
  number_end rest -> number_exp rest = Some (0%Z, rest).
Proof.
  destruct rest as [|c rest]; [reflexivity|]. intros (_ & _ & He & HE).
  unfold number_exp. rewrite He, HE. reflexivity.
Qed.

Lemma number_exp_present (minus : bool) (ds rest : list N) :
  ds <> [] -> Forall (fun d => d < 10) ds -> no_digit_ahead rest ->
  number_exp (101 :: (if minus then 45 else 43) :: map digit_char ds ++ rest)
  = Some ((if minus then - Z.of_N (digits_value ds)
           else Z.of_N (digits_value ds))%Z, rest).
Proof.
  intros Hne Hds Hrest. unfold number_exp.
  change ((101 =? 101) || (101 =? 69)) with true. cbv iota. destruct minus.
  - change (45 =? 45) with true. cbv iota.
    rewrite take_digits_app by assumption. destruct ds; congruence.
  - change (43 =? 45) with false. change (43 =? 43) with true. cbv iota.
    rewrite take_digits_app by assumption. destruct ds; congruence.
Qed.

(** Zeros in front and behind. *)
Lemma drop_zeros_repeat (j : nat) (ds : list N) :
  drop_zeros (repeat 0 j ++ ds) = drop_zeros ds.
Proof. induction j as [|j IH]; simpl; [reflexivity | exact IH]. Qed.

Lemma drop_zeros_head (d : N) (ds : list N) : d <> 0 -> drop_zeros (d :: ds) = d :: ds.
Proof. intros Hd. simpl. apply N.eqb_neq in Hd. rewrite Hd. reflexivity. Qed.

Lemma canonical_digits_inv (ds : list N) :
  canonical_digits ds = true ->
  Forall (fun d => d < 10) ds
  /\ (exists d ds', ds = d :: ds' /\ d <> 0)
  /\ (exists d ds', rev ds = d :: ds' /\ d <> 0).
Proof.
  unfold canonical_digits. rewrite !andb_true_iff. intros [[Hall Hhd] Hlast].
  split; [|split].
  - apply Forall_forall. intros d Hd. rewrite forallb_forall in Hall.
    apply N.ltb_lt, Hall. apply list_elem_of_In. assumption.
  - destruct ds as [|d ds']; [discriminate|]. exists d, ds'. split; [reflexivity|].
    apply negb_true_iff, N.eqb_neq in Hhd. assumption.
  - destruct (rev ds) as [|d ds']; [discriminate|]. exists d, ds'. split; [reflexivity|].
    apply negb_true_iff, N.eqb_neq in Hlast. assumption.
Qed.

Lemma drop_trailing_zeros_canonical (ds : list N) (j : nat) :
  canonical_digits ds = true -> drop_trailing_zeros (ds ++ repeat 0 j) = ds.
Proof.
  intros Hc. apply canonical_digits_inv in Hc as (_ & _ & (d & ds' & Hrev & Hd)).
  unfold drop_trailing_zeros. rewrite rev_app_distr, rev_repeat, drop_zeros_repeat.
  rewrite Hrev, drop_zeros_head by assumption. rewrite <- Hrev. apply rev_involutive.
Qed.

Lemma literal_value_digits (negative : bool) (int frac : list N) (e : Z)
    (ds : list N) (n : Z) :
  canonical_digits ds = true ->
  drop_zeros (int ++ frac) = ds ++ repeat 0 (length (drop_zeros (int ++ frac)) - length ds) ->
  (Z.of_nat (length int) + e
   - Z.of_nat (length (int ++ frac) - length (drop_zeros (int ++ frac))) = n)%Z ->
  literal_value negative int frac e = clamp negative ds n.
Proof.
  intros Hc Hsig Hn.
  assert (Hds : drop_trailing_zeros (drop_zeros (int ++ frac)) = ds).
  { rewrite Hsig. apply drop_trailing_zeros_canonical, Hc. }
  unfold literal_value, clamp. cbv zeta. rewrite Hds, Hn.
  apply canonical_digits_inv in Hc as (_ & (d & ds' & -> & _) & _). reflexivity.
Qed.

Lemma map_digit_char_zeros (j : nat) : repeat 48 j = map digit_char (repeat 0 j).
Proof. induction j as [|j IH]; simpl; [reflexivity|]. rewrite <- IH. reflexivity. Qed.

Lemma no_digit_ahead_cons (c : N) (t : list N) :
  c < 48 \/ 57 < c -> no_digit_ahead (c :: t).
Proof.
  intros Hc. simpl. unfold is_digit. apply andb_false_iff.
  destruct Hc; [left; apply N.leb_gt | right; apply N.leb_gt]; lia.
Qed.

Lemma Forall_digits_zeros (j : nat) : Forall (fun d => d < 10) (repeat 0 j).
Proof. induction j; simpl; constructor; [lia | assumption]. Qed.

(** The exponent part written by [Number::toString] reads back as the
    exponent. *)
Lemma number_exp_written (e : Z) (rest : list N) :
  no_digit_ahead rest ->
  number_exp (101 :: (if (e <? 0)%Z then [45] else [43])
                ++ map digit_char (decimal_digits (Z.abs_N e)) ++ rest)
  = Some (e, rest).
Proof.
  intros Hrest.
  pose proof (number_exp_present (e <? 0)%Z (decimal_digits (Z.abs_N e)) rest
                (decimal_digits_nonempty _) (uint_digits_bound _) Hrest) as Hp.
  rewrite decimal_digits_value in Hp.
  destruct (Z.ltb_spec e 0) as [Hneg|Hpos]; cbn [app] in *; rewrite Hp; f_equal; f_equal; lia.
Qed.

Lemma number_int_single (d : N) (t : list N) :
  d <> 0 -> d < 10 -> no_digit_ahead t ->
  number_int (digit_char d :: t) = Some ([d], t).
Proof.
  intros Hd Hd10 Ht. apply (number_int_run d [] t); [assumption | | assumption].
  constructor; [assumption | constructor].
Qed.

(** A finite number written by [Number::toString] reads back as itself,
    up to the range of a Number. *)
Lemma number_body_toString (negative : bool) (ds : list N) (n : Z) (rest : list N) :
  canonical_digits ds = true ->
  number_end rest ->
  number_body negative (positive_toString ds n ++ rest)
  = Some (clamp negative ds n, rest).
Proof.
  intros Hc Hrest.
  pose proof (canonical_digits_inv ds Hc) as (Hall & (d & ds' & Hds & Hd) & _).
  pose proof (number_end_no_digit rest Hrest) as Hnd.
  unfold positive_toString, number_body.
  destruct ((Z.of_nat (length ds) <=? n) && (n <=? 21))%Z eqn:H1.
  { (* digits followed by zeros *)
    apply andb_true_iff in H1 as [Hk _]. apply Z.leb_le in Hk.
    rewrite map_digit_char_zeros, <- app_assoc, (app_assoc (map _ _)), <- map_app.
    rewrite Hds at 1. cbn [app].
    rewrite number_int_run;
      [| assumption
       | rewrite app_comm_cons, <- Hds; apply Forall_app; split;
         [assumption | apply Forall_digits_zeros]
       | assumption].
    cbn [mbind option_bind].
    rewrite number_frac_absent by assumption. cbn [mbind option_bind].
    rewrite number_exp_absent by assumption. cbn [mbind option_bind].
    rewrite app_comm_cons, <- Hds. f_equal. f_equal.
    set (zeros := repeat 0 (Z.to_nat (n - Z.of_nat (length ds)))).
    assert (Hz : drop_zeros ((ds ++ zeros) ++ []) = ds ++ zeros).
    { rewrite app_nil_r, Hds. apply drop_zeros_head. assumption. }
    apply literal_value_digits; [assumption | |]; rewrite Hz.
    - f_equal. subst zeros. rewrite length_app, repeat_length.
      replace (length ds + _ - length ds)%nat
        with (Z.to_nat (n - Z.of_nat (length ds))) by lia.
      reflexivity.
    - subst zeros. rewrite app_nil_r, length_app, repeat_length. lia. }
  destruct ((0 <? n) && (n <=? 21))%Z eqn:H2.
  { (* digits with a point inside *)
    apply andb_true_iff in H2 as [Hn Hn21].
    apply Z.ltb_lt in Hn. apply Z.leb_le in Hn21.
    apply andb_false_iff in H1.
    assert (Hlt : (n < Z.of_nat (length ds))%Z)
      by (destruct H1 as [H1|H1]; apply Z.leb_gt in H1; lia).
    clear H1.
    set (j := Z.to_nat n).
    assert (Hj : (0 < j < length ds)%nat) by (subst j; lia).
    assert (Htake : take j ds = d :: take (j - 1) ds').
    { rewrite Hds. destruct j as [|j]; [lia|]. simpl. rewrite Nat.sub_0_r. reflexivity. }
    assert (Hdrop : drop j ds <> []).
    { intros Hnil. apply (f_equal length) in Hnil. rewrite length_drop in Hnil.
      simpl in Hnil. lia. }
    rewrite <- !app_assoc. rewrite Htake.
    rewrite number_int_run;
      [| assumption
       | rewrite <- Htake; apply Forall_take; assumption
       | apply no_digit_ahead_cons; lia].
    cbn [mbind option_bind app].
    rewrite number_frac_present;
      [| assumption | apply Forall_drop; assumption | assumption].
    cbn [mbind option_bind].
    rewrite number_exp_absent by assumption. cbn [mbind option_bind].
    f_equal. f_equal. rewrite <- Htake.
    assert (Hz : drop_zeros (take j ds ++ drop j ds) = ds).
    { rewrite take_drop, Hds. apply drop_zeros_head. assumption. }
    apply literal_value_digits; [assumption | |]; rewrite Hz.
    - rewrite Nat.sub_diag. simpl. rewrite app_nil_r. reflexivity.
    - rewrite take_drop, Nat.sub_diag, length_take. lia. }
  destruct ((-6 <? n) && (n <=? 0))%Z eqn:H3.
  { (* zero, point, zeros, digits *)
    apply andb_true_iff in H3 as [_ Hn]. apply Z.leb_le in Hn.
    set (j := Z.to_nat (- n)).
    rewrite map_digit_char_zeros. rewrite <- !app_assoc.
    rewrite (app_assoc (map digit_char (repeat 0 j))), <- map_app.
    change ([48; 46] ++ map digit_char (repeat 0 j ++ ds) ++ rest)
      with (digit_char 0 :: 46 :: map digit_char (repeat 0 j ++ ds) ++ rest).
    rewrite number_int_zero. cbn [mbind option_bind].
    rewrite number_frac_present;
      [| rewrite Hds; destruct j; discriminate
       | apply Forall_app; split; [apply Forall_digits_zeros | assumption]
       | assumption].
    cbn [mbind option_bind].
    rewrite number_exp_absent by assumption. cbn [mbind option_bind].
    f_equal. f_equal.
    assert (Hz : drop_zeros ([0] ++ repeat 0 j ++ ds) = ds).
    { change ([0] ++ repeat 0 j ++ ds) with (repeat 0 (S j) ++ ds).
      rewrite drop_zeros_repeat, Hds. apply drop_zeros_head. assumption. }
    apply literal_value_digits; [assumption | |].
    - rewrite Hz, Nat.sub_diag. simpl. rewrite app_nil_r. reflexivity.
    - rewrite Hz. rewrite !length_app, repeat_length. simpl. lia. }
  (* exponent form *)
  assert (Hex : forall t,
            no_digit_ahead
              (101 :: (if (n - 1 <? 0)%Z then [45] else [43])
                 ++ map digit_char (decimal_digits (Z.abs_N (n - 1))) ++ t))
    by (intros; apply no_digit_ahead_cons; lia).
  assert (Hd10 : d < 10) by (rewrite Hds in Hall; inversion Hall; assumption).
  cbv zeta. rewrite Hds in *. destruct ds' as [|d2 ds''].
  - cbn [app]. rewrite <- ?app_assoc. cbn [app]. rewrite <- ?app_assoc.
    rewrite (number_int_single d _ Hd Hd10 (Hex rest)).
    cbn [mbind option_bind]. rewrite number_frac_mark. cbn [mbind option_bind].
    rewrite (number_exp_written (n - 1) rest) by assumption. cbn [mbind option_bind].
    f_equal. f_equal.
    assert (Hz : drop_zeros ([d] ++ []) = [d]) by (apply drop_zeros_head; assumption).
    apply literal_value_digits; [assumption | |]; rewrite Hz.
    + reflexivity.
    + simpl. lia.
  - cbn [app]. rewrite <- ?app_assoc. cbn [app]. rewrite <- ?app_assoc.
    rewrite (number_int_single d _ Hd Hd10); [| apply no_digit_ahead_cons; lia].
    cbn [mbind option_bind].
    change (digit_char d2 :: map digit_char ds'' ++ ?t)
      with (map digit_char (d2 :: ds'') ++ t).
    rewrite number_frac_present;
      [| discriminate | inversion Hall; assumption | apply (Hex rest)].
    cbn [mbind option_bind].
    rewrite (number_exp_written (n - 1) rest) by assumption. cbn [mbind option_bind].
    f_equal. f_equal.
    assert (Hz : drop_zeros ([d] ++ d2 :: ds'') = d :: d2 :: ds'')
      by (apply drop_zeros_head; assumption).
    apply literal_value_digits; [assumption | |]; rewrite Hz.
    + rewrite Nat.sub_diag. simpl. rewrite app_nil_r. reflexivity.
    + simpl length. lia.
Qed.

Lemma positive_toString_head (ds : list N) (n : Z) :
  canonical_digits ds = true ->
  exists d t, d < 10 /\ positive_toString ds n = digit_char d :: t.
Proof.
  intros Hc. apply canonical_digits_inv in Hc as (Hall & (d & ds' & -> & _) & _).
  assert (Hd : d < 10) by (inversion Hall; assumption).
  unfold positive_toString.
  destruct ((Z.of_nat (length (d :: ds')) <=? n) && (n <=? 21))%Z;
    [exists d; eexists; split; [assumption | reflexivity]|].
  destruct ((0 <? n) && (n <=? 21))%Z eqn:H2.
  { apply andb_true_iff in H2 as [Hn _]. apply Z.ltb_lt in Hn.
    destruct (Z.to_nat n) as [|j] eqn:Hj; [lia|].
    exists d; eexists; split; [assumption | reflexivity]. }
  destruct ((-6 <? n) && (n <=? 0))%Z; [exists 0; eexists; split; [lia | reflexivity]|].
  cbv zeta. destruct ds'; exists d; eexists; split; try assumption; reflexivity.
Qed.

Lemma parse_number_toString (negative : bool) (ds : list N) (n : Z) (rest : list N) :
  canonical_digits ds = true ->
  number_end rest ->
  parse_number (number_toString (Finite negative ds n) ++ rest)
  = Some (clamp negative ds n, rest).
Proof.
  intros Hc Hrest. unfold parse_number, number_toString.
  destruct negative.
  - cbn [app]. rewrite number_sign_minus. apply number_body_toString; assumption.
  - cbn [app]. destruct (positive_toString_head ds n Hc) as (d & t & Hd & Ht).
    rewrite Ht. cbn [app]. rewrite number_sign_digit by assumption.
    change (digit_char d :: t ++ rest) with ((digit_char d :: t) ++ rest).
    rewrite <- Ht. apply number_body_toString; assumption.
Qed.

Lemma separator_number_end (t : list N) : separator t -> number_end t.
Proof. intros (c & t' & -> & [-> | ->]); repeat split; reflexivity. Qed.

Lemma skip_ws_stop (c : N) (t : list N) : is_ws c = false -> skip_ws (c :: t) = c :: t.
Proof. intros Hc. simpl. rewrite Hc. reflexivity. Qed.

Lemma parse_value_number_start (f : nat) (c : N) (t : list N) :
  c = 45 \/ is_digit c = true ->
  parse_value (S f) (c :: t)
  = match parse_number (c :: t) with
    | Some (x, rest) => Parsed (VNum x) rest
    | None => Bad
    end.
Proof.
  intros Hc.
  assert (Hr : 45 <= c <= 57).
  { destruct Hc as [-> | Hc]; [lia|]. unfold is_digit in Hc.
    apply andb_true_iff in Hc as [H1 H2]. apply N.leb_le in H1, H2. lia. }
  cbn [parse_value]. rewrite skip_ws_stop.
  2:{ unfold is_ws. repeat (apply orb_false_iff; split); apply N.eqb_neq; lia. }
  repeat match goal with
         | |- context [c =? ?k] =>
             let H := fresh in
             assert (H : (c =? k) = false) by (apply N.eqb_neq; lia);
             rewrite H; clear H
         end.
  reflexivity.
Qed.

Lemma parse_value_null (f : nat) (rest : list N) :
  parse_value (S f) (js "null" ++ rest) = Parsed VNull rest.
Proof. reflexivity. Qed.

Lemma clamp_is_Number (negative : bool) (ds : list N) (n : Z) :
  is_Number (Finite negative ds n) = true -> clamp negative ds n = Finite negative ds n.
Proof.
  simpl. rewrite !andb_true_iff, !negb_true_iff. intros [[_ Hu] Ho].
  unfold clamp. rewrite Hu, Ho. reflexivity.
Qed.

(** A number in an array comes back as its image. *)
Lemma parse_value_number (f : nat) (x : number) (rest : list N) :
  is_Number x = true ->
  separator rest ->
  parse_value (S f) (JSON_stringify (VNum x) ++ rest) = Parsed (json_image x) rest.
Proof.
  intros Hx Hrest. pose proof (separator_number_end rest Hrest) as Hend.
  destruct x as [|neg|neg|neg ds n]; try apply parse_value_null.
  - (* a zero *)
    change (JSON_stringify (VNum (Zero neg)) ++ rest) with (digit_char 0 :: rest).
    rewrite parse_value_number_start by (right; reflexivity).
    unfold parse_number. rewrite number_sign_digit by lia.
    unfold number_body. rewrite number_int_zero. cbn [mbind option_bind].
    rewrite number_frac_absent by assumption. cbn [mbind option_bind].
    rewrite number_exp_absent by assumption. reflexivity.
  - (* a finite number *)
    pose proof Hx as Hc. simpl in Hc. rewrite !andb_true_iff in Hc.
    destruct Hc as [[Hc _] _].
    pose proof (parse_number_toString neg ds n rest Hc Hend) as Hp.
    rewrite clamp_is_Number in Hp by assumption.
    change (JSON_stringify (VNum (Finite neg ds n)))
      with (number_toString (Finite neg ds n)).
    destruct (number_toString (Finite neg ds n)) as [|c t] eqn:Ht.
    + exfalso. unfold number_toString in Ht.
      destruct (positive_toString_head ds n Hc) as (d & t & _ & Hd).
      rewrite Hd in Ht. destruct neg; discriminate.
    + cbn [app] in *. rewrite parse_value_number_start, Hp; [reflexivity|].
      unfold number_toString in Ht.
      destruct (positive_toString_head ds n Hc) as (d & t' & Hd10 & Hd).
      rewrite Hd in Ht. destruct neg; cbn [app] in Ht; injection Ht as <- _;
        [left; reflexivity | right; apply is_digit_digit_char; assumption].
Qed.

Lemma join_comma_cons {A : Type} (write : A -> list N) (x y : A) (xs : list A) :
  join_comma (map write (x :: y :: xs))
  = write x ++ 44 :: join_comma (map write (y :: xs)).
Proof. reflexivity. Qed.

Section Elements.
Context {A : Type} (write : A -> list N) (img : A -> value).
Variable pv : list N -> parsed value.

(** The loop over the elements of an array, given that [pv] reads each
    element back. *)
Lemma parse_elements_written (xs : list A) :
  (forall x rest, In x xs -> separator rest ->
                  pv (write x ++ rest) = Parsed (img x) rest) ->
  xs <> [] ->
  forall (budget : nat) (acc : list value) (rest : list N),
    (length xs <= budget)%nat ->
    parse_elements pv budget acc (join_comma (map write xs) ++ 93 :: rest)
    = Parsed (acc ++ map img xs) rest.
Proof.
  induction xs as [|x xs IH]; intros Hpv Hne budget acc rest Hb; [congruence|].
  destruct budget as [|budget]; [simpl in Hb; lia|].
  destruct xs as [|y xs].
  - cbn [map join_comma parse_elements].
    rewrite Hpv; [| left; reflexivity | exists 93, rest; auto].
    reflexivity.
  - rewrite join_comma_cons, <- app_assoc. cbn [app parse_elements].
    rewrite Hpv; [| left; reflexivity | eexists 44, _; auto].
    rewrite skip_ws_stop by reflexivity. change (44 =? 44) with true. cbv iota.
    rewrite IH; [| intros; apply Hpv; [right|]; assumption | discriminate
                 | simpl in *; lia].
    rewrite <- app_assoc. reflexivity.
Qed.
End Elements.

Lemma join_comma_head {A : Type} (write : A -> list N) (x : A) (xs : list A) :
  value_start (write x) -> value_start (join_comma (map write (x :: xs)) ++ [93]).
Proof.
  intros (c & t & Hx & Hc). destruct xs as [|y xs].
  - cbn [map join_comma]. rewrite Hx. eexists c, _. split; [reflexivity | assumption].
  - rewrite join_comma_cons, Hx. eexists c, _. split; [reflexivity | assumption].
Qed.

(** An array written by [JSON.stringify] reads back element by element. *)
Lemma parse_array_written {A : Type} (write : A -> list N) (img : A -> value)
    (f : nat) (xs : list A) (rest : list N) :
  (forall x rest', In x xs -> separator rest' ->
                   parse_value f (write x ++ rest') = Parsed (img x) rest') ->
  (forall x, In x xs -> value_start (write x)) ->
  (length xs <= f)%nat ->
  parse_value (S f) (([91] ++ join_comma (map write xs) ++ [93]) ++ rest)
  = Parsed (VArr (map img xs)) rest.
Proof.
  intros Hpv Hstart Hf. destruct xs as [|x xs]; [reflexivity|].
  destruct (join_comma_head write x xs (Hstart x (or_introl eq_refl)))
    as (c & t & Ht & Hws & Hc).
  rewrite <- !app_assoc. cbn [app parse_value].
  rewrite skip_ws_stop by reflexivity.
  change (91 =? 123) with false. change (91 =? 91) with true. cbv iota.
  assert (Hskip : exists t', skip_ws (join_comma (map write (x :: xs)) ++ 93 :: rest)
                             = c :: t').
  { change (93 :: rest) with ([93] ++ rest). rewrite app_assoc, Ht.
    cbn [app]. rewrite skip_ws_stop by assumption. eauto. }
  destruct Hskip as (t' & ->).
  apply N.eqb_neq in Hc. rewrite Hc.
  rewrite (parse_elements_written write img);
    [reflexivity | assumption | discriminate | assumption].
Qed.

Lemma value_start_number (x : number) :
  is_Number x = true -> value_start (JSON_stringify (VNum x)).
Proof.
  intros Hx. destruct x as [|neg|neg|neg ds n];
    try (eexists _, _; split; [reflexivity | split; [reflexivity | discriminate]]).
  simpl in Hx. rewrite !andb_true_iff in Hx. destruct Hx as [[Hc _] _].
  destruct (positive_toString_head ds n Hc) as (d & t & Hd & Ht).
  change (JSON_stringify (VNum (Finite neg ds n)))
    with ((if neg then [45] else []) ++ positive_toString ds n).
  rewrite Ht. destruct neg; cbn [app].
  - eexists _, _; split; [reflexivity | split; [reflexivity | discriminate]].
  - eexists _, _; split; [reflexivity|]. unfold is_ws, digit_char. split.
    + repeat (apply orb_false_iff; split); apply N.eqb_neq; lia.
    + lia.
Qed.

Lemma stringify_descriptor (d : list number) :
  JSON_stringify (descriptor_value d)
  = [91] ++ join_comma (map (fun x => JSON_stringify (VNum x)) d) ++ [93].
Proof.
  unfold descriptor_value. cbn [JSON_stringify]. rewrite map_map. reflexivity.
Qed.

Lemma stringify_samples (ds : list (list number)) :
  JSON_stringify (samples_value ds)
  = [91] ++ join_comma (map (fun d => JSON_stringify (descriptor_value d)) ds) ++ [93].
Proof.
  unfold samples_value. cbn [JSON_stringify]. rewrite map_map. reflexivity.
Qed.

(** One descriptor. *)
Lemma parse_descriptor (f : nat) (d : list number) (rest : list N) :
  forallb is_Number d = true ->
  (length d <= f)%nat ->
  parse_value (S f) (JSON_stringify (descriptor_value d) ++ rest)
  = Parsed (VArr (map json_image d)) rest.
Proof.
  intros Hd Hf. rewrite stringify_descriptor. rewrite forallb_forall in Hd.
  apply (parse_array_written (fun x => JSON_stringify (VNum x)) json_image);
    [| | assumption].
  - intros x rest' Hin Hsep. destruct f as [|f].
    + destruct d; [destruct Hin | simpl in Hf; lia].
    + apply parse_value_number; auto.
  - intros x Hin. apply value_start_number. auto.
Qed.

(** The descriptors of one mask state. *)
Lemma parse_samples (f : nat) (ds : list (list number)) (rest : list N) :
  forallb (forallb is_Number) ds = true ->
  (length ds <= f)%nat ->
  (forall d, In d ds -> (length d < f)%nat) ->
  parse_value (S f) (JSON_stringify (samples_value ds) ++ rest)
  = Parsed (samples_image ds) rest.
Proof.
  intros Hds Hf Hwide. rewrite stringify_samples. rewrite forallb_forall in Hds.
  apply (parse_array_written (fun d => JSON_stringify (descriptor_value d))
           (fun d => VArr (map json_image d))); [| | assumption].
  - intros d rest' Hin Hsep. specialize (Hwide d Hin).
    destruct f as [|f]; [lia|]. apply parse_descriptor; [auto | lia].
  - intros d Hin. rewrite stringify_descriptor.
    eexists 91, _. split; [reflexivity | split; [reflexivity | discriminate]].
Qed.

(** The text is at least as long as what it holds. *)
Lemma join_comma_length {A : Type} (write : A -> list N) (xs : list A) :
  (forall x, In x xs -> write x <> []) ->
  (length xs <= length (join_comma (map write xs)))%nat
  /\ (forall x, In x xs -> (length (write x) <= length (join_comma (map write xs)))%nat).
Proof.
  induction xs as [|x xs IH]; intros Hne; [split; [simpl; lia | intros x []]|].
  destruct IH as [IH1 IH2]; [intros; apply Hne; right; assumption|].
  assert (Hx : (1 <= length (write x))%nat).
  { specialize (Hne x (or_introl eq_refl)). destruct (write x); [congruence | simpl; lia]. }
  destruct xs as [|y xs].
  - cbn [map join_comma]. split; [simpl; lia|]. intros x' [<-|[]]. lia.
  - rewrite join_comma_cons. rewrite length_app. cbn [length]. split.
    + simpl in IH1 |- *. lia.
    + intros x' [<-|Hin]; [lia|]. specialize (IH2 x' Hin). lia.
Qed.

Lemma stringify_number_nonempty (x : number) :
  is_Number x = true -> JSON_stringify (VNum x) <> [].
Proof.
  intros Hx. destruct (value_start_number x Hx) as (c & t & -> & _). discriminate.
Qed.

Lemma descriptor_length (d : list number) :
  forallb is_Number d = true ->
  (length d + 2 <= length (JSON_stringify (descriptor_value d)))%nat.
Proof.
  intros Hd. rewrite forallb_forall in Hd. rewrite stringify_descriptor.
  rewrite !length_app. cbn [length].
  pose proof (join_comma_length (fun x => JSON_stringify (VNum x)) d) as [H1 _];
    [intros; apply stringify_number_nonempty; auto|]. lia.
Qed.

Lemma samples_length (ds : list (list number)) :
  forallb (forallb is_Number) ds = true ->
  (length ds + 2 <= length (JSON_stringify (samples_value ds)))%nat
  /\ (forall d, In d ds ->
        (length d + 4 <= length (JSON_stringify (samples_value ds)))%nat).
Proof.
  intros Hds. rewrite forallb_forall in Hds. rewrite stringify_samples.
  rewrite !length_app. cbn [length].
  pose proof (join_comma_length (fun d => JSON_stringify (descriptor_value d)) ds)
    as [H1 H2].
  { intros d Hin. rewrite stringify_descriptor. discriminate. }
  split; [lia|]. intros d Hin. specialize (H2 d Hin).
  pose proof (descriptor_length d (Hds d Hin)). lia.
Qed.

Lemma parse_string_no_mask (rest : list N) :
  parse_string (js "no_mask" ++ 34 :: rest) = Some (js "no_mask", rest).
Proof. reflexivity. Qed.

Lemma parse_string_with_mask (rest : list N) :
  parse_string (js "with_mask" ++ 34 :: rest) = Some (js "with_mask", rest).
Proof. reflexivity. Qed.

Lemma stringify_store (store : EnrollmentStore) :
  JSON_stringify (store_value store)
  = 123 :: 34 :: js "no_mask" ++ 34 :: 58 :: JSON_stringify (samples_value (no_mask store))
      ++ 44 :: 34 :: js "with_mask" ++ 34 :: 58
      :: JSON_stringify (samples_value (with_mask store)) ++ [125].
Proof.
  unfold store_value. cbn [JSON_stringify map join_comma fst snd].
  unfold QuoteJSONString.
  change (quote_chars (js "no_mask")) with (js "no_mask").
  change (quote_chars (js "with_mask")) with (js "with_mask").
  rewrite <- !app_assoc. reflexivity.
Qed.

Lemma store_length (store : EnrollmentStore) :
  length (JSON_stringify (store_value store))
  = (25 + length (JSON_stringify (samples_value (no_mask store)))
     + length (JSON_stringify (samples_value (with_mask store))))%nat.
Proof.
  rewrite stringify_store. repeat (rewrite length_app || cbn [length]).
  change (length (js "no_mask")) with 7%nat.
  change (length (js "with_mask")) with 9%nat. lia.
Qed.

(** The two members of the stored object. *)
Lemma parse_two_members (pv : list N -> parsed value) (b : nat)
    (a1 a2 : list N) (v1 v2 : value) (rest : list N) :
  (forall r, pv (a1 ++ r) = Parsed v1 r) ->
  (forall r, pv (a2 ++ r) = Parsed v2 r) ->
  parse_members pv (S (S b)) []
    (34 :: js "no_mask" ++ 34 :: 58 :: a1
       ++ 44 :: 34 :: js "with_mask" ++ 34 :: 58 :: a2 ++ 125 :: rest)
  = Parsed [(js "no_mask", v1); (js "with_mask", v2)] rest.
Proof.
  intros H1 H2.
  cbn [parse_members]. rewrite skip_ws_stop by reflexivity.
  change (34 =? 34) with true. cbv iota.
  rewrite parse_string_no_mask. rewrite skip_ws_stop by reflexivity.
  change (58 =? 58) with true. cbv iota.
  rewrite H1. rewrite skip_ws_stop by reflexivity.
  change (44 =? 44) with true. cbv iota.
  rewrite skip_ws_stop by reflexivity. change (34 =? 34) with true. cbv iota.
  rewrite parse_string_with_mask. rewrite skip_ws_stop by reflexivity.
  change (58 =? 58) with true. cbv iota.
  rewrite H2. rewrite skip_ws_stop by reflexivity.
  change (125 =? 44) with false. change (125 =? 125) with true. cbv iota.
  reflexivity.
Qed.

Lemma parse_value_object (f : nat) (c : N) (t : list N) :
  is_ws c = false -> (c =? 125) = false ->
  parse_value (S f) (123 :: c :: t)
  = match parse_members (parse_value f) f [] (c :: t) with
    | Parsed props rest => Parsed (VObj props) rest
    | Bad => Bad
    | Exhausted => Exhausted
    end.
Proof.
  intros Hws Hc. cbn [parse_value]. rewrite skip_ws_stop by reflexivity.
  change (123 =? 123) with true. cbv iota.
  rewrite skip_ws_stop by assumption. rewrite Hc. reflexivity.
Qed.

Lemma parse_store_members (f : nat) (store : EnrollmentStore) (v1 v2 : value) :
  (forall rest, parse_value f (JSON_stringify (samples_value (no_mask store)) ++ rest)
                = Parsed v1 rest) ->
  (forall rest, parse_value f (JSON_stringify (samples_value (with_mask store)) ++ rest)
                = Parsed v2 rest) ->
  (2 <= f)%nat ->
  parse_value (S f) (JSON_stringify (store_value store))
  = Parsed (VObj [(js "no_mask", v1); (js "with_mask", v2)]) [].
Proof.
  intros H1 H2 Hf. rewrite stringify_store.
  rewrite parse_value_object by reflexivity.
  generalize dependent (parse_value f). intros pv H1 H2.
  destruct f as [|[|b]]; try lia.
  rewrite (parse_two_members pv b _ _ v1 v2 []); [reflexivity | assumption | assumption].
Qed.

(** [JSON.parse(JSON.stringify(stored))] for a stored object of the
    script's shape. *)
Lemma JSON_parse_stringify_store (store : EnrollmentStore) :
  store_numbers store = true ->
  JSON_parse (JSON_stringify (store_value store)) = Ok (store_image store).
Proof.
  intros HS. unfold store_numbers in HS. apply andb_true_iff in HS as [Hn Hw].
  pose proof (samples_length (no_mask store) Hn) as [Ln1 Ln2].
  pose proof (samples_length (with_mask store) Hw) as [Lw1 Lw2].
  pose proof (store_length store) as HL.
  unfold JSON_parse.
  destruct (length (JSON_stringify (store_value store))) as [|f] eqn:Hlen; [lia|].
  rewrite (parse_store_members (S f) store
             (samples_image (no_mask store)) (samples_image (with_mask store)));
    [reflexivity | | | lia].
  - intros rest. apply parse_samples; [assumption | lia |].
    intros d Hin. specialize (Ln2 d Hin). lia.
  - intros rest. apply parse_samples; [assumption | lia |].
    intros d Hin. specialize (Lw2 d Hin). lia.
Qed.

Lemma json_image_plain (x : number) : plain_number x = true -> json_image x = VNum x.
Proof. destruct x as [| |[|]|]; simpl; congruence. Qed.

Lemma samples_image_plain (ds : list (list number)) :
  forallb (forallb plain_number) ds = true -> samples_image ds = samples_value ds.
Proof.
  intros Hds. unfold samples_image, samples_value, descriptor_value. f_equal.
  rewrite forallb_forall in Hds. apply map_ext_in. intros d Hd. f_equal.
  specialize (Hds d Hd). rewrite forallb_forall in Hds.
  apply map_ext_in. intros x Hx. apply json_image_plain. auto.
Qed.

Lemma store_image_plain (store : EnrollmentStore) :
  store_plain store = true -> store_image store = store_value store.
Proof.
  unfold store_plain. rewrite andb_true_iff. intros [Hn Hw].
  unfold store_image, store_value. rewrite !samples_image_plain by assumption.
  reflexivity.
Qed.

(** Saving and loading any stored object of the script's shape: what comes
    back is its image. *)
Lemma read_after_write (store : EnrollmentStore) (ls : gmap (list N) (list N)) :
  store_numbers store = true ->
  read_stored (write_stored (store_value store) ls) = Ok (store_image store).
Proof.
  intros HS. unfold read_stored, write_stored, getItem, setItem.
  rewrite lookup_insert_eq. rewrite JSON_parse_stringify_store by assumption.
  reflexivity.
Qed.

(** C9, as the script has it.  Saving a stored object whose numbers are all
    finite and none of them the negative zero, and loading it again, yields
    the same object.  (A NaN or an infinity comes back as null and a
    negative zero as 0.) *)
Theorem store_round_trip (store : EnrollmentStore) (ls : gmap (list N) (list N)) :
  store_numbers store = true ->
  store_plain store = true ->
  read_stored (write_stored (store_value store) ls) = Ok (store_value store).
Proof.
  intros HS Hplain. rewrite read_after_write by assumption.
  rewrite store_image_plain by assumption. reflexivity.
Qed.

Lemma store_round_trip_witness :
  read_stored (write_stored (store_value sample_store) ∅)
  = Ok (store_value sample_store).
Proof. apply (store_round_trip sample_store ∅); reflexivity. Defined.

(** C9, as claimed, fails: a descriptor of 128 numbers that starts with a
    NaN, a negative infinity and a negative zero comes back starting with
    null, null and 0. *)
Lemma lossy_store_does_not_round_trip :
  length (hd [] (no_mask lossy_store)) = 128%nat
  /\ read_stored (write_stored (store_value lossy_store) ∅)
     = Ok (store_image lossy_store)
  /\ match store_image lossy_store with
     | VObj ((_, VArr (VArr (a :: b :: c :: _) :: _)) :: _) =>
         a = VNull /\ b = VNull /\ c = VNum (Zero false)
     | _ => False
     end
  /\ read_stored (write_stored (store_value lossy_store) ∅)
     <> Ok (store_value lossy_store).
Proof.
  split; [reflexivity|].
  assert (Hr : read_stored (write_stored (store_value lossy_store) ∅)
               = Ok (store_image lossy_store))
    by (apply read_after_write; reflexivity).
  split; [exact Hr|]. split; [simpl; auto|]. rewrite Hr. discriminate.
Qed.


(** ** [JSON.parse] never runs out of budget

    Every parser consumes part of the text it is given, so the budget of
    [JSON_parse], one more than the length of the text, is never used up:
    a text is either parsed or rejected with a SyntaxError. *)

Lemma skip_ws_length (t : list N) : (length (skip_ws t) <= length t)%nat.
Proof.
  induction t as [|c t IH]; simpl; [lia|]. destruct (is_ws c); simpl; lia.
Qed.

Lemma take_digits_length (t ds rest : list N) :
  take_digits t = (ds, rest) -> (length ds + length rest = length t)%nat.
Proof.
  revert ds rest. induction t as [|c t IH]; intros ds rest; simpl.
  - intros [= <- <-]. reflexivity.
  - destruct (is_digit c).
    + destruct (take_digits t) as [ds' rest'] eqn:Ht. intros [= <- <-].
      specialize (IH ds' rest' eq_refl). simpl. lia.
    + intros [= <- <-]. simpl. lia.
Qed.

Lemma number_sign_length (t : list N) :
  (length (snd (number_sign t)) <= length t)%nat.
Proof. destruct t as [|c t]; simpl; [lia|]. destruct (c =? 45); simpl; lia. Qed.

Lemma number_int_length (t int rest : list N) :
  number_int t = Some (int, rest) -> (length rest < length t)%nat.
Proof.
  unfold number_int. destruct t as [|c t]; [discriminate|].
  destruct (c =? 48); [intros [= <- <-]; simpl; lia|].
  destruct (take_digits (c :: t)) as [ds r] eqn:Ht.
  apply take_digits_length in Ht.
  destruct ds as [|d ds]; [discriminate|]. intros [= <- <-]. simpl in *. lia.
Qed.

Lemma number_frac_length (t frac rest : list N) :
  number_frac t = Some (frac, rest) -> (length rest <= length t)%nat.
Proof.
  unfold number_frac. destruct t as [|c t]; [intros [= <- <-]; lia|].
  destruct (c =? 46); [|intros [= <- <-]; lia].
  destruct (take_digits t) as [ds r] eqn:Ht. apply take_digits_length in Ht.
  destruct ds as [|d ds]; [discriminate|]. intros [= <- <-]. simpl in *. lia.
Qed.

Lemma number_exp_length (t : list N) (e : Z) (rest : list N) :
  number_exp t = Some (e, rest) -> (length rest <= length t)%nat.
Proof.
  unfold number_exp. destruct t as [|c t]; [intros [= <- <-]; lia|].
  destruct ((c =? 101) || (c =? 69)); [|intros [= <- <-]; lia].
  assert (Hsign : forall m t'',
            match t with
            | s :: t'' =>
                if s =? 45 then (true, t'')
                else if s =? 43 then (false, t'') else (false, t)
            | [] => (false, t)
            end = (m, t'') -> (length t'' <= length t)%nat).
  { intros m t''. destruct t as [|s t0]; [intros [= <- <-]; lia|].
    destruct (s =? 45); [intros [= <- <-]; simpl; lia|].
    destruct (s =? 43); intros [= <- <-]; simpl; lia. }
  destruct (match t with
            | s :: t'' =>
                if s =? 45 then (true, t'')
                else if s =? 43 then (false, t'') else (false, t)
            | [] => (false, t)
            end) as [minus t''] eqn:Hs.
  specialize (Hsign minus t'' eq_refl).
  destruct (take_digits t'') as [ds r] eqn:Ht. apply take_digits_length in Ht.
  destruct ds as [|d ds]; [discriminate|]. intros [= <- <-]. simpl in *. lia.
Qed.

Lemma parse_number_length (t : list N) (x : number) (rest : list N) :
  parse_number t = Some (x, rest) -> (length rest < length t)%nat.
Proof.
  unfold parse_number, number_body.
  pose proof (number_sign_length t) as Hs.
  destruct (number_sign t) as [neg t0]. simpl in Hs.
  destruct (number_int t0) as [[int t1]|] eqn:H1; [|discriminate].
  apply number_int_length in H1. cbn [mbind option_bind].
  destruct (number_frac t1) as [[frac t2]|] eqn:H2; [|discriminate].
  apply number_frac_length in H2. cbn [mbind option_bind].
  destruct (number_exp t2) as [[e t3]|] eqn:H3; [|discriminate].
  apply number_exp_length in H3. cbn [mbind option_bind].
  intros [= _ <-]. lia.
Qed.

Lemma parse_string_length (t s rest : list N) :
  parse_string t = Some (s, rest) -> (length rest < length t)%nat.
Proof.
  remember (length t) as n eqn:Hn. revert t s rest Hn.
  induction n as [n IH] using lt_wf_ind. intros t s rest ->.
  destruct t as [|c t]; [discriminate|]. cbn [parse_string].
  destruct (c =? 34); [intros [= <- <-]; simpl; lia|].
  destruct (c =? 92).
  - destruct t as [|e t]; [discriminate|].
    destruct (e =? 117).
    + destruct t as [|h1 [|h2 [|h3 [|h4 t5]]]]; try discriminate.
      destruct (hex4 h1 h2 h3 h4); [|discriminate].
      destruct (parse_string t5) as [[s' r']|] eqn:H5; [|discriminate].
      intros [= <- <-].
      pose proof (IH (length t5) ltac:(simpl; lia) t5 s' r' eq_refl H5). simpl. lia.
    + destruct (simple_escape e); [|discriminate].
      destruct (parse_string t) as [[s' r']|] eqn:H5; [|discriminate].
      intros [= <- <-].
      pose proof (IH (length t) ltac:(simpl; lia) t s' r' eq_refl H5). simpl. lia.
  - destruct (c <? 32); [discriminate|].
    destruct (parse_string t) as [[s' r']|] eqn:H5; [|discriminate].
    intros [= <- <-].
    pose proof (IH (length t) ltac:(simpl; lia) t s' r' eq_refl H5). simpl. lia.
Qed.

Lemma literal_length (word : list N) (v v' : value) (t rest : list N) :
  word <> [] ->
  literal word v t = Parsed v' rest -> (length rest < length t)%nat.
Proof.
  intros Hw. unfold literal. case_bool_decide as Ht; [|discriminate].
  intros [= _ <-]. rewrite length_drop.
  apply (f_equal length) in Ht. rewrite length_take in Ht.
  destruct word; [congruence|]. cbn [length] in *. lia.
Qed.

Lemma literal_not_exhausted (word : list N) (v : value) (t : list N) :
  literal word v t <> Exhausted.
Proof. unfold literal. case_bool_decide; discriminate. Qed.

Lemma skip_ws_cons_length (t : list N) (c : N) (t' : list N) :
  skip_ws t = c :: t' -> (length t' < length t)%nat.
Proof.
  intros Hs. pose proof (skip_ws_length t) as Hl. rewrite Hs in Hl. simpl in Hl. lia.
Qed.

Section Loops.
Variable pv : list N -> parsed value.
Hypothesis pv_consumes : consumes pv.

Lemma parse_elements_length (budget : nat) :
  forall acc t items rest,
    parse_elements pv budget acc t = Parsed items rest ->
    (length rest < length t)%nat.
Proof.
  induction budget as [|budget IH]; intros acc t items rest; [discriminate|].
  cbn [parse_elements].
  destruct (pv t) as [v r| |] eqn:Hv; try discriminate.
  apply pv_consumes in Hv.
  destruct (skip_ws r) as [|c r'] eqn:Hs; [discriminate|].
  apply skip_ws_cons_length in Hs.
  destruct (c =? 44).
  - intros Hrec. apply IH in Hrec. lia.
  - destruct (c =? 93); [|discriminate]. intros [= _ <-]. lia.
Qed.

Lemma parse_members_length (budget : nat) :
  forall acc t props rest,
    parse_members pv budget acc t = Parsed props rest ->
    (length rest < length t)%nat.
Proof.
  induction budget as [|budget IH]; intros acc t props rest; [discriminate|].
  cbn [parse_members].
  destruct (skip_ws t) as [|c t1] eqn:Hs1; [discriminate|].
  apply skip_ws_cons_length in Hs1.
  destruct (c =? 34); [|discriminate].
  destruct (parse_string t1) as [[k t2]|] eqn:Hk; [|discriminate].
  apply parse_string_length in Hk.
  destruct (skip_ws t2) as [|c2 t3] eqn:Hs2; [discriminate|].
  apply skip_ws_cons_length in Hs2.
  destruct (c2 =? 58); [|discriminate].
  destruct (pv t3) as [v r| |] eqn:Hv; try discriminate.
  apply pv_consumes in Hv.
  destruct (skip_ws r) as [|c3 r'] eqn:Hs3; [discriminate|].
  apply skip_ws_cons_length in Hs3.
  destruct (c3 =? 44).
  - intros Hrec. apply IH in Hrec. lia.
  - destruct (c3 =? 125); [|discriminate]. intros [= _ <-]. lia.
Qed.

Lemma parse_elements_within (n : nat) :
  within_budget pv n ->
  forall budget acc t,
    (length t <= n)%nat -> (length t < budget)%nat ->
    parse_elements pv budget acc t <> Exhausted.
Proof.
  intros Hpv. induction budget as [|budget IH]; intros acc t Hn Hb; [lia|].
  cbn [parse_elements].
  destruct (pv t) as [v r| |] eqn:Hv; [|discriminate|].
  - apply pv_consumes in Hv.
    destruct (skip_ws r) as [|c r'] eqn:Hs; [discriminate|].
    apply skip_ws_cons_length in Hs.
    destruct (c =? 44); [apply IH; lia|].
    destruct (c =? 93); discriminate.
  - exfalso. exact (Hpv t Hn Hv).
Qed.

Lemma parse_members_within (n : nat) :
  within_budget pv n ->
  forall budget acc t,
    (length t <= n)%nat -> (length t < budget)%nat ->
    parse_members pv budget acc t <> Exhausted.
Proof.
  intros Hpv. induction budget as [|budget IH]; intros acc t Hn Hb; [lia|].
  cbn [parse_members].
  destruct (skip_ws t) as [|c t1] eqn:Hs1; [discriminate|].
  apply skip_ws_cons_length in Hs1.
  destruct (c =? 34); [|discriminate].
  destruct (parse_string t1) as [[k t2]|] eqn:Hk; [|discriminate].
  apply parse_string_length in Hk.
  destruct (skip_ws t2) as [|c2 t3] eqn:Hs2; [discriminate|].
  apply skip_ws_cons_length in Hs2.
  destruct (c2 =? 58); [|discriminate].
  destruct (pv t3) as [v r| |] eqn:Hv; [|discriminate|].
  - apply pv_consumes in Hv.
    destruct (skip_ws r) as [|c3 r'] eqn:Hs3; [discriminate|].
    apply skip_ws_cons_length in Hs3.
    destruct (c3 =? 44); [apply IH; lia|].
    destruct (c3 =? 125); discriminate.
  - exfalso. apply (Hpv t3); [lia | assumption].
Qed.
End Loops.

Lemma parse_value_consumes (budget : nat) : consumes (parse_value budget).
Proof.
  induction budget as [|budget IH]; intros t v rest; [discriminate|].
  cbn [parse_value].
  destruct (skip_ws t) as [|c t'] eqn:Hs; [discriminate|].
  pose proof (skip_ws_length t) as Hl. rewrite Hs in Hl. cbn [length] in Hl.
  destruct (c =? 123).
  { destruct (skip_ws t') as [|c' t''] eqn:Hs'; [discriminate|].
    apply skip_ws_cons_length in Hs'.
    destruct (c' =? 125); [intros [= _ <-]; lia|].
    destruct (parse_members (parse_value budget) budget [] t') as [props r| |] eqn:Hm;
      try discriminate.
    apply (parse_members_length _ IH) in Hm. intros [= _ <-]. lia. }
  destruct (c =? 91).
  { destruct (skip_ws t') as [|c' t''] eqn:Hs'; [discriminate|].
    apply skip_ws_cons_length in Hs'.
    destruct (c' =? 93); [intros [= _ <-]; lia|].
    destruct (parse_elements (parse_value budget) budget [] t') as [items r| |] eqn:Hm;
      try discriminate.
    apply (parse_elements_length _ IH) in Hm. intros [= _ <-]. lia. }
  destruct (c =? 34).
  { destruct (parse_string t') as [[s r]|] eqn:Hk; [|discriminate].
    apply parse_string_length in Hk. intros [= _ <-]. lia. }
  destruct (c =? 116).
  { intros Hlit. apply literal_length in Hlit; [cbn [length] in Hlit; lia | discriminate]. }
  destruct (c =? 102).
  { intros Hlit. apply literal_length in Hlit; [cbn [length] in Hlit; lia | discriminate]. }
  destruct (c =? 110).
  { intros Hlit. apply literal_length in Hlit; [cbn [length] in Hlit; lia | discriminate]. }
  destruct (parse_number (c :: t')) as [[x r]|] eqn:Hn; [|discriminate].
  apply parse_number_length in Hn. cbn [length] in Hn. intros [= _ <-]. lia.
Qed.

Lemma parse_value_within (budget : nat) :
  forall t, (length t < budget)%nat -> parse_value budget t <> Exhausted.
Proof.
  induction budget as [|budget IH]; intros t Hb; [lia|].
  cbn [parse_value].
  destruct (skip_ws t) as [|c t'] eqn:Hs; [discriminate|].
  pose proof (skip_ws_length t) as Hl. rewrite Hs in Hl. cbn [length] in Hl.
  assert (Hsafe : within_budget (parse_value budget) (length t'))
    by (intros t0 Ht0; apply IH; lia).
  destruct (c =? 123).
  { destruct (skip_ws t') as [|c' t''] eqn:Hs'; [discriminate|].
    destruct (c' =? 125); [discriminate|].
    pose proof (parse_members_within _ (parse_value_consumes budget) _ Hsafe
                  budget [] t' (Nat.le_refl _) ltac:(lia)) as Hm.
    destruct (parse_members (parse_value budget) budget [] t'); congruence. }
  destruct (c =? 91).
  { destruct (skip_ws t') as [|c' t''] eqn:Hs'; [discriminate|].
    destruct (c' =? 93); [discriminate|].
    pose proof (parse_elements_within _ (parse_value_consumes budget) _ Hsafe
                  budget [] t' (Nat.le_refl _) ltac:(lia)) as Hm.
    destruct (parse_elements (parse_value budget) budget [] t'); congruence. }
  destruct (c =? 34); [destruct (parse_string t') as [[s r]|]; discriminate|].
  destruct (c =? 116); [apply literal_not_exhausted|].
  destruct (c =? 102); [apply literal_not_exhausted|].
  destruct (c =? 110); [apply literal_not_exhausted|].
  destruct (parse_number (c :: t')) as [[x r]|]; discriminate.
Qed.

(** Every text is either parsed or rejected with a SyntaxError. *)
Theorem JSON_parse_total (text : list N) :
  (exists v, JSON_parse text = Ok v) \/ JSON_parse text = Throw SyntaxError.
Proof.
  unfold JSON_parse.
  pose proof (parse_value_within (S (length text)) text (Nat.lt_succ_diag_r _)) as Hw.
  destruct (parse_value (S (length text)) text) as [v rest| |]; [| right; reflexivity | congruence].
  destruct (skip_ws rest); [left; eauto | right; reflexivity].
Qed.

(** ** Loading the store *)

Lemma mapM_element_number (d : list number) :
  mapM element_number (map json_image d) = Some (map loaded_number d).
Proof.
  induction d as [|x d IH]; [reflexivity|].
  cbn [map]. change (mapM element_number (?v :: ?l))
    with (y ← element_number v; k ← mapM element_number l; mret (y :: k)).
  rewrite IH. destruct x as [| |[|]|]; reflexivity.
Qed.

Lemma mapM_Float32Array_from (ds : list (list number)) :
  mapM Float32Array_from (map (fun d => VArr (map json_image d)) ds)
  = Some (map (map loaded_number) ds).
Proof.
  induction ds as [|d ds IH]; [reflexivity|].
  cbn [map]. change (mapM Float32Array_from (?v :: ?l))
    with (y ← Float32Array_from v; k ← mapM Float32Array_from l; mret (y :: k)).
  rewrite IH. cbn [Float32Array_from]. rewrite mapM_element_number. reflexivity.
Qed.

Lemma build_matcher_store (store : EnrollmentStore) :
  build_matcher (store_image store) = Ok (matcher_of store).
Proof.
  unfold build_matcher, store_image, matcher_of, samples_image.
  change (member (js "no_mask") (VObj ?p)) with (lookup_prop (js "no_mask") p).
  change (member (js "with_mask") (VObj ?p)) with (lookup_prop (js "with_mask") p).
  change (lookup_prop (js "no_mask") [(js "no_mask", ?a); (js "with_mask", ?b)])
    with (Some a).
  change (lookup_prop (js "with_mask") [(js "no_mask", ?a); (js "with_mask", ?b)])
    with (Some b).
  cbn [descriptors_of]. rewrite !mapM_Float32Array_from.
  cbn [mbind result_bind mret result_ret].
  destruct (no_mask store), (with_mask store); reflexivity.
Qed.

Lemma loadFaceMatcher_missing (s : State) :
  getItem registeredFaces (localStorage s) = None ->
  loadFaceMatcher s = (Ok tt, set_faceMatcher None s).
Proof. unfold loadFaceMatcher, read_stored. intros ->. reflexivity. Qed.

Lemma loadFaceMatcher_saved (s : State) (store : EnrollmentStore) :
  store_numbers store = true ->
  getItem registeredFaces (localStorage s) = Some (JSON_stringify (store_value store)) ->
  loadFaceMatcher s = (Ok tt, set_faceMatcher (matcher_of store) s).
Proof.
  unfold loadFaceMatcher, read_stored. intros Hstore ->.
  rewrite JSON_parse_stringify_store by assumption.
  cbn [mbind result_bind mret result_ret truthy_value store_image].
  rewrite (build_matcher_store store). reflexivity.
Qed.









(** A stored object that is JSON but lacks a member does not load
    either. *)
Example incomplete_store_throws :
  fst (loadFaceMatcher (page_loaded [] false {[ registeredFaces := js "{}" ]}))
  = Throw TypeError.
Proof. vm_compute. reflexivity. Qed.

(** Text written by someone else loads when it has both lists, whatever
    else it holds; and a store with one list only, which [registerFace]
    extends and saves as it is, does not load afterwards. *)
Example foreign_store_loads :
  let s := page_loaded [] false
             {[ registeredFaces :=
                  json_text "{'note':'x', 'with_mask':[[0.5, null]], 'no_mask':[]}" ]} in
  loadFaceMatcher s
  = (Ok tt,
     set_faceMatcher
       (matcher_from [] [[Finite false [5] 0; Zero false]]) s).
Proof. vm_compute. reflexivity. Qed.

Example one_list_store_throws :
  let s := page_loaded [] false {[ registeredFaces := json_text "{'with_mask':[]}" ]} in
  let s' := snd (registerFace true (Resolved [sample_detection]) s) in
  getItem registeredFaces (localStorage s')
  = Some (json_text "{'with_mask':[[0.5]]}")
  /\ loadFaceMatcher s' = (Throw TypeError, s').
Proof. vm_compute. split; reflexivity. Qed.

(** ** Registration saves, and the matcher is rebuilt from what was saved *)

Lemma samples_value_snoc (ds : list (list number)) (d : list number) :
  samples_value (ds ++ [d])
  = match samples_value ds with
    | VArr items => VArr (items ++ [descriptor_value d])
    | v => v
    end.
Proof. unfold samples_value. rewrite map_app. reflexivity. Qed.

Lemma push_descriptor_store (isMasked : bool) (d : list number)
    (store : EnrollmentStore) :
  push_descriptor (if isMasked then js "with_mask" else js "no_mask")
    (descriptor_value d) (store_value store)
  = Ok (store_value (enroll isMasked d store)).
Proof.
  destruct store as [nm wm]. unfold enroll, store_value.
  destruct isMasked; cbn [no_mask with_mask]; rewrite samples_value_snoc; reflexivity.
Qed.

Lemma store_numbers_enroll (isMasked : bool) (d : list number)
    (store : EnrollmentStore) :
  store_numbers store = true -> forallb is_Number d = true ->
  store_numbers (enroll isMasked d store) = true.
Proof.
  unfold store_numbers, enroll. rewrite !andb_true_iff. intros [Hn Hw] Hd.
  destruct isMasked; cbn [no_mask with_mask]; rewrite ?forallb_app; cbn [forallb];
    rewrite ?Hn, ?Hw, ?Hd; auto.
Qed.

Lemma registered_total (store : EnrollmentStore) :
  (a ← length_of (member (js "no_mask") (store_value store));
   b ← length_of (member (js "with_mask") (store_value store));
   mret (a + b))
  = Ok (N.of_nat (length (no_mask store)) + N.of_nat (length (with_mask store))).
Proof.
  unfold store_value, samples_value.
  change (member (js "no_mask") (VObj [(js "no_mask", ?a); (js "with_mask", ?b)]))
    with (Some a).
  change (member (js "with_mask") (VObj [(js "no_mask", ?a); (js "with_mask", ?b)]))
    with (Some b).
  cbn [length_of mbind result_bind mret result_ret]. rewrite !length_map. reflexivity.
Qed.

(** One face in the frame and a stored object of the script's shape: the
    descriptor is appended and saved, the status line shows the new total,
    and [faceMatcher] becomes the matcher of what was saved. *)
Lemma registerFace_saves_and_reloads (isMasked : bool) (det : Detection)
    (store : EnrollmentStore) (s : State) :
  store_numbers store = true ->
  forallb is_Number (descriptor det) = true ->
  read_stored (localStorage s) = Ok (store_value store) ->
  let store' := enroll isMasked (descriptor det) store in
  registerFace_resume isMasked [det] s
  = (Ok tt,
     set_faceMatcher (matcher_of store')
       (status_textContent
          (enrolled_notice isMasked
             (N.of_nat (length (no_mask store')) + N.of_nat (length (with_mask store'))))
          (set_localStorage (write_stored (store_value store') (localStorage s)) s))).
Proof.
  intros Hstore Hdet Hread store'. unfold registerFace_resume.
  rewrite Hread. cbn [mbind result_bind].
  change (VArr (map VNum (descriptor det))) with (descriptor_value (descriptor det)).
  rewrite push_descriptor_store. fold store'.
  rewrite (registered_total store').
  pose proof (store_numbers_enroll isMasked (descriptor det) store Hstore Hdet) as Hnew.
  fold store' in Hnew.
  rewrite (loadFaceMatcher_saved _ store' Hnew); [reflexivity|].
  cbn [localStorage status_textContent set_status set_localStorage].
  unfold write_stored, getItem, setItem. apply lookup_insert_eq.
Qed.

(** After such a registration [faceMatcher] is not null. *)
Lemma matcher_of_enroll (isMasked : bool) (d : list number) (store : EnrollmentStore) :
  matcher_of (enroll isMasked d store) <> None.
Proof.
  unfold matcher_of, enroll.
  destruct isMasked; cbn [no_mask with_mask].
  - destruct (no_mask store), (with_mask store); discriminate.
  - destruct (no_mask store), (with_mask store); discriminate.
Qed.

(** ** The model at work *)

Example number_examples :
  number_toString num_0_58 = js "0.58"
  /\ num_ltb (Finite false [3] 0) num_0_58 = true
  /\ num_ltb num_0_58 num_0_58 = false
  /\ num_ltb (Finite false [9] 0) num_0_58 = false
  /\ num_ltb NaN num_0_58 = false
  /\ JSON_parse (js "[0.58, -1.5e-7, 1e400, 1e-400]")
     = Ok (VArr [VNum num_0_58; VNum (Finite true [1; 5] (-6));
                 VNum (Infinity false); VNum (Zero false)]).
Proof. vm_compute. repeat split; reflexivity. Qed.

(** A cycle in which the engine answers with the owner at distance 0.9:
    the owner is not taken as present and the face is reported as an
    intruder. *)
Example owner_beyond_threshold :
  let far := {| label := "owner_mask"; distance := Finite false [9] 0 |} in
  let s' := @monitorLoop (constant_engine far) (Resolved [sample_detection])
              sample_state in
  ownerAbsent s' = Some true
  /\ consecutiveNoFace s' = 0
  /\ status s' = [Text "不審者（登録外の顔）検出！"].
Proof. vm_compute. repeat split; reflexivity. Qed.

(** A session of the second file from the loaded page: one registration,
    a start with the audio allowed, ten frames without a face, a key
    press.  The alarm is up, and the tenth frame is what raised
    [ownerAbsent]. *)
Example Revised_session :
  let s :=
    @Revised.run (constant_engine owner_at_0_3)
      ([InitResumed (Resolved tt) (Resolved tt);
        RegisterClick; RegisterResumed false (Resolved [sample_detection]);
        StartClick; StartResumed (Resolved tt)]
       ++ repeat (LoopResumed (Resolved [])) 10
       ++ [InputEvent "keydown"])
      (page_loaded [] false ∅) in
  monitoring s = true
  /\ consecutiveNoFace s = 10
  /\ ownerAbsent s = Some true
  /\ status s = Revised.alarm_markup
  /\ alertOverlay_display s = "flex"
  /\ getItem registeredFaces (localStorage s)
     = Some (json_text "{'no_mask':[[0.5]],'with_mask':[]}")
  /\ plays (effects s) = 2%nat.
Proof. vm_compute. repeat split; reflexivity. Qed.

(** * Further properties *)

(** ** What a monitoring cycle leaves behind *)

Section Frames.
Context `{FaceApi}.

Lemma monitorLoop_resume_status (detections : list Detection) (s : State) :
  status (monitorLoop_resume detections s)
  = cycle_status (consecutiveNoFace (monitorLoop_resume detections s))
      (frame_flags (faceMatcher s) detections).
Proof.
  rewrite monitorLoop_resume_counter. unfold monitorLoop_resume, resizeResults, cycle_status.
  destruct detections as [|d l].
  - simpl. destruct (NO_FACE_THRESHOLD <=? increment (consecutiveNoFace s));
      reflexivity.
  - generalize (frame_flags (faceMatcher s) (d :: l)). intros [present intruder].
    destruct present, intruder; reflexivity.
Qed.

Lemma monitorLoop_resume_monitoring (detections : list Detection) (s : State) :
  monitoring (monitorLoop_resume detections s) = monitoring s.
Proof.
  unfold monitorLoop_resume.
  destruct (length detections =? 0)%nat; simpl;
    repeat match goal with |- context [if ?b then _ else _] => destruct b end;
    reflexivity.
Qed.

Lemma monitorLoop_monitoring (r : awaited (list Detection)) (s : State) :
  monitoring (monitorLoop r s) = monitoring s.
Proof.
  unfold monitorLoop. destruct (monitoring s) eqn:Hm; simpl; [|exact Hm].
  destruct r; [rewrite monitorLoop_resume_monitoring|]; exact Hm.
Qed.

Lemma increment_below (n : N) : n < 2 ^ 53 -> increment n = n + 1.
Proof. intros Hn. unfold increment. apply N.ltb_lt in Hn. rewrite Hn. reflexivity. Qed.

Lemma empty_frames_succ (k : nat) (s : State) :
  empty_frames (S k) s = monitorLoop (Resolved []) (empty_frames k s).
Proof. reflexivity. Qed.

Lemma empty_frames_counter (k : nat) (s : State) :
  monitoring s = true ->
  consecutiveNoFace s + N.of_nat k <= 2 ^ 53 ->
  monitoring (empty_frames k s) = true
  /\ consecutiveNoFace (empty_frames k s) = consecutiveNoFace s + N.of_nat k.
Proof.
  intros Hm. induction k as [|k IH]; intros Hk.
  - simpl. split; [exact Hm | lia].
  - destruct IH as [IHm IHc]; [lia|]. rewrite empty_frames_succ.
    split; [rewrite monitorLoop_monitoring; exact IHm|].
    rewrite monitorLoop_running by exact IHm. rewrite monitorLoop_resume_counter.
    change (consecutiveNoFace (emit DetectFaces ?s)) with (consecutiveNoFace s).
    rewrite increment_below by lia. lia.
Qed.

End Frames.

(** X1.  At the end of every monitoring cycle [window.ownerAbsent] is the
    negation of the owner flag of the frame just seen: the override at the
    threshold never changes it, and one frame without an owner match is
    enough to make it true. *)
Theorem absence_is_last_frame `{FaceApi} (detections : list Detection) (s : State) :
  monitoring s = true ->
  ownerAbsent (monitorLoop (Resolved detections) s)
  = Some (negb (ownerPresent (frame_flags (faceMatcher s) detections))).
Proof.
  intros Hm. rewrite monitorLoop_running by exact Hm.
  rewrite monitorLoop_resume_ownerAbsent, monitorLoop_resume_counter.
  change (faceMatcher (emit DetectFaces s)) with (faceMatcher s).
  destruct detections as [|d l].
  - change (frame_flags (faceMatcher s) []) with no_flags.
    destruct (NO_FACE_THRESHOLD <=? _); reflexivity.
  - reflexivity.
Qed.

Lemma absence_is_last_frame_witness :
  ownerAbsent (@monitorLoop (constant_engine owner_at_0_3) (Resolved []) sample_state)
  = Some (negb (ownerPresent
                  (@frame_flags (constant_engine owner_at_0_3)
                     (faceMatcher sample_state) []))).
Proof.
  apply (@absence_is_last_frame (constant_engine owner_at_0_3) [] sample_state).
  reflexivity.
Defined.

(** X2.  Frames without a face in a row, while monitoring: the counter
    goes up by one per frame, [window.ownerAbsent] is true from the first
    of them on, and the status line reads 'オーナー不在' until the counter
    reaches 10 and names the camera from then on. *)
Theorem empty_frames_outcome `{FaceApi} (k : nat) (s : State) :
  monitoring s = true ->
  consecutiveNoFace s + N.of_nat (S k) <= 2 ^ 53 ->
  consecutiveNoFace (empty_frames (S k) s) = consecutiveNoFace s + N.of_nat (S k)
  /\ ownerAbsent (empty_frames (S k) s) = Some true
  /\ status (empty_frames (S k) s)
     = [Text (if 10 <=? consecutiveNoFace s + N.of_nat (S k)
              then "顔が長時間検出されません（カメラ確認）"
              else "オーナー不在")]
  /\ monitoring (empty_frames (S k) s) = true.
Proof.
  intros Hm Hk.
  destruct (empty_frames_counter (S k) s Hm Hk) as [Hm' Hc'].
  destruct (empty_frames_counter k s Hm) as [Hmk Hck]; [lia|].
  repeat split; try assumption.
  - rewrite empty_frames_succ, monitorLoop_running by exact Hmk.
    rewrite monitorLoop_resume_ownerAbsent.
    change (frame_flags _ []) with no_flags.
    destruct (NO_FACE_THRESHOLD <=? _); reflexivity.
  - rewrite empty_frames_succ, monitorLoop_running in * by exact Hmk.
    rewrite monitorLoop_resume_status, Hc'.
    change (frame_flags _ []) with no_flags. reflexivity.
Qed.

Lemma empty_frames_outcome_witness :
  consecutiveNoFace (@empty_frames (constant_engine owner_at_0_3) 10 sample_state) = 10
  /\ ownerAbsent (@empty_frames (constant_engine owner_at_0_3) 10 sample_state)
     = Some true
  /\ status (@empty_frames (constant_engine owner_at_0_3) 10 sample_state)
     = [Text "顔が長時間検出されません（カメラ確認）"]
  /\ monitoring (@empty_frames (constant_engine owner_at_0_3) 10 sample_state) = true.
Proof.
  apply (@empty_frames_outcome (constant_engine owner_at_0_3) 9 sample_state);
    [reflexivity | vm_compute; discriminate].
Defined.

(** X3.  A cycle on a frame with at least one face: the status line names
    the intruder whenever some face was taken for one, also when the owner
    was matched in the same frame; it confirms the owner only when no face
    was taken for an intruder; and it never names the camera. *)
Theorem face_frame_status `{FaceApi} (detections : list Detection) (s : State) :
  monitoring s = true ->
  detections <> [] ->
  let f := frame_flags (faceMatcher s) detections in
  status (monitorLoop (Resolved detections) s)
  = [Text (if intruderDetected f then "不審者（登録外の顔）検出！"
           else if ownerPresent f then "オーナー確認中..."
           else "オーナー不在")]
  /\ ownerAbsent (monitorLoop (Resolved detections) s) = Some (negb (ownerPresent f)).
Proof.
  intros Hm Hd f. rewrite monitorLoop_running by exact Hm.
  rewrite monitorLoop_resume_status, monitorLoop_resume_ownerAbsent,
    monitorLoop_resume_counter.
  change (faceMatcher (emit DetectFaces s)) with (faceMatcher s). fold f.
  destruct detections as [|d l]; [congruence|]. split; reflexivity.
Qed.

Lemma face_frame_status_witness :
  status (@monitorLoop (constant_engine owner_at_0_3) (Resolved [sample_detection])
            sample_state)
  = [Text "オーナー確認中..."]
  /\ ownerAbsent (@monitorLoop (constant_engine owner_at_0_3)
                    (Resolved [sample_detection]) sample_state)
     = Some false.
Proof.
  apply (@face_frame_status (constant_engine owner_at_0_3) [sample_detection]
           sample_state); [reflexivity | discriminate].
Defined.

(** ** What the pieces of the script leave alone *)

Section Kept.
Context {A : Type} (proj : State -> A) (invoke : callback -> State -> State).
Hypothesis invoke_keeps : forall f s, proj (invoke f s) = proj s.

Lemma fold_invoke_keeps (cbs : list callback) :
  forall s, proj (fold_left (fun s f => invoke f s) cbs s) = proj s.
Proof.
  induction cbs as [|f cbs IH]; intros s; simpl; [reflexivity|].
  rewrite IH. apply invoke_keeps.
Qed.

End Kept.

Ltac invoke_kept :=
  let f := fresh "f" in
  let s := fresh "s" in
  intros f s; destruct f; simpl;
  unfold Script.handleInput, Revised.handleInput, visibility_listener;
  try destruct (truthy _ && _); reflexivity.

Lemma Script_dispatch_kept (type : string) (s : State) :
  faceMatcher (Script.dispatch type s) = faceMatcher s
  /\ monitoring (Script.dispatch type s) = monitoring s
  /\ ownerAbsent (Script.dispatch type s) = ownerAbsent s
  /\ document_hidden (Script.dispatch type s) = document_hidden s
  /\ alertAudio_volume (Script.dispatch type s) = alertAudio_volume s
  /\ localStorage (Script.dispatch type s) = localStorage s.
Proof.
  unfold Script.dispatch.
  repeat split; apply (fold_invoke_keeps _ Script.invoke); invoke_kept.
Qed.

Lemma Revised_dispatch_kept (type : string) (s : State) :
  faceMatcher (Revised.dispatch type s) = faceMatcher s
  /\ monitoring (Revised.dispatch type s) = monitoring s
  /\ ownerAbsent (Revised.dispatch type s) = ownerAbsent s
  /\ document_hidden (Revised.dispatch type s) = document_hidden s
  /\ alertAudio_volume (Revised.dispatch type s) = alertAudio_volume s
  /\ localStorage (Revised.dispatch type s) = localStorage s.
Proof.
  unfold Revised.dispatch.
  repeat split; apply (fold_invoke_keeps _ Revised.invoke); invoke_kept.
Qed.

Lemma monitorLoop_resume_kept `{FaceApi} (detections : list Detection) (s : State) :
  faceMatcher (monitorLoop_resume detections s) = faceMatcher s
  /\ alertAudio_volume (monitorLoop_resume detections s) = alertAudio_volume s
  /\ localStorage (monitorLoop_resume detections s) = localStorage s.
Proof.
  unfold monitorLoop_resume.
  destruct (length detections =? 0)%nat; simpl;
    repeat match goal with |- context [if ?b then _ else _] => destruct b end;
    repeat split; reflexivity.
Qed.

Lemma monitorLoop_call_kept (s : State) :
  faceMatcher (monitorLoop_call s) = faceMatcher s
  /\ monitoring (monitorLoop_call s) = monitoring s
  /\ ownerAbsent (monitorLoop_call s) = ownerAbsent s
  /\ alertAudio_volume (monitorLoop_call s) = alertAudio_volume s
  /\ localStorage (monitorLoop_call s) = localStorage s.
Proof. unfold monitorLoop_call. destruct (negb (monitoring s)); repeat split; reflexivity. Qed.

Lemma loadFaceMatcher_kept (s : State) :
  monitoring (snd (loadFaceMatcher s)) = monitoring s
  /\ ownerAbsent (snd (loadFaceMatcher s)) = ownerAbsent s
  /\ alertAudio_volume (snd (loadFaceMatcher s)) = alertAudio_volume s
  /\ localStorage (snd (loadFaceMatcher s)) = localStorage s
  /\ status (snd (loadFaceMatcher s)) = status s.
Proof. unfold loadFaceMatcher. case_match; repeat split; reflexivity. Qed.

Lemma registerFace_resume_kept (isMasked : bool) (detections : list Detection)
    (s : State) :
  monitoring (snd (registerFace_resume isMasked detections s)) = monitoring s
  /\ ownerAbsent (snd (registerFace_resume isMasked detections s)) = ownerAbsent s
  /\ alertAudio_volume (snd (registerFace_resume isMasked detections s))
     = alertAudio_volume s.
Proof.
  unfold registerFace_resume.
  repeat case_match; repeat split; try reflexivity;
    match goal with |- context [loadFaceMatcher ?x] =>
      destruct (loadFaceMatcher_kept x) as (Hm & Ho & Hv & _);
      rewrite ?Hm, ?Ho, ?Hv end;
    reflexivity.
Qed.

Lemma init_kept (models camera : awaited unit) (s : State) :
  monitoring (snd (init models camera s)) = monitoring s
  /\ ownerAbsent (snd (init models camera s)) = ownerAbsent s
  /\ alertAudio_volume (snd (init models camera s)) = alertAudio_volume s
  /\ localStorage (snd (init models camera s)) = localStorage s.
Proof.
  unfold init. destruct models; [|repeat split; reflexivity].
  match goal with |- context [loadFaceMatcher ?x] =>
    destruct (loadFaceMatcher_kept x) as (Hm & Ho & Hv & Hl & _);
    destruct (loadFaceMatcher x) as [r x'] end.
  simpl in Hm, Ho, Hv, Hl.
  destruct r; simpl; rewrite ?Hm, ?Ho, ?Hv, ?Hl; destruct camera;
    try (repeat split; reflexivity);
    destruct (faceMatcher x'); simpl; rewrite ?Hm, ?Ho, ?Hv, ?Hl;
    repeat split; reflexivity.
Qed.

(** ** Monitoring has no way back *)

Lemma Script_step_monitoring `{FaceApi} (e : event) (s : State) :
  monitoring s = true -> monitoring (Script.step e s) = true.
Proof.
  intros Hm. destruct e as [| | |isMasked [dets|]| |[dets|]| | | | |]; simpl;
    try exact Hm.
  - destruct (Script_dispatch_kept "click" (Script.startMonitor_click s))
      as (_ & -> & _).
    unfold Script.startMonitor_click. destruct (faceMatcher s); [reflexivity|exact Hm].
  - destruct (Script_dispatch_kept "click" (emit DetectFaces s)) as (_ & -> & _).
    exact Hm.
  - destruct (registerFace_resume_kept isMasked dets s) as (-> & _). exact Hm.
  - destruct (monitorLoop_call_kept s) as (_ & -> & _). exact Hm.
  - rewrite monitorLoop_resume_monitoring. exact Hm.
  - destruct (Script_dispatch_kept type s) as (_ & -> & _). exact Hm.
  - destruct (Script_dispatch_kept "visibilitychange" (set_document_hidden hidden s))
      as (_ & -> & _). exact Hm.
  - destruct (init_kept models camera s) as (-> & _). exact Hm.
Qed.

Lemma Revised_step_monitoring `{FaceApi} (e : event) (s : State) :
  monitoring s = true -> monitoring (Revised.step e s) = true.
Proof.
  intros Hm. destruct e as [|play| |isMasked [dets|]| |[dets|]| |r| | |]; simpl;
    try exact Hm.
  - destruct (Revised_dispatch_kept "click" (Revised.startMonitor_begin s))
      as (_ & -> & _).
    unfold Revised.startMonitor_begin. destruct (faceMatcher s); exact Hm.
  - destruct play; reflexivity.
  - destruct (Revised_dispatch_kept "click" (emit DetectFaces s)) as (_ & -> & _).
    exact Hm.
  - destruct (registerFace_resume_kept isMasked dets s) as (-> & _). exact Hm.
  - destruct (monitorLoop_call_kept s) as (_ & -> & _). exact Hm.
  - rewrite monitorLoop_resume_monitoring. exact Hm.
  - destruct (Revised_dispatch_kept type s) as (_ & -> & _). exact Hm.
  - destruct r; exact Hm.
  - destruct (Revised_dispatch_kept "visibilitychange" (set_document_hidden hidden s))
      as (_ & -> & _). exact Hm.
  - destruct (init_kept models camera s) as (-> & _). exact Hm.
Qed.

(** X4.  Once [monitoring] is true nothing the page can do makes it false
    again: neither file has a way to stop monitoring. *)
Theorem monitoring_never_stops `{FaceApi} (es : list event) (s : State) :
  monitoring s = true ->
  monitoring (Script.run es s) = true /\ monitoring (Revised.run es s) = true.
Proof.
  intros Hm. split.
  - revert s Hm. unfold Script.run.
    induction es as [|e es IH]; intros s Hm; simpl; [exact Hm|].
    apply IH, Script_step_monitoring, Hm.
  - revert s Hm. unfold Revised.run.
    induction es as [|e es IH]; intros s Hm; simpl; [exact Hm|].
    apply IH, Revised_step_monitoring, Hm.
Qed.

Lemma monitoring_never_stops_witness :
  monitoring (@Script.run (constant_engine owner_at_0_3)
                [LoopResumed (Resolved []); InputEvent "keydown"; StartClick]
                sample_state) = true
  /\ monitoring (@Revised.run (constant_engine owner_at_0_3)
                   [LoopResumed (Resolved []); InputEvent "keydown"; StartClick]
                   sample_state) = true.
Proof.
  apply (@monitoring_never_stops (constant_engine owner_at_0_3)
           [LoopResumed (Resolved []); InputEvent "keydown"; StartClick] sample_state).
  reflexivity.
Defined.

(** ** Who writes to the store *)

Lemma registerFace_resume_other_count (isMasked : bool) (detections : list Detection)
    (s : State) :
  length detections <> 1%nat ->
  registerFace_resume isMasked detections s = (Ok tt, emit (Alert enrollment_notice) s).
Proof.
  intros Hd. destruct detections as [|d [|d' l]]; [reflexivity| |reflexivity].
  simpl in Hd. congruence.
Qed.

Lemma Script_step_localStorage `{FaceApi} (e : event) (s : State) :
  one_face_registration e = false ->
  localStorage (Script.step e s) = localStorage s.
Proof.
  intros He. destruct e as [| | |isMasked [dets|]| |[dets|]| | | | |]; simpl;
    try reflexivity.
  - destruct (Script_dispatch_kept "click" (Script.startMonitor_click s))
      as (_ & _ & _ & _ & _ & ->).
    unfold Script.startMonitor_click. destruct (faceMatcher s); reflexivity.
  - destruct (Script_dispatch_kept "click" (emit DetectFaces s))
      as (_ & _ & _ & _ & _ & ->). reflexivity.
  - rewrite registerFace_resume_other_count; [reflexivity|].
    destruct dets as [|d [|d' l]]; simpl in *; congruence.
  - destruct (monitorLoop_call_kept s) as (_ & _ & _ & _ & ->). reflexivity.
  - destruct (monitorLoop_resume_kept dets s) as (_ & _ & ->). reflexivity.
  - destruct (Script_dispatch_kept type s) as (_ & _ & _ & _ & _ & ->). reflexivity.
  - destruct (Script_dispatch_kept "visibilitychange" (set_document_hidden hidden s))
      as (_ & _ & _ & _ & _ & ->). reflexivity.
  - destruct (init_kept models camera s) as (_ & _ & _ & ->). reflexivity.
Qed.

Lemma Revised_step_localStorage `{FaceApi} (e : event) (s : State) :
  one_face_registration e = false ->
  localStorage (Revised.step e s) = localStorage s.
Proof.
  intros He. destruct e as [|play| |isMasked [dets|]| |[dets|]| |r| | |]; simpl;
    try reflexivity.
  - destruct (Revised_dispatch_kept "click" (Revised.startMonitor_begin s))
      as (_ & _ & _ & _ & _ & ->).
    unfold Revised.startMonitor_begin. destruct (faceMatcher s); reflexivity.
  - destruct play; reflexivity.
  - destruct (Revised_dispatch_kept "click" (emit DetectFaces s))
      as (_ & _ & _ & _ & _ & ->). reflexivity.
  - rewrite registerFace_resume_other_count; [reflexivity|].
    destruct dets as [|d [|d' l]]; simpl in *; congruence.
  - destruct (monitorLoop_call_kept s) as (_ & _ & _ & _ & ->). reflexivity.
  - destruct (monitorLoop_resume_kept dets s) as (_ & _ & ->). reflexivity.
  - destruct (Revised_dispatch_kept type s) as (_ & _ & _ & _ & _ & ->). reflexivity.
  - destruct r; reflexivity.
  - destruct (Revised_dispatch_kept "visibilitychange" (set_document_hidden hidden s))
      as (_ & _ & _ & _ & _ & ->). reflexivity.
  - destruct (init_kept models camera s) as (_ & _ & _ & ->). reflexivity.
Qed.

(** X5.  Nothing but a registration that found exactly one face writes to
    [localStorage]: loading the page, starting, the monitoring cycles, the
    alarm, and registrations that found no face or several, all leave it
    as it was. *)
Theorem store_written_by_registration_only `{FaceApi} (es : list event) (s : State) :
  forallb (fun e => negb (one_face_registration e)) es = true ->
  localStorage (Script.run es s) = localStorage s
  /\ localStorage (Revised.run es s) = localStorage s.
Proof.
  intros Hes. split.
  - revert s. unfold Script.run.
    induction es as [|e es IH]; intros s; simpl; [reflexivity|].
    simpl in Hes. apply andb_true_iff in Hes as [He Hes].
    rewrite IH by exact Hes. apply Script_step_localStorage.
    apply negb_true_iff, He.
  - revert s. unfold Revised.run.
    induction es as [|e es IH]; intros s; simpl; [reflexivity|].
    simpl in Hes. apply andb_true_iff in Hes as [He Hes].
    rewrite IH by exact Hes. apply Revised_step_localStorage.
    apply negb_true_iff, He.
Qed.

Lemma store_written_by_registration_only_witness :
  let es := [InitResumed (Resolved tt) (Rejected "NotFoundError");
             RegisterClick;
             RegisterResumed true (Resolved [sample_detection; sample_detection]);
             StartClick; StartResumed (Resolved tt); LoopResumed (Resolved []);
             InputEvent "click"] in
  localStorage (@Script.run (constant_engine owner_at_0_3) es sample_state)
  = localStorage sample_state
  /\ localStorage (@Revised.run (constant_engine owner_at_0_3) es sample_state)
     = localStorage sample_state.
Proof.
  apply (@store_written_by_registration_only (constant_engine owner_at_0_3)).
  reflexivity.
Defined.

(** ** Before the first cycle has ended *)

Lemma Script_step_ownerAbsent `{FaceApi} (e : event) (s : State) :
  cycle_end e = false -> ownerAbsent (Script.step e s) = ownerAbsent s.
Proof.
  intros He. destruct e as [| | |isMasked [dets|]| |[dets|]| | | | |]; simpl;
    try reflexivity; try discriminate.
  - destruct (Script_dispatch_kept "click" (Script.startMonitor_click s))
      as (_ & _ & -> & _).
    unfold Script.startMonitor_click. destruct (faceMatcher s); reflexivity.
  - destruct (Script_dispatch_kept "click" (emit DetectFaces s)) as (_ & _ & -> & _).
    reflexivity.
  - destruct (registerFace_resume_kept isMasked dets s) as (_ & -> & _). reflexivity.
  - destruct (monitorLoop_call_kept s) as (_ & _ & -> & _). reflexivity.
  - destruct (Script_dispatch_kept type s) as (_ & _ & -> & _). reflexivity.
  - destruct (Script_dispatch_kept "visibilitychange" (set_document_hidden hidden s))
      as (_ & _ & -> & _). reflexivity.
  - destruct (init_kept models camera s) as (_ & -> & _). reflexivity.
Qed.

Lemma Revised_step_ownerAbsent `{FaceApi} (e : event) (s : State) :
  cycle_end e = false -> ownerAbsent (Revised.step e s) = ownerAbsent s.
Proof.
  intros He. destruct e as [|play| |isMasked [dets|]| |[dets|]| |r| | |]; simpl;
    try reflexivity; try discriminate.
  - destruct (Revised_dispatch_kept "click" (Revised.startMonitor_begin s))
      as (_ & _ & -> & _).
    unfold Revised.startMonitor_begin. destruct (faceMatcher s); reflexivity.
  - destruct play; reflexivity.
  - destruct (Revised_dispatch_kept "click" (emit DetectFaces s)) as (_ & _ & -> & _).
    reflexivity.
  - destruct (registerFace_resume_kept isMasked dets s) as (_ & -> & _). reflexivity.
  - destruct (monitorLoop_call_kept s) as (_ & _ & -> & _). reflexivity.
  - destruct (Revised_dispatch_kept type s) as (_ & _ & -> & _). reflexivity.
  - destruct r; reflexivity.
  - destruct (Revised_dispatch_kept "visibilitychange" (set_document_hidden hidden s))
      as (_ & _ & -> & _). reflexivity.
  - destruct (init_kept models camera s) as (_ & -> & _). reflexivity.
Qed.

Lemma Script_run_ownerAbsent `{FaceApi} (es : list event) (s : State) :
  forallb (fun e => negb (cycle_end e)) es = true ->
  ownerAbsent (Script.run es s) = ownerAbsent s.
Proof.
  revert s. unfold Script.run.
  induction es as [|e es IH]; intros s Hes; simpl; [reflexivity|].
  simpl in Hes. apply andb_true_iff in Hes as [He Hes].
  rewrite IH by exact Hes. apply Script_step_ownerAbsent, negb_true_iff, He.
Qed.

Lemma Revised_run_ownerAbsent `{FaceApi} (es : list event) (s : State) :
  forallb (fun e => negb (cycle_end e)) es = true ->
  ownerAbsent (Revised.run es s) = ownerAbsent s.
Proof.
  revert s. unfold Revised.run.
  induction es as [|e es IH]; intros s Hes; simpl; [reflexivity|].
  simpl in Hes. apply andb_true_iff in Hes as [He Hes].
  rewrite IH by exact Hes. apply Revised_step_ownerAbsent, negb_true_iff, He.
Qed.

(** An event reaching [document] while the alarm condition cannot hold
    runs the listeners to no effect. *)
Lemma Script_dispatch_idle (type : string) (s : State) :
  truthy (ownerAbsent s) = false \/ (isTabVisible s = false /\ document_hidden s = true) ->
  effects (Script.dispatch type s) = effects s
  /\ status (Script.dispatch type s) = status s.
Proof.
  unfold Script.dispatch. generalize (callbacks_for type (listeners s)).
  intros cbs. revert s. induction cbs as [|f cbs IH]; intros s Hs; simpl; [auto|].
  assert (Hf : effects (Script.invoke f s) = effects s
               /\ status (Script.invoke f s) = status s
               /\ ownerAbsent (Script.invoke f s) = ownerAbsent s
               /\ document_hidden (Script.invoke f s) = document_hidden s
               /\ (isTabVisible s = false /\ document_hidden s = true ->
                   isTabVisible (Script.invoke f s) = false)).
  { destruct f; simpl.
    - unfold Script.handleInput.
      destruct Hs as [Hs | [Hs _]]; rewrite Hs, ?andb_false_r; simpl; repeat split; tauto.
    - unfold visibility_listener. simpl. repeat split; try reflexivity.
      intros [_ ->]. reflexivity. }
  destruct Hf as (He & Hst & Ho & Hh & Hv).
  rewrite <- He, <- Hst. apply IH.
  rewrite Ho, Hh. destruct Hs as [Hs | Hs]; [left; exact Hs | right].
  split; [apply Hv, Hs | apply Hs].
Qed.

Lemma Revised_dispatch_idle (type : string) (s : State) :
  truthy (ownerAbsent s) = false \/ (isTabVisible s = false /\ document_hidden s = true) ->
  effects (Revised.dispatch type s) = effects s
  /\ status (Revised.dispatch type s) = status s.
Proof.
  unfold Revised.dispatch. generalize (callbacks_for type (listeners s)).
  intros cbs. revert s. induction cbs as [|f cbs IH]; intros s Hs; simpl; [auto|].
  assert (Hf : effects (Revised.invoke f s) = effects s
               /\ status (Revised.invoke f s) = status s
               /\ ownerAbsent (Revised.invoke f s) = ownerAbsent s
               /\ document_hidden (Revised.invoke f s) = document_hidden s
               /\ (isTabVisible s = false /\ document_hidden s = true ->
                   isTabVisible (Revised.invoke f s) = false)).
  { destruct f; simpl.
    - unfold Revised.handleInput.
      destruct Hs as [Hs | [Hs _]]; rewrite Hs, ?andb_false_r; simpl; repeat split; tauto.
    - unfold visibility_listener. simpl. repeat split; try reflexivity.
      intros [_ ->]. reflexivity. }
  destruct Hf as (He & Hst & Ho & Hh & Hv).
  rewrite <- He, <- Hst. apply IH.
  rewrite Ho, Hh. destruct Hs as [Hs | Hs]; [left; exact Hs | right].
  split; [apply Hv, Hs | apply Hs].
Qed.

(** X6.  From the loaded page, until a monitoring cycle has run to its
    end, [window.ownerAbsent] is undefined, and an input event reaching
    [document] raises no alarm, in either file: a page that is monitoring
    but has not got its first frame back does not react to input. *)
Theorem no_alarm_before_first_cycle `{FaceApi} (es : list event)
    (status0 : list node) (hidden : bool) (ls : gmap (list N) (list N))
    (type : string) :
  forallb (fun e => negb (cycle_end e)) es = true ->
  let s1 := Script.run es (page_loaded status0 hidden ls) in
  let s2 := Revised.run es (page_loaded status0 hidden ls) in
  ownerAbsent s1 = None
  /\ effects (Script.dispatch type s1) = effects s1
  /\ status (Script.dispatch type s1) = status s1
  /\ ownerAbsent s2 = None
  /\ effects (Revised.dispatch type s2) = effects s2
  /\ status (Revised.dispatch type s2) = status s2.
Proof.
  intros Hes s1 s2.
  assert (H1 : ownerAbsent s1 = None)
    by (unfold s1; rewrite Script_run_ownerAbsent by exact Hes; reflexivity).
  assert (H2 : ownerAbsent s2 = None)
    by (unfold s2; rewrite Revised_run_ownerAbsent by exact Hes; reflexivity).
  destruct (Script_dispatch_idle type s1) as [Ha Hb]; [left; rewrite H1; reflexivity|].
  destruct (Revised_dispatch_idle type s2) as [Hc Hd]; [left; rewrite H2; reflexivity|].
  auto 10.
Qed.

Lemma no_alarm_before_first_cycle_witness :
  let es := [InitResumed (Resolved tt) (Resolved tt); RegisterClick;
             RegisterResumed false (Resolved [sample_detection]);
             StartClick; StartResumed (Resolved tt); LoopTimer] in
  let s1 := @Script.run (constant_engine owner_at_0_3) es (page_loaded [] false ∅) in
  let s2 := @Revised.run (constant_engine owner_at_0_3) es (page_loaded [] false ∅) in
  ownerAbsent s1 = None
  /\ effects (Script.dispatch "keydown" s1) = effects s1
  /\ status (Script.dispatch "keydown" s1) = status s1
  /\ ownerAbsent s2 = None
  /\ effects (Revised.dispatch "keydown" s2) = effects s2
  /\ status (Revised.dispatch "keydown" s2) = status s2.
Proof.
  apply (@no_alarm_before_first_cycle (constant_engine owner_at_0_3)).
  reflexivity.
Defined.

(** ** The visibility listener *)

Lemma addEventListener_keeps (type : string) (f : callback) (ls : list listener)
    (l : listener) :
  In l ls -> In l (addEventListener type f ls).
Proof.
  intros Hin. unfold addEventListener.
  destruct (existsb _ ls); [exact Hin | apply in_or_app; left; exact Hin].
Qed.

Lemma removeEventListener_keeps (type : string) (f : callback) (ls : list listener)
    (l : listener) :
  l <> (type, f) -> In l ls -> In l (removeEventListener type f ls).
Proof.
  intros Hl. induction ls as [|l0 ls IH]; intros Hin; simpl in *; [exact Hin|].
  destruct (same_listener type f l0) eqn:H0.
  - apply same_listener_spec in H0. subst l0.
    destruct Hin as [Hin|Hin]; [congruence | exact Hin].
  - destruct Hin as [Hin|Hin]; [left; exact Hin | right; apply IH, Hin].
Qed.

Lemma add_input_listeners_keeps (ls : list listener) (l : listener) :
  In l ls -> In l (add_input_listeners ls).
Proof. intros Hin. unfold add_input_listeners. auto using addEventListener_keeps. Qed.

Lemma remove_input_listeners_keeps (ls : list listener) (l : listener) :
  snd l <> handleInput_fn -> In l ls -> In l (remove_input_listeners ls).
Proof.
  intros Hl Hin. unfold remove_input_listeners.
  repeat apply removeEventListener_keeps; try exact Hin;
    intros ->; apply Hl; reflexivity.
Qed.

Lemma Script_step_visibility_listener `{FaceApi} (e : event) (s : State) :
  In ("visibilitychange", visibility_fn) (listeners s) ->
  In ("visibilitychange", visibility_fn) (listeners (Script.step e s)).
Proof.
  intros Hin. destruct e as [| | |? [?|?]| |[?|?]| | | | |]; unfold Script.step;
    rewrite ?Script_dispatch_listeners, ?registerFace_resume_listeners,
      ?monitorLoop_call_listeners, ?monitorLoop_resume_listeners, ?init_listeners;
    try assumption.
  unfold Script.startMonitor_click. destruct (faceMatcher s); [|assumption].
  change (In ("visibilitychange", visibility_fn)
            (add_input_listeners
               (listeners (monitorLoop_call
                             (status_textContent "監視開始！" (set_monitoring true s)))))).
  apply add_input_listeners_keeps. rewrite monitorLoop_call_listeners. assumption.
Qed.

Lemma Revised_step_visibility_listener `{FaceApi} (e : event) (s : State) :
  In ("visibilitychange", visibility_fn) (listeners s) ->
  In ("visibilitychange", visibility_fn) (listeners (Revised.step e s)).
Proof.
  intros Hin. destruct e as [|play| |? [?|?]| |[?|?]| |r| | |]; unfold Revised.step;
    rewrite ?Revised_dispatch_listeners, ?registerFace_resume_listeners,
      ?monitorLoop_call_listeners, ?monitorLoop_resume_listeners, ?init_listeners;
    try assumption.
  - unfold Revised.startMonitor_begin. destruct (faceMatcher s); assumption.
  - unfold Revised.unlock_settled.
    match goal with
    | |- In _ (listeners (set_listeners (add_input_listeners ?l) _)) =>
        change (In ("visibilitychange", visibility_fn) (add_input_listeners l))
    end.
    apply add_input_listeners_keeps.
    match goal with
    | |- In _ (listeners (set_listeners (remove_input_listeners ?l) _)) =>
        change (In ("visibilitychange", visibility_fn) (remove_input_listeners l))
    end.
    apply remove_input_listeners_keeps; [discriminate|].
    rewrite monitorLoop_call_listeners. destruct play; assumption.
  - destruct r; assumption.
Qed.

Lemma Script_run_visibility_listener `{FaceApi} (es : list event) (s : State) :
  In ("visibilitychange", visibility_fn) (listeners s) ->
  In ("visibilitychange", visibility_fn) (listeners (Script.run es s)).
Proof.
  revert s. unfold Script.run.
  induction es as [|e es IH]; intros s Hin; simpl; [exact Hin|].
  apply IH, Script_step_visibility_listener, Hin.
Qed.

Lemma Revised_run_visibility_listener `{FaceApi} (es : list event) (s : State) :
  In ("visibilitychange", visibility_fn) (listeners s) ->
  In ("visibilitychange", visibility_fn) (listeners (Revised.run es s)).
Proof.
  revert s. unfold Revised.run.
  induction es as [|e es IH]; intros s Hin; simpl; [exact Hin|].
  apply IH, Revised_step_visibility_listener, Hin.
Qed.

Lemma callbacks_for_In (type : string) (f : callback) (ls : list listener) :
  In (type, f) ls -> In f (callbacks_for type ls).
Proof.
  intros Hin. unfold callbacks_for. apply in_map_iff. exists (type, f).
  split; [reflexivity|]. apply List.filter_In. split; [exact Hin|].
  simpl. apply String.eqb_refl.
Qed.

Section Visibility.
Variable invoke : callback -> State -> State.
Hypothesis invoke_hidden : forall f s, document_hidden (invoke f s) = document_hidden s.
Hypothesis invoke_visible : forall f s,
  isTabVisible (invoke f s)
  = match f with
    | visibility_fn => negb (document_hidden s)
    | handleInput_fn => isTabVisible s
    end.

Lemma fold_invoke_visible (cbs : list callback) :
  forall s,
    isTabVisible (fold_left (fun s f => invoke f s) cbs s)
    = if existsb (fun f => bool_decide (f = visibility_fn)) cbs
      then negb (document_hidden s)
      else isTabVisible s.
Proof.
  induction cbs as [|f cbs IH]; intros s; simpl; [reflexivity|].
  rewrite IH, invoke_hidden, invoke_visible.
  destruct f; simpl; [reflexivity|].
  destruct (existsb _ cbs); reflexivity.
Qed.

Lemma fold_invoke_hidden (cbs : list callback) :
  forall s, document_hidden (fold_left (fun s f => invoke f s) cbs s) = document_hidden s.
Proof.
  induction cbs as [|f cbs IH]; intros s; simpl; [reflexivity|].
  rewrite IH. apply invoke_hidden.
Qed.

Lemma visibility_change_recorded (hidden : bool) (s : State) :
  In ("visibilitychange", visibility_fn) (listeners s) ->
  let s' := fold_left (fun s f => invoke f s)
              (callbacks_for "visibilitychange" (listeners (set_document_hidden hidden s)))
              (set_document_hidden hidden s) in
  isTabVisible s' = negb hidden /\ document_hidden s' = hidden.
Proof.
  intros Hin s'. unfold s'. rewrite fold_invoke_visible, fold_invoke_hidden.
  split; [|reflexivity].
  apply callbacks_for_In in Hin.
  change (listeners (set_document_hidden hidden s)) with (listeners s).
  destruct (existsb _ (callbacks_for "visibilitychange" (listeners s))) eqn:He;
    [reflexivity|].
  exfalso. apply not_true_iff_false in He. apply He.
  apply existsb_exists. exists visibility_fn. split; [exact Hin|].
  apply bool_decide_eq_true. reflexivity.
Qed.

End Visibility.

Lemma Script_invoke_hidden (f : callback) (s : State) :
  document_hidden (Script.invoke f s) = document_hidden s.
Proof. revert f s. invoke_kept. Qed.

Lemma Revised_invoke_hidden (f : callback) (s : State) :
  document_hidden (Revised.invoke f s) = document_hidden s.
Proof. revert f s. invoke_kept. Qed.

Lemma Script_invoke_visible (f : callback) (s : State) :
  isTabVisible (Script.invoke f s)
  = match f with
    | visibility_fn => negb (document_hidden s)
    | handleInput_fn => isTabVisible s
    end.
Proof. revert f s. invoke_kept. Qed.

Lemma Revised_invoke_visible (f : callback) (s : State) :
  isTabVisible (Revised.invoke f s)
  = match f with
    | visibility_fn => negb (document_hidden s)
    | handleInput_fn => isTabVisible s
    end.
Proof. revert f s. invoke_kept. Qed.

(** X7.  Whatever has happened to the page since it was loaded, the
    listener for 'visibilitychange' is still registered, and a change of
    [document.hidden] leaves [isTabVisible] as its negation; in both
    files. *)
Theorem visibility_tracked `{FaceApi} (es : list event) (status0 : list node)
    (hidden0 : bool) (ls : gmap (list N) (list N)) (hidden : bool) :
  isTabVisible
    (Script.step (VisibilityChange hidden)
       (Script.run es (page_loaded status0 hidden0 ls))) = negb hidden
  /\ isTabVisible
       (Revised.step (VisibilityChange hidden)
          (Revised.run es (page_loaded status0 hidden0 ls))) = negb hidden.
Proof.
  split.
  - apply (visibility_change_recorded Script.invoke Script_invoke_hidden
             Script_invoke_visible).
    apply Script_run_visibility_listener. left. reflexivity.
  - apply (visibility_change_recorded Revised.invoke Revised_invoke_hidden
             Revised_invoke_visible).
    apply Revised_run_visibility_listener. left. reflexivity.
Qed.

(** X8.  Once the tab has been hidden, an event of any type reaching
    [document] raises no alarm, however long the owner has been absent:
    no audio is started and the status line is left as it is; in both
    files. *)
Theorem hidden_tab_raises_no_alarm `{FaceApi} (es : list event) (status0 : list node)
    (hidden0 : bool) (ls : gmap (list N) (list N)) (type : string) :
  let s1 := Script.step (VisibilityChange true)
              (Script.run es (page_loaded status0 hidden0 ls)) in
  let s2 := Revised.step (VisibilityChange true)
              (Revised.run es (page_loaded status0 hidden0 ls)) in
  effects (Script.dispatch type s1) = effects s1
  /\ status (Script.dispatch type s1) = status s1
  /\ effects (Revised.dispatch type s2) = effects s2
  /\ status (Revised.dispatch type s2) = status s2.
Proof.
  intros s1 s2.
  destruct (visibility_change_recorded Script.invoke Script_invoke_hidden
              Script_invoke_visible true
              (Script.run es (page_loaded status0 hidden0 ls))) as [Hv1 Hh1].
  { apply Script_run_visibility_listener. left. reflexivity. }
  destruct (visibility_change_recorded Revised.invoke Revised_invoke_hidden
              Revised_invoke_visible true
              (Revised.run es (page_loaded status0 hidden0 ls))) as [Hv2 Hh2].
  { apply Revised_run_visibility_listener. left. reflexivity. }
  destruct (Script_dispatch_idle type s1) as [Ha Hb]; [right; split; assumption|].
  destruct (Revised_dispatch_idle type s2) as [Hc Hd]; [right; split; assumption|].
  auto.
Qed.

(** ** The muted audio of the second file *)

Lemma Revised_step_volume `{FaceApi} (e : event) (s : State) :
  audio_unlocked e = false ->
  alertAudio_volume s = 0 -> alertAudio_volume (Revised.step e s) = 0.
Proof.
  intros He Hv. destruct e as [|play| |isMasked [dets|]| |[dets|]| |r| | |]; simpl;
    try exact Hv.
  - destruct (Revised_dispatch_kept "click" (Revised.startMonitor_begin s))
      as (_ & _ & _ & _ & -> & _).
    unfold Revised.startMonitor_begin. destruct (faceMatcher s); [reflexivity|exact Hv].
  - destruct play as [u|reason]; [discriminate|].
    unfold Revised.unlock_settled. simpl. exact Hv.
  - destruct (Revised_dispatch_kept "click" (emit DetectFaces s))
      as (_ & _ & _ & _ & -> & _). exact Hv.
  - destruct (registerFace_resume_kept isMasked dets s) as (_ & _ & ->). exact Hv.
  - destruct (monitorLoop_call_kept s) as (_ & _ & _ & -> & _). exact Hv.
  - destruct (monitorLoop_resume_kept dets s) as (_ & -> & _). exact Hv.
  - destruct (Revised_dispatch_kept type s) as (_ & _ & _ & _ & -> & _). exact Hv.
  - destruct r; exact Hv.
  - destruct (Revised_dispatch_kept "visibilitychange" (set_document_hidden hidden s))
      as (_ & _ & _ & _ & -> & _). exact Hv.
  - destruct (init_kept models camera s) as (_ & _ & -> & _). exact Hv.
Qed.

(** X9.  In the second file, after a start with the audio blocked the
    alert audio is muted, and it stays muted through everything that
    follows (alarms included) until a start whose unlock is allowed, which
    sets the volume back to 1. *)
Theorem muted_until_unlocked `{FaceApi} (es : list event) (s : State)
    (m : FaceMatcher) (reason : string) :
  faceMatcher s = Some m ->
  forallb (fun e => negb (audio_unlocked e)) es = true ->
  let s' := Revised.run es (Revised.startMonitor_click (Rejected reason) s) in
  alertAudio_volume s' = 0
  /\ alertAudio_volume (Revised.step (StartResumed (Resolved tt)) s') = 1.
Proof.
  intros Hf Hes s'. split.
  - unfold s'.
    assert (H0 : alertAudio_volume (Revised.startMonitor_click (Rejected reason) s) = 0)
      by (unfold Revised.startMonitor_click; rewrite Hf; reflexivity).
    revert H0. generalize (Revised.startMonitor_click (Rejected reason) s).
    unfold Revised.run. induction es as [|e es IH]; intros s0 H0; simpl; [exact H0|].
    simpl in Hes. apply andb_true_iff in Hes as [He Hes].
    apply IH; [exact Hes|]. apply Revised_step_volume; [|exact H0].
    apply negb_true_iff, He.
  - reflexivity.
Qed.

Lemma muted_until_unlocked_witness :
  let es := [LoopResumed (Resolved []); InputEvent "keydown";
             PlaySettled (Resolved tt); StartClick] in
  let s' := @Revised.run (constant_engine owner_at_0_3) es
              (Revised.startMonitor_click (Rejected "NotAllowedError") sample_state) in
  alertAudio_volume s' = 0
  /\ alertAudio_volume
       (@Revised.step (constant_engine owner_at_0_3) (StartResumed (Resolved tt)) s') = 1.
Proof.
  apply (@muted_until_unlocked (constant_engine owner_at_0_3) _ sample_state
           sample_matcher "NotAllowedError"); reflexivity.
Defined.

(** ** A store that cannot be read *)

Lemma read_stored_unparseable (ls : gmap (list N) (list N)) (text : list N) :
  getItem registeredFaces ls = Some text ->
  JSON_parse text = Throw SyntaxError ->
  read_stored ls = Throw SyntaxError.
Proof. unfold read_stored. intros -> ->. reflexivity. Qed.

Lemma registerFace_resume_locked_out (isMasked : bool) (detections : list Detection)
    (ls : gmap (list N) (list N)) (s : State) :
  read_stored ls = Throw SyntaxError ->
  locked_out ls s -> locked_out ls (snd (registerFace_resume isMasked detections s)).
Proof.
  intros Hr (Hl & Hf & Hm). unfold registerFace_resume.
  destruct detections as [|d [|d' l]]; [repeat split; assumption | |
                                         repeat split; assumption].
  rewrite Hl, Hr. repeat split; assumption.
Qed.

Lemma init_locked_out (models camera : awaited unit)
    (ls : gmap (list N) (list N)) (s : State) :
  read_stored ls = Throw SyntaxError ->
  locked_out ls s -> locked_out ls (snd (init models camera s)).
Proof.
  intros Hr (Hl & Hf & Hm). unfold init, loadFaceMatcher.
  destruct models; [|repeat split; assumption].
  destruct camera; simpl; rewrite Hl, Hr; repeat split; assumption.
Qed.

Lemma monitorLoop_resume_locked_out `{FaceApi} (detections : list Detection)
    (ls : gmap (list N) (list N)) (s : State) :
  locked_out ls s -> locked_out ls (monitorLoop_resume detections s).
Proof.
  intros (Hl & Hf & Hm). unfold locked_out.
  destruct (monitorLoop_resume_kept detections s) as (-> & _ & ->).
  rewrite monitorLoop_resume_monitoring. auto.
Qed.

Lemma Script_dispatch_locked_out (type : string) (ls : gmap (list N) (list N))
    (s : State) :
  locked_out ls s -> locked_out ls (Script.dispatch type s).
Proof.
  intros (Hl & Hf & Hm). unfold locked_out.
  destruct (Script_dispatch_kept type s) as (-> & -> & _ & _ & _ & ->). auto.
Qed.

Lemma Revised_dispatch_locked_out (type : string) (ls : gmap (list N) (list N))
    (s : State) :
  locked_out ls s -> locked_out ls (Revised.dispatch type s).
Proof.
  intros (Hl & Hf & Hm). unfold locked_out.
  destruct (Revised_dispatch_kept type s) as (-> & -> & _ & _ & _ & ->). auto.
Qed.

Lemma monitorLoop_call_locked_out (ls : gmap (list N) (list N)) (s : State) :
  locked_out ls s -> locked_out ls (monitorLoop_call s).
Proof.
  intros (Hl & Hf & Hm). unfold locked_out.
  destruct (monitorLoop_call_kept s) as (-> & -> & _ & _ & ->). auto.
Qed.

Lemma Script_step_locked_out `{FaceApi} (e : event) (ls : gmap (list N) (list N))
    (s : State) :
  read_stored ls = Throw SyntaxError ->
  locked_out ls s -> locked_out ls (Script.step e s).
Proof.
  intros Hr Hs. destruct e as [| | |isMasked [dets|]| |[dets|]| | | | |]; simpl;
    try exact Hs.
  - apply Script_dispatch_locked_out. unfold Script.startMonitor_click.
    destruct Hs as (Hl & Hf & Hm). rewrite Hf. repeat split; assumption.
  - apply Script_dispatch_locked_out. exact Hs.
  - apply registerFace_resume_locked_out; assumption.
  - apply monitorLoop_call_locked_out, Hs.
  - apply monitorLoop_resume_locked_out, Hs.
  - apply Script_dispatch_locked_out, Hs.
  - apply Script_dispatch_locked_out. exact Hs.
  - apply init_locked_out; assumption.
Qed.

Lemma Revised_step_locked_out `{FaceApi} (e : event) (ls : gmap (list N) (list N))
    (s : State) :
  read_stored ls = Throw SyntaxError ->
  (forall play, e <> StartResumed play) ->
  locked_out ls s -> locked_out ls (Revised.step e s).
Proof.
  intros Hr He Hs. destruct e as [|play| |isMasked [dets|]| |[dets|]| |r| | |]; simpl;
    try exact Hs.
  - apply Revised_dispatch_locked_out. unfold Revised.startMonitor_begin.
    destruct Hs as (Hl & Hf & Hm). rewrite Hf. repeat split; assumption.
  - exfalso. apply (He play). reflexivity.
  - apply Revised_dispatch_locked_out. exact Hs.
  - apply registerFace_resume_locked_out; assumption.
  - apply monitorLoop_call_locked_out, Hs.
  - apply monitorLoop_resume_locked_out, Hs.
  - apply Revised_dispatch_locked_out, Hs.
  - destruct r; exact Hs.
  - apply Revised_dispatch_locked_out. exact Hs.
  - apply init_locked_out; assumption.
Qed.

Lemma Revised_run_locked_out `{FaceApi} (es : list event)
    (ls : gmap (list N) (list N)) :
  read_stored ls = Throw SyntaxError ->
  forall s, locked_out ls s -> starts_answered 0 es s = true ->
            locked_out ls (Revised.run es s).
Proof.
  intros Hr. unfold Revised.run.
  induction es as [|e es IH]; intros s Hs Hes; simpl; [exact Hs|].
  assert (He : forall play, e <> StartResumed play).
  { intros play ->. simpl in Hes. discriminate. }
  apply IH; [apply Revised_step_locked_out; assumption|].
  destruct e; simpl in Hes; try exact Hes.
  - destruct Hs as (_ & Hf & _). rewrite Hf in Hes. exact Hes.
  - discriminate.
Qed.

(** X10.  When the text under the storage key is not JSON the page cannot
    recover by itself: whatever is done on it, every registration throws
    before it writes, so the text stays, [faceMatcher] stays null and
    monitoring never starts.  (For the second file: in every run in which
    the start handler goes on after its [await] only for a click that got
    past the guard.) *)
Theorem unreadable_store_locks_out `{FaceApi} (es : list event)
    (status0 : list node) (hidden : bool) (ls : gmap (list N) (list N))
    (text : list N) :
  getItem registeredFaces ls = Some text ->
  JSON_parse text = Throw SyntaxError ->
  locked_out ls (Script.run es (page_loaded status0 hidden ls))
  /\ (starts_answered 0 es (page_loaded status0 hidden ls) = true ->
      locked_out ls (Revised.run es (page_loaded status0 hidden ls))).
Proof.
  intros Hg Hp. pose proof (read_stored_unparseable ls text Hg Hp) as Hr.
  assert (H0 : locked_out ls (page_loaded status0 hidden ls))
    by (repeat split; reflexivity).
  split.
  - revert H0. generalize (page_loaded status0 hidden ls). unfold Script.run.
    induction es as [|e es IH]; intros s Hs; simpl; [exact Hs|].
    apply IH, Script_step_locked_out; assumption.
  - intros Hes. apply Revised_run_locked_out; assumption.
Qed.

Lemma unreadable_store_locks_out_witness :
  let es := [InitResumed (Resolved tt) (Resolved tt); RegisterClick;
             RegisterResumed false (Resolved [sample_detection]); StartClick;
             LoopTimer; InputEvent "keydown"] in
  locked_out (localStorage broken_page)
    (@Script.run (constant_engine owner_at_0_3) es broken_page)
  /\ locked_out (localStorage broken_page)
       (@Revised.run (constant_engine owner_at_0_3) es broken_page).
Proof.
  intros es.
  assert (Hg : getItem registeredFaces {[ registeredFaces := js "{no_mask" ]}
               = Some (js "{no_mask")) by (vm_compute; reflexivity).
  assert (Hp : JSON_parse (js "{no_mask") = Throw SyntaxError)
    by (vm_compute; reflexivity).
  destruct (@unreadable_store_locks_out (constant_engine owner_at_0_3) es [] false
              {[ registeredFaces := js "{no_mask" ]} (js "{no_mask") Hg Hp)
    as [H1 H2].
  split; [exact H1 | apply H2; vm_compute; reflexivity].
Defined.

(** ** Alarms are not spaced out *)

Lemma Script_handleInput_due (s : State) :
  alarm_due s ->
  alarm_due (Script.handleInput s)
  /\ listeners (Script.handleInput s) = listeners s
  /\ plays (effects (Script.handleInput s)) = S (plays (effects s)).
Proof.
  intros [Ho Hv]. unfold Script.handleInput, alarm_due. rewrite Ho, Hv. simpl.
  repeat split; try assumption.
  unfold plays. rewrite !List.filter_app, !length_app. simpl. lia.
Qed.

Lemma Revised_handleInput_due (s : State) :
  alarm_due s ->
  alarm_due (Revised.handleInput s)
  /\ listeners (Revised.handleInput s) = listeners s
  /\ plays (effects (Revised.handleInput s)) = S (plays (effects s)).
Proof.
  intros [Ho Hv]. unfold Revised.handleInput, alarm_due. rewrite Ho, Hv. simpl.
  repeat split; try assumption.
  unfold plays. rewrite !List.filter_app, !length_app. simpl. lia.
Qed.

(** X11.  The alarm is not spaced out: while the owner is absent and the
    tab visible, each of [n] events of a type that [handleInput] alone
    listens to rewinds and starts the alert audio again, [n] starts in
    all; in both files. *)
Theorem alarm_per_event (n : nat) (type : string) (s : State) :
  callbacks_for type (listeners s) = [handleInput_fn] ->
  alarm_due s ->
  plays (effects (Nat.iter n (Script.dispatch type) s)) = (plays (effects s) + n)%nat
  /\ plays (effects (Nat.iter n (Revised.dispatch type) s)) = (plays (effects s) + n)%nat.
Proof.
  intros Hc Hd. split.
  - assert (Hn : alarm_due (Nat.iter n (Script.dispatch type) s)
                 /\ listeners (Nat.iter n (Script.dispatch type) s) = listeners s
                 /\ plays (effects (Nat.iter n (Script.dispatch type) s))
                    = (plays (effects s) + n)%nat).
    { induction n as [|n (IHd & IHl & IHp)]; [simpl; repeat split; [apply Hd ..|lia]|].
      rewrite Nat.iter_succ. unfold Script.dispatch at 1 3 5. rewrite IHl, Hc. simpl.
      destruct (Script_handleInput_due _ IHd) as (Hd' & Hl' & Hp').
      rewrite Hl', Hp', IHl, IHp. repeat split; [apply Hd' ..|lia]. }
    apply Hn.
  - assert (Hn : alarm_due (Nat.iter n (Revised.dispatch type) s)
                 /\ listeners (Nat.iter n (Revised.dispatch type) s) = listeners s
                 /\ plays (effects (Nat.iter n (Revised.dispatch type) s))
                    = (plays (effects s) + n)%nat).
    { induction n as [|n (IHd & IHl & IHp)]; [simpl; repeat split; [apply Hd ..|lia]|].
      rewrite Nat.iter_succ. unfold Revised.dispatch at 1 3 5. rewrite IHl, Hc. simpl.
      destruct (Revised_handleInput_due _ IHd) as (Hd' & Hl' & Hp').
      rewrite Hl', Hp', IHl, IHp. repeat split; [apply Hd' ..|lia]. }
    apply Hn.
Qed.

Lemma alarm_per_event_witness :
  let s := @Script.run (constant_engine owner_at_0_3)
             [StartClick; LoopResumed (Resolved [])] sample_state in
  plays (effects (Nat.iter 3 (Script.dispatch "keydown") s)) = (plays (effects s) + 3)%nat
  /\ plays (effects (Nat.iter 3 (Revised.dispatch "keydown") s))
     = (plays (effects s) + 3)%nat.
Proof.
  apply (alarm_per_event 3 "keydown"); [reflexivity | split; reflexivity].
Defined.

(** ** What the start handler registers *)

Lemma addEventListener_In_inv (type : string) (f : callback) (ls : list listener)
    (l : listener) :
  In l (addEventListener type f ls) -> In l ls \/ l = (type, f).
Proof.
  unfold addEventListener. destruct (existsb _ ls); [auto|].
  intros Hin. apply in_app_or in Hin as [Hin | [Hin | []]]; auto.
Qed.

Lemma addEventListener_In_self (type : string) (f : callback) (ls : list listener) :
  In (type, f) (addEventListener type f ls).
Proof.
  unfold addEventListener. destruct (existsb _ ls) eqn:He.
  - apply existsb_same_listener, list_elem_of_In in He. exact He.
  - apply in_or_app. right. left. reflexivity.
Qed.

Lemma add_input_listeners_In (ls : list listener) (type : string) :
  In type input_types -> In (type, handleInput_fn) (add_input_listeners ls).
Proof.
  unfold add_input_listeners, input_types.
  intros [<- | [<- | [<- | []]]];
    auto using addEventListener_keeps, addEventListener_In_self.
Qed.

Lemma add_input_listeners_In_inv (ls : list listener) (type : string) :
  In (type, handleInput_fn) (add_input_listeners ls) ->
  In (type, handleInput_fn) ls \/ In type input_types.
Proof.
  unfold add_input_listeners, input_types. intros Hin.
  repeat (apply addEventListener_In_inv in Hin as [Hin | Hin];
          [|injection Hin as ->; simpl; auto]).
  left. exact Hin.
Qed.

Lemma remove_input_listeners_In_inv (ls : list listener) (l : listener) :
  In l (remove_input_listeners ls) -> In l ls.
Proof.
  unfold remove_input_listeners. rewrite <- !list_elem_of_In. intros Hin.
  repeat apply removeEventListener_subset in Hin. exact Hin.
Qed.

Lemma registrations_absent (type : string) (ls : list listener) :
  ~ In (type, handleInput_fn) ls -> registrations type ls = 0%nat.
Proof.
  intros Hnot. unfold registrations.
  destruct (List.filter (same_listener type handleInput_fn) ls) as [|l rest] eqn:Hf;
    [reflexivity|].
  exfalso. apply Hnot.
  assert (Hin : In l (List.filter (same_listener type handleInput_fn) ls))
    by (rewrite Hf; left; reflexivity).
  apply List.filter_In in Hin as [Hin Hl].
  apply same_listener_spec in Hl. subst l. exact Hin.
Qed.

Lemma registrations_present (type : string) (ls : list listener) :
  In (type, handleInput_fn) ls -> NoDup ls -> registrations type ls = 1%nat.
Proof.
  intros Hin Hnd. pose proof (registrations_NoDup type ls Hnd) as Hle.
  assert (Hin' : In (type, handleInput_fn)
                   (List.filter (same_listener type handleInput_fn) ls)).
  { apply List.filter_In. split; [exact Hin|]. apply same_listener_spec. reflexivity. }
  unfold registrations in *.
  destruct (List.filter (same_listener type handleInput_fn) ls); [destruct Hin'|].
  simpl in *. lia.
Qed.

Lemma Script_start_listeners (s : State) (m : FaceMatcher) :
  faceMatcher s = Some m ->
  listeners (Script.startMonitor_click s) = add_input_listeners (listeners s).
Proof.
  intros Hf. unfold Script.startMonitor_click. rewrite Hf.
  change (add_input_listeners
            (listeners (monitorLoop_call
                          (status_textContent "監視開始！" (set_monitoring true s))))
          = add_input_listeners (listeners s)).
  rewrite monitorLoop_call_listeners. reflexivity.
Qed.

Lemma unlock_settled_listeners (play : awaited unit) (s : State) :
  listeners (Revised.unlock_settled play s)
  = add_input_listeners (remove_input_listeners (listeners s)).
Proof.
  unfold Revised.unlock_settled.
  match goal with
  | |- listeners (set_listeners (add_input_listeners ?l) _) = _ =>
      change (add_input_listeners l
              = add_input_listeners (remove_input_listeners (listeners s)))
  end.
  match goal with
  | |- context [listeners (set_listeners (remove_input_listeners ?l) _)] =>
      change (listeners (set_listeners (remove_input_listeners l) _))
        with (remove_input_listeners l)
  end.
  rewrite monitorLoop_call_listeners. destruct play; reflexivity.
Qed.

Lemma Script_step_input_types `{FaceApi} (e : event) (s : State) (type : string) :
  (In (type, handleInput_fn) (listeners s) -> In type input_types) ->
  In (type, handleInput_fn) (listeners (Script.step e s)) -> In type input_types.
Proof.
  intros Hs. destruct e as [| | |? [?|?]| |[?|?]| | | | |]; unfold Script.step;
    rewrite ?Script_dispatch_listeners, ?registerFace_resume_listeners,
      ?monitorLoop_call_listeners, ?monitorLoop_resume_listeners, ?init_listeners;
    try assumption.
  destruct (faceMatcher s) as [m|] eqn:Hf.
  - rewrite (Script_start_listeners s m Hf). intros Hin.
    apply add_input_listeners_In_inv in Hin as [Hin | Hin]; auto.
  - unfold Script.startMonitor_click. rewrite Hf. exact Hs.
Qed.

Lemma Revised_step_input_types `{FaceApi} (e : event) (s : State) (type : string) :
  (In (type, handleInput_fn) (listeners s) -> In type input_types) ->
  In (type, handleInput_fn) (listeners (Revised.step e s)) -> In type input_types.
Proof.
  intros Hs. destruct e as [|play| |? [?|?]| |[?|?]| |r| | |]; unfold Revised.step;
    rewrite ?Revised_dispatch_listeners, ?registerFace_resume_listeners,
      ?monitorLoop_call_listeners, ?monitorLoop_resume_listeners, ?init_listeners;
    try assumption.
  - unfold Revised.startMonitor_begin. destruct (faceMatcher s); exact Hs.
  - rewrite unlock_settled_listeners. intros Hin.
    apply add_input_listeners_In_inv in Hin as [Hin | Hin]; [|exact Hin].
    apply Hs, remove_input_listeners_In_inv, Hin.
  - destruct r; exact Hs.
Qed.

Lemma Script_run_input_types `{FaceApi} (es : list event) (type : string) :
  forall s,
    (In (type, handleInput_fn) (listeners s) -> In type input_types) ->
    In (type, handleInput_fn) (listeners (Script.run es s)) -> In type input_types.
Proof.
  unfold Script.run. induction es as [|e es IH]; intros s Hs; simpl; [exact Hs|].
  apply IH, Script_step_input_types, Hs.
Qed.

Lemma Revised_run_input_types `{FaceApi} (es : list event) (type : string) :
  forall s,
    (In (type, handleInput_fn) (listeners s) -> In type input_types) ->
    In (type, handleInput_fn) (listeners (Revised.run es s)) -> In type input_types.
Proof.
  unfold Revised.run. induction es as [|e es IH]; intros s Hs; simpl; [exact Hs|].
  apply IH, Revised_step_input_types, Hs.
Qed.

(** X12.  Whatever has happened to the page since it was loaded,
    [handleInput] listens on [document] to no event type other than
    'keydown', 'mousemove' and 'click'; and a click on the start button
    that gets past the guard leaves it registered exactly once for each of
    the three; in both files. *)
Theorem input_types_registered `{FaceApi} (es : list event) (status0 : list node)
    (hidden : bool) (ls : gmap (list N) (list N)) (type : string) :
  let s1 := Script.run es (page_loaded status0 hidden ls) in
  let s2 := Revised.run es (page_loaded status0 hidden ls) in
  (~ In type input_types ->
   registrations type (listeners s1) = 0%nat
   /\ registrations type (listeners s2) = 0%nat)
  /\ (In type input_types ->
      (forall m, faceMatcher s1 = Some m ->
                 registrations type (listeners (Script.startMonitor_click s1)) = 1%nat)
      /\ (forall m play, faceMatcher s2 = Some m ->
                         registrations type
                           (listeners (Revised.startMonitor_click play s2)) = 1%nat)).
Proof.
  intros s1 s2.
  assert (Hnd : NoDup (listeners (page_loaded status0 hidden ls)))
    by (simpl; apply NoDup_singleton).
  assert (H0 : In (type, handleInput_fn) (listeners (page_loaded status0 hidden ls)) ->
               In type input_types)
    by (simpl; intros [Hin | []]; discriminate).
  split.
  - intros Hnot. split; apply registrations_absent; intros Hin; apply Hnot.
    + exact (Script_run_input_types es type _ H0 Hin).
    + exact (Revised_run_input_types es type _ H0 Hin).
  - intros Hin. split.
    + intros m Hf. rewrite (Script_start_listeners s1 m Hf).
      apply registrations_present; [apply add_input_listeners_In, Hin|].
      apply add_input_listeners_NoDup, Script_run_NoDup, Hnd.
    + intros m play Hf. unfold Revised.startMonitor_click. rewrite Hf.
      rewrite unlock_settled_listeners.
      apply registrations_present; [apply add_input_listeners_In, Hin|].
      apply add_input_listeners_NoDup, remove_input_listeners_NoDup.
      change (listeners (Revised.unlock_call s2)) with (listeners s2).
      apply Revised_run_NoDup, Hnd.
Qed.

(** ** Starting again *)

Lemma detections_started_app (es es' : list effect) :
  detections_started (es ++ es')
  = (detections_started es + detections_started es')%nat.
Proof. unfold detections_started. rewrite List.filter_app, length_app. reflexivity. Qed.

Lemma Script_start_again (s : State) (m : FaceMatcher) :
  faceMatcher s = Some m ->
  faceMatcher (Script.startMonitor_click s) = Some m
  /\ effects (Script.startMonitor_click s) = effects s ++ [DetectFaces].
Proof.
  intros Hf. unfold Script.startMonitor_click. rewrite Hf. simpl. auto.
Qed.

Lemma Revised_start_again (play : awaited unit) (s : State) (m : FaceMatcher) :
  faceMatcher s = Some m ->
  faceMatcher (Revised.startMonitor_click play s) = Some m
  /\ detections_started (effects (Revised.startMonitor_click play s))
     = S (detections_started (effects s)).
Proof.
  intros Hf. unfold Revised.startMonitor_click. rewrite Hf.
  destruct play; simpl; unfold detections_started;
    rewrite !List.filter_app, !length_app; simpl; split; auto; lia.
Qed.

(** X13.  The start handler does not look at [monitoring]: every click on
    the start button that gets past the guard calls [monitorLoop] and with
    it [detectFaces] again, so [n] clicks start [n] loops side by side; in
    both files. *)
Theorem every_start_begins_a_loop (n : nat) (play : awaited unit) (s : State)
    (m : FaceMatcher) :
  faceMatcher s = Some m ->
  detections_started (effects (Nat.iter n Script.startMonitor_click s))
  = (detections_started (effects s) + n)%nat
  /\ detections_started (effects (Nat.iter n (Revised.startMonitor_click play) s))
     = (detections_started (effects s) + n)%nat.
Proof.
  intros Hf. split.
  - assert (Hn : faceMatcher (Nat.iter n Script.startMonitor_click s) = Some m
                 /\ detections_started (effects (Nat.iter n Script.startMonitor_click s))
                    = (detections_started (effects s) + n)%nat).
    { induction n as [|n [IHf IHd]]; [split; [exact Hf | simpl; lia]|].
      rewrite Nat.iter_succ.
      destruct (Script_start_again _ m IHf) as [Hf' He'].
      split; [exact Hf'|]. rewrite He', detections_started_app, IHd.
      unfold detections_started at 2. simpl. lia. }
    apply Hn.
  - assert (Hn : faceMatcher (Nat.iter n (Revised.startMonitor_click play) s) = Some m
                 /\ detections_started
                      (effects (Nat.iter n (Revised.startMonitor_click play) s))
                    = (detections_started (effects s) + n)%nat).
    { induction n as [|n [IHf IHd]]; [split; [exact Hf | simpl; lia]|].
      rewrite Nat.iter_succ.
      destruct (Revised_start_again play _ m IHf) as [Hf' He'].
      split; [exact Hf'|]. rewrite He', IHd. lia. }
    apply Hn.
Qed.

Lemma every_start_begins_a_loop_witness :
  detections_started (effects (Nat.iter 3 Script.startMonitor_click sample_state))
  = (detections_started (effects sample_state) + 3)%nat
  /\ detections_started
       (effects (Nat.iter 3 (Revised.startMonitor_click (Resolved tt)) sample_state))
     = (detections_started (effects sample_state) + 3)%nat.
Proof.
  apply (every_start_begins_a_loop 3 (Resolved tt) sample_state sample_matcher).
  reflexivity.
Defined.

(** ** Registering faces *)

Lemma registerFace_one_face (isMasked : bool) (det : Detection)
    (store : EnrollmentStore) (s : State) :
  store_numbers store = true ->
  forallb is_Number (descriptor det) = true ->
  read_stored (localStorage s) = Ok (store_value store) ->
  let store' := enroll isMasked (descriptor det) store in
  registerFace isMasked (Resolved [det]) s
  = (Ok tt,
     set_faceMatcher (matcher_of store')
       (status_textContent
          (enrolled_notice isMasked
             (N.of_nat (length (no_mask store')) + N.of_nat (length (with_mask store'))))
          (set_localStorage (write_stored (store_value store') (localStorage s))
             (emit DetectFaces s)))).
Proof.
  intros Hstore Hdet Hread store'. unfold registerFace.
  apply (registerFace_saves_and_reloads isMasked det store (emit DetectFaces s));
    assumption.
Qed.

Lemma enroll_total (isMasked : bool) (d : list number) (store : EnrollmentStore) :
  N.of_nat (length (no_mask (enroll isMasked d store)))
  + N.of_nat (length (with_mask (enroll isMasked d store)))
  = N.of_nat (length (no_mask store)) + N.of_nat (length (with_mask store)) + 1.
Proof.
  unfold enroll. destruct isMasked; cbn [no_mask with_mask];
    rewrite length_app; simpl; lia.
Qed.

(** X14.  A registration with exactly one face in the frame, on a store
    that reads as an object of the script's shape: the call returns
    normally, the descriptor is appended to the list of its mask state
    alone and the whole object is saved under the storage key, the status
    line shows a total one higher than before, [faceMatcher] is rebuilt
    from what was saved and is not null, and [monitoring] is left as it
    was. *)
Theorem registration_saved_and_loaded (isMasked : bool) (det : Detection)
    (store : EnrollmentStore) (s : State) :
  store_numbers store = true ->
  forallb is_Number (descriptor det) = true ->
  read_stored (localStorage s) = Ok (store_value store) ->
  let store' := enroll isMasked (descriptor det) store in
  let s' := snd (registerFace isMasked (Resolved [det]) s) in
  fst (registerFace isMasked (Resolved [det]) s) = Ok tt
  /\ getItem registeredFaces (localStorage s')
     = Some (JSON_stringify (store_value store'))
  /\ read_stored (localStorage s') = Ok (store_image store')
  /\ faceMatcher s' = matcher_of store' /\ faceMatcher s' <> None
  /\ status s'
     = [Text (enrolled_notice isMasked
                (N.of_nat (length (no_mask store))
                 + N.of_nat (length (with_mask store)) + 1))]
  /\ monitoring s' = monitoring s.
Proof.
  intros Hstore Hdet Hread store' s'. unfold s'.
  rewrite (registerFace_one_face isMasked det store s Hstore Hdet Hread).
  fold store'. cbn [fst snd].
  split; [reflexivity|]. split.
  { cbn [localStorage set_faceMatcher status_textContent set_status set_localStorage].
    unfold write_stored, getItem, setItem. apply lookup_insert_eq. }
  split.
  { cbn [localStorage set_faceMatcher status_textContent set_status set_localStorage].
    apply read_after_write, store_numbers_enroll; assumption. }
  split; [reflexivity|]. split; [apply matcher_of_enroll|].
  split; [|reflexivity].
  unfold store'. rewrite enroll_total. reflexivity.
Qed.

Lemma registration_saved_and_loaded_witness :
  let s := page_loaded [] false ∅ in
  let store' := {| no_mask := []; with_mask := [descriptor sample_detection] |} in
  let s' := snd (registerFace true (Resolved [sample_detection]) s) in
  fst (registerFace true (Resolved [sample_detection]) s) = Ok tt
  /\ getItem registeredFaces (localStorage s')
     = Some (JSON_stringify (store_value store'))
  /\ read_stored (localStorage s') = Ok (store_image store')
  /\ faceMatcher s' = matcher_of store' /\ faceMatcher s' <> None
  /\ status s' = [Text (enrolled_notice true 1)]
  /\ monitoring s' = false.
Proof.
  apply (registration_saved_and_loaded true sample_detection
           {| no_mask := []; with_mask := [] |} (page_loaded [] false ∅));
    reflexivity.
Defined.

Lemma store_plain_enroll (isMasked : bool) (d : list number)
    (store : EnrollmentStore) :
  store_plain store = true -> forallb plain_number d = true ->
  store_plain (enroll isMasked d store) = true.
Proof.
  unfold store_plain, enroll. rewrite !andb_true_iff. intros [Hn Hw] Hd.
  destruct isMasked; cbn [no_mask with_mask]; rewrite ?forallb_app; cbn [forallb];
    rewrite ?Hn, ?Hw, ?Hd; auto.
Qed.

Lemma register_all_cons (r : bool * Detection) (faces : list (bool * Detection))
    (s : State) :
  register_all (r :: faces) s
  = register_all faces (snd (registerFace (fst r) (Resolved [snd r]) s)).
Proof. reflexivity. Qed.

Lemma enroll_all_cons (r : bool * Detection) (faces : list (bool * Detection))
    (store : EnrollmentStore) :
  enroll_all (r :: faces) store
  = enroll_all faces (enroll (fst r) (descriptor (snd r)) store).
Proof. reflexivity. Qed.

Lemma enroll_all_total (faces : list (bool * Detection)) :
  forall store,
    (length (no_mask (enroll_all faces store))
     + length (with_mask (enroll_all faces store))
     = length (no_mask store) + length (with_mask store) + length faces)%nat.
Proof.
  induction faces as [|r faces IH]; intros store; [simpl; lia|].
  rewrite enroll_all_cons, IH. unfold enroll.
  destruct (fst r); cbn [no_mask with_mask length]; rewrite length_app; simpl; lia.
Qed.

(** X15.  Registrations add up: a series of them, each with one face and
    finite numbers, on a store of the script's shape, ends with every
    descriptor in the list of its mask state, in the order of the
    registrations, nothing dropped and nothing merged (the same face
    registered twice is kept twice); the store reads back as exactly that
    object and [faceMatcher] is the matcher of it. *)
Theorem registrations_add_up (faces : list (bool * Detection))
    (store : EnrollmentStore) (s : State) :
  store_numbers store = true ->
  store_plain store = true ->
  forallb (fun r => forallb is_Number (descriptor (snd r))
                    && forallb plain_number (descriptor (snd r))) faces = true ->
  faces <> [] ->
  read_stored (localStorage s) = Ok (store_value store) ->
  read_stored (localStorage (register_all faces s))
  = Ok (store_value (enroll_all faces store))
  /\ faceMatcher (register_all faces s) = matcher_of (enroll_all faces store)
  /\ (length (no_mask (enroll_all faces store))
      + length (with_mask (enroll_all faces store))
      = length (no_mask store) + length (with_mask store) + length faces)%nat.
Proof.
  intros Hnum Hplain Hfaces Hne Hread.
  split; [|split; [|apply enroll_all_total]].
  - clear Hne. revert store s Hnum Hplain Hread.
    induction faces as [|r faces IH]; intros store s Hnum Hplain Hread;
      [exact Hread|].
    simpl in Hfaces. apply andb_true_iff in Hfaces as [Hr Hfaces].
    apply andb_true_iff in Hr as [Hrn Hrp].
    rewrite register_all_cons, enroll_all_cons.
    apply IH; [exact Hfaces | apply store_numbers_enroll; assumption
              | apply store_plain_enroll; assumption |].
    rewrite (registerFace_one_face (fst r) (snd r) store s Hnum Hrn Hread).
    cbn [snd localStorage set_faceMatcher status_textContent set_status
         set_localStorage].
    rewrite read_after_write by (apply store_numbers_enroll; assumption).
    rewrite store_image_plain by (apply store_plain_enroll; assumption).
    reflexivity.
  - revert store s Hnum Hplain Hread.
    induction faces as [|r faces IH]; intros store s Hnum Hplain Hread;
      [congruence|].
    simpl in Hfaces. apply andb_true_iff in Hfaces as [Hr Hfaces].
    apply andb_true_iff in Hr as [Hrn Hrp].
    rewrite register_all_cons, enroll_all_cons.
    destruct faces as [|r' faces'].
    + rewrite (registerFace_one_face (fst r) (snd r) store s Hnum Hrn Hread).
      reflexivity.
    + apply IH; [exact Hfaces | discriminate | apply store_numbers_enroll; assumption
                | apply store_plain_enroll; assumption |].
      rewrite (registerFace_one_face (fst r) (snd r) store s Hnum Hrn Hread).
      cbn [snd localStorage set_faceMatcher status_textContent set_status
           set_localStorage].
      rewrite read_after_write by (apply store_numbers_enroll; assumption).
      rewrite store_image_plain by (apply store_plain_enroll; assumption).
      reflexivity.
Qed.

Lemma registrations_add_up_witness :
  let faces := [(false, sample_detection); (true, sample_detection);
                (false, sample_detection)] in
  let store := {| no_mask := [[Finite false [5] 0]; [Finite false [5] 0]];
                  with_mask := [[Finite false [5] 0]] |} in
  read_stored (localStorage (register_all faces (page_loaded [] false ∅)))
  = Ok (store_value store)
  /\ faceMatcher (register_all faces (page_loaded [] false ∅)) = matcher_of store
  /\ (length (no_mask store) + length (with_mask store) = 0 + 0 + 3)%nat.
Proof.
  apply (registrations_add_up
           [(false, sample_detection); (true, sample_detection);
            (false, sample_detection)]
           {| no_mask := []; with_mask := [] |} (page_loaded [] false ∅));
    try reflexivity; discriminate.
Defined.

(** X16.  The first registration opens the start button: on a page with
    nothing stored, after one registration with one face the matcher holds
    the one class of that mask state, and a click on the start button is
    no longer refused but turns monitoring on; in both files. *)
Theorem first_registration_enables_start (isMasked : bool) (det : Detection)
    (play : awaited unit) (s : State) :
  forallb is_Number (descriptor det) = true ->
  getItem registeredFaces (localStorage s) = None ->
  let s' := snd (registerFace isMasked (Resolved [det]) s) in
  class_labels (faceMatcher s') = [if isMasked then "owner_mask" else "owner_no_mask"]
  /\ monitoring (Script.startMonitor_click s') = true
  /\ monitoring (Revised.startMonitor_click play s') = true.
Proof.
  intros Hdet Hget s'.
  assert (Hread : read_stored (localStorage s)
                  = Ok (store_value {| no_mask := []; with_mask := [] |})).
  { unfold read_stored. rewrite Hget. reflexivity. }
  unfold s'.
  rewrite (registerFace_one_face isMasked det {| no_mask := []; with_mask := [] |} s
             eq_refl Hdet Hread).
  cbn [snd]. unfold Script.startMonitor_click, Revised.startMonitor_click.
  cbn [faceMatcher set_faceMatcher].
  destruct isMasked; repeat split; try reflexivity; destruct play; reflexivity.
Qed.

Lemma first_registration_enables_start_witness :
  let s' := snd (registerFace false (Resolved [sample_detection])
                   (page_loaded [] false ∅)) in
  class_labels (faceMatcher s') = ["owner_no_mask"]
  /\ monitoring (Script.startMonitor_click s') = true
  /\ monitoring (Revised.startMonitor_click (Resolved tt) s') = true.
Proof.
  apply (first_registration_enables_start false sample_detection (Resolved tt)
           (page_loaded [] false ∅)); reflexivity.
Defined.

(** ** What is loaded from the store *)

(** X17.  Loading a store the script saved: [faceMatcher] gets one class
    for each mask state that has a descriptor, 'owner_no_mask' before
    'owner_mask', no class without descriptors, the threshold 0.58; and it
    is null exactly when both lists are empty. *)
Theorem loaded_matcher_classes (s : State) (store : EnrollmentStore) :
  store_numbers store = true ->
  getItem registeredFaces (localStorage s) = Some (JSON_stringify (store_value store)) ->
  let s' := snd (loadFaceMatcher s) in
  class_labels (faceMatcher s')
  = (if nonempty (no_mask store) then ["owner_no_mask"] else [])
    ++ (if nonempty (with_mask store) then ["owner_mask"] else [])
  /\ (faceMatcher s' = None <-> no_mask store = [] /\ with_mask store = [])
  /\ (forall m, faceMatcher s' = Some m ->
                distanceThreshold m = num_0_58
                /\ Forall (fun c => lfd_descriptors c <> []) (labeledDescriptors m)).
Proof.
  intros Hnum Hget s'. unfold s'.
  rewrite (loadFaceMatcher_saved s store Hnum Hget).
  cbn [snd faceMatcher set_faceMatcher]. unfold matcher_of.
  destruct (no_mask store) as [|d ds], (with_mask store) as [|e es];
    cbn [nonempty app class_labels map labeledDescriptors lfd_label].
  - split; [reflexivity|]. split; [tauto|]. discriminate.
  - split; [reflexivity|]. split; [split; [discriminate | intros [_ ?]; discriminate]|].
    intros m [= <-]. split; [reflexivity|]. repeat constructor; discriminate.
  - split; [reflexivity|]. split; [split; [discriminate | intros [? _]; discriminate]|].
    intros m [= <-]. split; [reflexivity|]. repeat constructor; discriminate.
  - split; [reflexivity|]. split; [split; [discriminate | intros [? _]; discriminate]|].
    intros m [= <-]. split; [reflexivity|]. repeat constructor; discriminate.
Qed.

Lemma loaded_matcher_classes_witness :
  let s := page_loaded [] false
             {[ registeredFaces := JSON_stringify (store_value sample_store) ]} in
  let s' := snd (loadFaceMatcher s) in
  class_labels (faceMatcher s') = ["owner_no_mask"]
  /\ (faceMatcher s' = None <-> no_mask sample_store = [] /\ with_mask sample_store = [])
  /\ (forall m, faceMatcher s' = Some m ->
                distanceThreshold m = num_0_58
                /\ Forall (fun c => lfd_descriptors c <> []) (labeledDescriptors m)).
Proof.
  apply (loaded_matcher_classes
           (page_loaded [] false
              {[ registeredFaces := JSON_stringify (store_value sample_store) ]})
           sample_store); [reflexivity | apply lookup_insert_eq].
Defined.

(** X18.  What stands in for the stored object.  Text under the key that
    is JSON for a falsy value (null, false, 0, the empty string) is
    answered like a missing key, with the empty store and a null matcher;
    JSON for anything truthy is used as it is, and when it has no
    [no_mask] member, [loadFaceMatcher] throws a TypeError and leaves the
    page as it was. *)
Theorem stored_value_edge_cases (s : State) (text : list N) (v : value) :
  getItem registeredFaces (localStorage s) = Some text ->
  JSON_parse text = Ok v ->
  (truthy_value v = false -> loadFaceMatcher s = (Ok tt, set_faceMatcher None s))
  /\ (truthy_value v = true -> member (js "no_mask") v = None ->
      loadFaceMatcher s = (Throw TypeError, s)).
Proof.
  intros Hget Hparse. unfold loadFaceMatcher, read_stored. rewrite Hget, Hparse.
  cbn [mbind result_bind mret result_ret]. split.
  - intros ->. reflexivity.
  - intros -> Hm. unfold build_matcher. rewrite Hm. reflexivity.
Qed.

Lemma stored_value_edge_cases_witness :
  let s := page_loaded [] false {[ registeredFaces := js "[1, 2]" ]} in
  (truthy_value (VArr [VNum (Finite false [1] 1); VNum (Finite false [2] 1)]) = false ->
   loadFaceMatcher s = (Ok tt, set_faceMatcher None s))
  /\ loadFaceMatcher s = (Throw TypeError, s).
Proof.
  intros s.
  assert (Hget : getItem registeredFaces (localStorage s) = Some (js "[1, 2]"))
    by apply lookup_insert_eq.
  assert (Hparse : JSON_parse (js "[1, 2]")
                   = Ok (VArr [VNum (Finite false [1] 1); VNum (Finite false [2] 1)]))
    by (vm_compute; reflexivity).
  destruct (stored_value_edge_cases s (js "[1, 2]") _ Hget Hparse) as [H1 H2].
  split; [exact H1 | apply H2; reflexivity].
Defined.

Lemma lookup_prop_replace_other (k k' : list N) (v : value)
    (props : list (list N * value)) :
  k <> k' -> lookup_prop k' (replace_value k v props) = lookup_prop k' props.
Proof.
  intros Hk. induction props as [|[k0 v0] props IH]; [reflexivity|].
  cbn [replace_value lookup_prop fst snd]. unfold key_eqb.
  destruct (bool_decide (k = k0)) eqn:H0.
  - apply bool_decide_eq_true in H0. subst k0. cbn [lookup_prop fst snd].
    unfold key_eqb. rewrite bool_decide_eq_false_2 by congruence. reflexivity.
  - cbn [lookup_prop fst snd]. unfold key_eqb. rewrite IH. reflexivity.
Qed.

(** X19.  [registerFace] saves before it counts.  When the stored object
    has the list of the mask state being registered but lacks the other
    one, the descriptor is appended and the object saved, and only then
    does the total for the status line throw a TypeError: the call ends
    with the store changed, the status line as it was and [faceMatcher]
    not rebuilt. *)
Theorem descriptor_saved_before_total (isMasked : bool) (det : Detection)
    (props : list (list N * value)) (items : list value) (s : State) :
  let target := if isMasked then js "with_mask" else js "no_mask" in
  let other := if isMasked then js "no_mask" else js "with_mask" in
  read_stored (localStorage s) = Ok (VObj props) ->
  lookup_prop target props = Some (VArr items) ->
  lookup_prop other props = None ->
  registerFace isMasked (Resolved [det]) s
  = (Throw TypeError,
     set_localStorage
       (write_stored
          (VObj (replace_value target
                   (VArr (items ++ [descriptor_value (descriptor det)])) props))
          (localStorage s))
       (emit DetectFaces s)).
Proof.
  intros target other Hread Htarget Hother.
  unfold registerFace, registerFace_resume.
  change (localStorage (emit DetectFaces s)) with (localStorage s).
  rewrite Hread. cbn [mbind result_bind push_descriptor].
  fold target. rewrite Htarget.
  change (VArr (map VNum (descriptor det))) with (descriptor_value (descriptor det)).
  cbn [member].
  destruct isMasked; unfold target, other in *.
  - rewrite (lookup_prop_replace_other (js "with_mask") (js "no_mask"))
      by (vm_compute; intros [=]).
    rewrite Hother. reflexivity.
  - assert (Hn : lookup_prop (js "no_mask")
                   (replace_value (js "no_mask")
                      (VArr (items ++ [descriptor_value (descriptor det)])) props)
                 = Some (VArr (items ++ [descriptor_value (descriptor det)]))).
    { clear Hread Hother. induction props as [|[k0 v0] props IH]; [discriminate|].
      cbn [replace_value lookup_prop fst snd] in *. unfold key_eqb in *.
      destruct (bool_decide (js "no_mask" = k0)) eqn:H0.
      - cbn [lookup_prop fst snd]. unfold key_eqb.
        rewrite bool_decide_eq_true_2 by reflexivity. reflexivity.
      - cbn [lookup_prop fst snd]. unfold key_eqb. rewrite H0. apply IH, Htarget. }
    rewrite Hn.
    rewrite (lookup_prop_replace_other (js "no_mask") (js "with_mask"))
      by (vm_compute; intros [=]).
    rewrite Hother. reflexivity.
Qed.

Lemma descriptor_saved_before_total_witness :
  let s := page_loaded [] false {[ registeredFaces := json_text "{'with_mask':[]}" ]} in
  registerFace true (Resolved [sample_detection]) s
  = (Throw TypeError,
     set_localStorage
       (write_stored
          (VObj (replace_value (js "with_mask")
                   (VArr ([] ++ [descriptor_value (descriptor sample_detection)]))
                   [(js "with_mask", VArr [])]))
          (localStorage s))
       (emit DetectFaces s)).
Proof.
  intros s.
  apply (descriptor_saved_before_total true sample_detection
           [(js "with_mask", VArr [])] [] s); vm_compute; reflexivity.
Defined.

(** ** Loading the page *)

Lemma init_by_parts (models media play : awaited unit) (s : State) :
  init models (camera_outcome media play) s
  = match loadModels models s with
    | (Ok _, s) =>
        match loadFaceMatcher (startCamera media play s) with
        | (Ok _, s) =>
            (Ok tt,
             match faceMatcher s with
             | Some _ => status_textContent "過去登録あり。監視可能（または再登録）。" s
             | None => s
             end)
        | failed => failed
        end
    | failed => failed
    end.
Proof. destruct models, media, play; reflexivity. Qed.

Lemma read_stored_missing (ls : gmap (list N) (list N)) :
  getItem registeredFaces ls = None -> read_stored ls = Ok empty_store.
Proof. unfold read_stored. intros ->. reflexivity. Qed.

(** X20.  A first visit.  With the models loaded and nothing stored,
    [init] returns normally whether or not the camera could be started;
    [faceMatcher] is null, so that the start button refuses; and the
    status line is the one [startCamera] left: the failure of
    [getUserMedia] or of [video.play] if there was one, the request to
    register otherwise. *)
Theorem init_first_visit (media play : awaited unit) (s : State) :
  getItem registeredFaces (localStorage s) = None ->
  let s' := snd (init (Resolved tt) (camera_outcome media play) s) in
  fst (init (Resolved tt) (camera_outcome media play) s) = Ok tt
  /\ faceMatcher s' = None
  /\ status s'
     = [Text (match camera_outcome media play with
              | Resolved _ => "モデルロード完了！登録してください。"
              | Rejected message => String.append "カメラエラー: " message
              end)]
  /\ status s' = status (startCamera media play (snd (loadModels (Resolved tt) s)))
  /\ Script.startMonitor_click s' = emit (Alert refusal_notice) s'.
Proof.
  intros Hget s'. unfold s'. rewrite init_by_parts. cbn [loadModels].
  rewrite loadFaceMatcher_missing
    by (destruct media, play; exact Hget).
  cbn [fst snd faceMatcher set_faceMatcher].
  destruct media, play; repeat split; reflexivity.
Qed.

Lemma init_first_visit_witness :
  let s := page_loaded [] false ∅ in
  let s' := snd (init (Resolved tt)
                   (camera_outcome (Resolved tt) (Rejected "NotAllowedError")) s) in
  fst (init (Resolved tt)
         (camera_outcome (Resolved tt) (Rejected "NotAllowedError")) s) = Ok tt
  /\ faceMatcher s' = None
  /\ status s' = [Text "カメラエラー: NotAllowedError"]
  /\ status s'
     = status (startCamera (Resolved tt) (Rejected "NotAllowedError")
                 (snd (loadModels (Resolved tt) s)))
  /\ Script.startMonitor_click s' = emit (Alert refusal_notice) s'.
Proof.
  apply (init_first_visit (Resolved tt) (Rejected "NotAllowedError")
           (page_loaded [] false ∅)).
  reflexivity.
Defined.

(** X21.  A later visit.  With the models loaded and a saved store that
    holds at least one descriptor, [init] ends with the matcher of that
    store and with the status line announcing the earlier registration,
    whatever became of the camera: a camera error written by
    [startCamera] is overwritten and never shown. *)
Theorem init_later_visit (media play : awaited unit) (store : EnrollmentStore)
    (s : State) :
  store_numbers store = true ->
  nonempty (no_mask store ++ with_mask store) = true ->
  getItem registeredFaces (localStorage s) = Some (JSON_stringify (store_value store)) ->
  let s' := snd (init (Resolved tt) (camera_outcome media play) s) in
  fst (init (Resolved tt) (camera_outcome media play) s) = Ok tt
  /\ faceMatcher s' = matcher_of store
  /\ faceMatcher s' <> None
  /\ status s' = [Text "過去登録あり。監視可能（または再登録）。"].
Proof.
  intros Hnum Hne Hget s'. unfold s'. rewrite init_by_parts. cbn [loadModels].
  rewrite (loadFaceMatcher_saved _ store Hnum)
    by (destruct media, play; exact Hget).
  cbn [faceMatcher set_faceMatcher].
  assert (Hm : exists m, matcher_of store = Some m).
  { unfold matcher_of. destruct (no_mask store), (with_mask store);
      [discriminate Hne | eauto ..]. }
  destruct Hm as [m Hm]. rewrite Hm. cbn [fst snd].
  repeat split; try reflexivity. discriminate.
Qed.

Lemma init_later_visit_witness :
  let s := page_loaded [] false
             {[ registeredFaces := JSON_stringify (store_value sample_store) ]} in
  let s' := snd (init (Resolved tt)
                   (camera_outcome (Rejected "NotFoundError") (Resolved tt)) s) in
  fst (init (Resolved tt)
         (camera_outcome (Rejected "NotFoundError") (Resolved tt)) s) = Ok tt
  /\ faceMatcher s' = matcher_of sample_store
  /\ faceMatcher s' <> None
  /\ status s' = [Text "過去登録あり。監視可能（または再登録）。"].
Proof.
  apply (init_later_visit (Rejected "NotFoundError") (Resolved tt) sample_store);
    [reflexivity | reflexivity | apply lookup_insert_eq].
Defined.

(** ** The alarm and the next cycle *)

Lemma cycle_status_not_alarm (counter : N) (f : Flags) :
  cycle_status counter f <> [Text "警報！ 不正操作検出"]
  /\ cycle_status counter f <> Revised.alarm_markup.
Proof.
  unfold cycle_status.
  destruct (NO_FACE_THRESHOLD <=? counter), (intruderDetected f), (ownerPresent f);
    split; discriminate.
Qed.

Lemma monitorLoop_status `{FaceApi} (detections : list Detection) (s : State) :
  monitoring s = true ->
  status (monitorLoop (Resolved detections) s)
  = cycle_status
      (match detections with
       | [] => increment (consecutiveNoFace s)
       | _ :: _ => 0
       end)
      (frame_flags (faceMatcher s) detections).
Proof.
  intros Hm. rewrite monitorLoop_running by exact Hm.
  rewrite monitorLoop_resume_status, monitorLoop_resume_counter. reflexivity.
Qed.

(** X22.  The alarm message does not outlive the next monitoring cycle.
    While monitoring, with the owner absent and the tab visible,
    [handleInput] writes the alarm into the status line, and the cycle
    that ends next replaces it with one of its own four messages, the very
    one it would have shown without the alarm; in both files.  The overlay
    of the second file is left up by that cycle. *)
Theorem alarm_message_lasts_one_cycle `{FaceApi} (detections : list Detection)
    (s : State) :
  monitoring s = true ->
  alarm_due s ->
  status (Script.handleInput s) = [Text "警報！ 不正操作検出"]
  /\ status (Revised.handleInput s) = Revised.alarm_markup
  /\ status (monitorLoop (Resolved detections) (Script.handleInput s))
     = status (monitorLoop (Resolved detections) s)
  /\ status (monitorLoop (Resolved detections) (Revised.handleInput s))
     = status (monitorLoop (Resolved detections) s)
  /\ status (monitorLoop (Resolved detections) s) <> [Text "警報！ 不正操作検出"]
  /\ status (monitorLoop (Resolved detections) s) <> Revised.alarm_markup
  /\ alertOverlay_display (monitorLoop (Resolved detections) (Revised.handleInput s))
     = "flex".
Proof.
  intros Hm [Ho Hv].
  assert (H1 : Script.handleInput s
               = emit AudioPlay
                   (emit AudioRewind (status_textContent "警報！ 不正操作検出" s)))
    by (unfold Script.handleInput; rewrite Ho, Hv; reflexivity).
  assert (H2 : Revised.handleInput s
               = emit AudioPlay
                   (emit AudioRewind
                      (emit (SetTimeout timer_hideOverlay 5000)
                         (set_alertOverlay_display "flex"
                            (status_innerHTML Revised.alarm_markup s)))))
    by (unfold Revised.handleInput; rewrite Ho, Hv; reflexivity).
  rewrite H1, H2.
  rewrite !monitorLoop_status by exact Hm.
  destruct (cycle_status_not_alarm
              (match detections with
               | [] => increment (consecutiveNoFace s)
               | _ :: _ => 0
               end)
              (frame_flags (faceMatcher s) detections)) as [Hn1 Hn2].
  repeat split; try reflexivity; try assumption.
  rewrite monitorLoop_running by exact Hm. unfold monitorLoop_resume.
  destruct (length detections =? 0)%nat; simpl;
    repeat match goal with |- context [if ?b then _ else _] => destruct b end;
    reflexivity.
Qed.

Lemma alarm_message_lasts_one_cycle_witness :
  let s := @monitorLoop (constant_engine owner_at_0_3) (Resolved []) sample_state in
  let next := @monitorLoop (constant_engine owner_at_0_3) (Resolved [sample_detection]) in
  status (Script.handleInput s) = [Text "警報！ 不正操作検出"]
  /\ status (Revised.handleInput s) = Revised.alarm_markup
  /\ status (next (Script.handleInput s)) = status (next s)
  /\ status (next (Revised.handleInput s)) = status (next s)
  /\ status (next s) <> [Text "警報！ 不正操作検出"]
  /\ status (next s) <> Revised.alarm_markup
  /\ alertOverlay_display (next (Revised.handleInput s)) = "flex".
Proof.
  apply (@alarm_message_lasts_one_cycle (constant_engine owner_at_0_3)
           [sample_detection]
           (@monitorLoop (constant_engine owner_at_0_3) (Resolved []) sample_state));
    [reflexivity | split; reflexivity].
Defined.
